(** * Pipeline (p2p): point-to-point synchronisation kernel

    A shallow embedding of [OPENMP/Synch_p2p/p2p.c] and proofs about its
    partitioner, its wavefront sweep, its handoff protocol, its timing
    harness, its verification step and its report; then, in [Reduce], an
    embedding of the vector reduction kernel and proofs about its result.

    Conventions of the embedding.
    - A C [int] is a [Z].  C leaves the overflow of a signed operation
      undefined, and two operations of the source can overflow on [int]
      arguments: the product [m*n] of line 140 and the verification value
      [iterations*(n+m-2)] of line 265.  Both are written with
      [CInt.checked], which has no result outside the range of [int], and
      a run that reaches such an overflow ends as [Undefined].  The other
      [int] operations are written with the 32-bit wrap-around
      ([CInt.wrap]); on the runs that pass the tests of lines 109-151 they
      are shown to stay in range, so that reading is never exercised.
    - A block of memory (the slice table, the contents of [vector]) is a
      function from indices to contents, updated with [upd].  The grid
      keeps, next to its contents, the log of the indices stored to.
    - The grid holds C [double]s.  Every value the program ever stores in
      the grid is an integer, obtained from integers by [+], [-] and
      negation; binary64 performs these exactly below 2^53, so a cell is
      modelled by the integer it holds.  No cell exceeds
      [iterations*(n+m-2)] in absolute value ([cell_bound]), so the model
      is exact when that product is below 2^52 ([exact_cells]), which the
      theorems on cell values assume; with [MEMWORDS] at its default it
      always is ([default_grid_below_2_51]).
    - Wall-clock samples and everything derived from them are genuine
      floating-point quantities: the timing harness and the report are
      written over an interface [DoubleOps], instantiated with the kernel's
      binary64 numbers in [Binary64]. *)

From Stdlib Require Import ZArith List Lia Bool String.
From Stdlib Require Import Floats.
Import ListNotations.
Local Open Scope Z_scope.

(** ** C integers *)

Module CInt.

Definition INT_MAX : Z := 2147483647.
Definition INT_MIN : Z := -2147483648.

Definition in_range (z : Z) : Prop := INT_MIN <= z <= INT_MAX.

Definition in_rangeb (z : Z) : bool := (INT_MIN <=? z) && (z <=? INT_MAX).

(** Reduction of a mathematical integer to the 32-bit signed range. *)
Definition wrap (z : Z) : Z := (z + 2147483648) mod 4294967296 - 2147483648.

Definition add (a b : Z) : Z := wrap (a + b).
Definition sub (a b : Z) : Z := wrap (a - b).
Definition mul (a b : Z) : Z := wrap (a * b).

(** C's [/] and [%] truncate toward zero. *)
Definition div (a b : Z) : Z := wrap (Z.quot a b).
Definition rem (a b : Z) : Z := Z.rem a b.

(** The result of a signed operation whose mathematical value is [z]:
    none when [z] is outside the range of [int], where C leaves the
    operation undefined. *)
Definition checked (z : Z) : option Z := if in_rangeb z then Some z else None.

(** [abs] of <stdlib.h>: it takes and returns an [int], and has no result
    at [INT_MIN]. *)
Definition abs (a : Z) : option Z := if a <? 0 then checked (- a) else Some a.

End CInt.

(** Modelled from the spec: the macros [MAX] and [MIN] of the header
    par-res-kern_general.h, which is not among the sources.  The spec reads
    them as a maximum ("max(start_w,1)", "max(iterations-1, 1)") and as the
    running minimum and maximum of the timing harness. *)
Definition MAX (x y : Z) : Z := if x >? y then x else y.

Definition EXIT_SUCCESS : Z := 0.
Definition EXIT_FAILURE : Z := 1.

(** ** Memory blocks and counted loops *)

Definition block := Z -> Z.

Definition upd (a : block) (k x : Z) : block :=
  fun k' => if k' =? k then x else a k'.

(** [for_range body lo cnt s] runs [body lo], [body (lo+1)], ..., [cnt]
    times in all. *)
Fixpoint for_range {S : Type} (body : Z -> S -> S) (lo : Z) (cnt : nat) (s : S) : S :=
  match cnt with
  | O => s
  | Datatypes.S c => for_range body (lo + 1) c (body lo s)
  end.

(** [for (i = lo; i < hi; i++) body] *)
Definition for_lt {S : Type} (lo hi : Z) (body : Z -> S -> S) (s : S) : S :=
  for_range body lo (Z.to_nat (hi - lo)) s.

(** [for (i = lo; i <= hi; i++) body] *)
Definition for_le {S : Type} (lo hi : Z) (body : Z -> S -> S) (s : S) : S :=
  for_range body lo (Z.to_nat (hi + 1 - lo)) s.

(** ** Grid partitioner (p2p.c, lines 158-165)

    The slice table is one allocation of [2*nthread_input] ints; [start]
    points to its beginning and [end] to [start + nthread_input]. *)

Definition start_ (slices : block) (ID : Z) : Z := slices ID.

Definition end_ (nthread_input : Z) (slices : block) (ID : Z) : Z :=
  slices (nthread_input + ID).

(** The body of the loop over [ID]. *)
Definition slice_step (m nthread_input : Z) (ID : Z) (slices : block) : block :=
  let segment_size := CInt.div m nthread_input in
  let segment_size :=
    if ID <? CInt.rem m nthread_input then CInt.add segment_size 1
    else segment_size in
  let slices :=
    if ID >? 0
    then upd slices ID (CInt.add (end_ nthread_input slices (ID - 1)) 1)
    else slices in
  upd slices (nthread_input + ID)
    (CInt.sub (CInt.add (start_ slices ID) segment_size) 1).

(** [malloc0] is the content of the freshly allocated table. *)
Definition partition (m nthread_input : Z) (malloc0 : block) : block :=
  for_lt 0 nthread_input (slice_step m nthread_input) (upd malloc0 0 0).

Definition slice_size (nthread_input : Z) (slices : block) (ID : Z) : Z :=
  end_ nthread_input slices ID - start_ slices ID + 1.

(** Row [i] lies in the slice of worker [ID]. *)
Definition in_slice (nthread_input : Z) (slices : block) (ID i : Z) : Prop :=
  start_ slices ID <= i <= end_ nthread_input slices ID.

(** ** The grid *)

(** [vector]: its contents, and the indices stored to, latest first. *)
Record grid : Type := Grid { cells : block; writes : list Z }.

Definition load (v : grid) (k : Z) : Z := cells v k.

Definition store (v : grid) (k x : Z) : grid :=
  {| cells := upd (cells v) k x; writes := k :: writes v |}.

Definition write_count (v : grid) (k : Z) : nat :=
  count_occ Z.eq_dec (writes v) k.

(** A [static double] array starts out zeroed and unwritten. *)
Definition vector0 : grid := {| cells := fun _ => 0; writes := [] |}.

(** The index behind [ARRAY(i,j)], that is [vector[i+(j)*(m)]]. *)
Definition ARRAY (m i j : Z) : Z := CInt.add i (CInt.mul j m).

(** ** What one worker does (p2p.c, lines 192-256) *)

Section Worker.

Variables (m n : Z).
Variable nthread_input : Z.
Variable slices : block.

Let start (ID : Z) := start_ slices ID.
Let end' (ID : Z) := end_ nthread_input slices ID.

(** line 195 *)
Definition clear_slice (my_ID : Z) (v : grid) : grid :=
  for_lt 0 n (fun j v =>
    for_le (start my_ID) (end' my_ID) (fun i v => store v (ARRAY m i j) 0) v) v.

(** line 197 *)
Definition seed_row (my_ID : Z) (v : grid) : grid :=
  if my_ID =? 0
  then for_lt 0 n (fun j v => store v (ARRAY m (start my_ID) j) j) v
  else v.

(** line 198 *)
Definition seed_column (my_ID : Z) (v : grid) : grid :=
  for_le (start my_ID) (end' my_ID) (fun i v => store v (ARRAY m i 0) i) v.

Definition worker_init (my_ID : Z) (v : grid) : grid :=
  seed_column my_ID (seed_row my_ID (clear_slice my_ID v)).

(** line 225, on the integers the cells hold: what binary64 computes as
    long as the sum of two cells stays below 2^53 ([exact_cells]). *)
Definition stencil (i j : Z) (v : grid) : grid :=
  store v (ARRAY m i j)
    (load v (ARRAY m (CInt.sub i 1) j) + load v (ARRAY m i (CInt.sub j 1))
     - load v (ARRAY m (CInt.sub i 1) (CInt.sub j 1))).

(** lines 224-226 *)
Definition compute_column (my_ID j : Z) (v : grid) : grid :=
  for_le (MAX (start my_ID) 1) (end' my_ID) (fun i v => stencil i j v) v.

(** line 254 *)
Definition feedback (v : grid) : grid :=
  store v (ARRAY m 0 0) (- load v (ARRAY m (CInt.sub m 1) (CInt.sub n 1))).

(** *** The workers in pipeline order

    The handoff flags let worker [ID] compute column [j] only after
    worker [ID-1] has computed it, and a worker takes its columns in
    order.  [sweep] runs the workers' column steps in the order "column by
    column, and within a column worker by worker", which respects both. *)

Definition init_all (nthread : Z) (v : grid) : grid :=
  for_lt 0 nthread worker_init v.

Definition sweep (nthread : Z) (v : grid) : grid :=
  for_lt 1 n (fun j v => for_lt 0 nthread (fun my_ID v => compute_column my_ID j v) v) v.

End Worker.

(** ** Floating-point quantities *)

Class DoubleOps (D : Type) : Type := {
  d_of_int : Z -> D;          (* conversion of an [int] to [double] *)
  d_of_int_float : Z -> D;    (* conversion [int] to [float], promoted to [double] *)
  d_micro : D;                (* the literal [1.0E-06] *)
  d_add : D -> D -> D;
  d_sub : D -> D -> D;
  d_mul : D -> D -> D;
  d_div : D -> D -> D;
  d_lt : D -> D -> bool
}.

(** The kernel's binary64 numbers. *)
Module Binary64.

Definition of_int (z : Z) : float :=
  match z with
  | Z0 => PrimFloat.zero
  | Zpos _ => PrimFloat.of_uint63 (Uint63.of_Z z)
  | Zneg _ => PrimFloat.opp (PrimFloat.of_uint63 (Uint63.of_Z (- z)))
  end.

(** Rounding of an integer to the nearest binary32 number (24 bits of
    precision); the result is a binary64 number as it stands. *)
Definition of_int_float (z : Z) : float :=
  match z with
  | Z0 => PrimFloat.zero
  | Zpos p => SF2Prim (SpecFloat.binary_normalize 24 128 (Zpos p) 0 false)
  | Zneg p => SF2Prim (SpecFloat.binary_normalize 24 128 (Zneg p) 0 true)
  end.

#[global] Instance ops : DoubleOps float := {|
  d_of_int := of_int;
  d_of_int_float := of_int_float;
  d_micro := 0x1.0c6f7a0b5ed8dp-20%float;   (* nearest binary64 to 1.0E-06 *)
  d_add := PrimFloat.add;
  d_sub := PrimFloat.sub;
  d_mul := PrimFloat.mul;
  d_div := PrimFloat.div;
  d_lt := PrimFloat.ltb
|}.

End Binary64.

(** ** The program *)

(** The end of a line, [\n] in a format. *)
Definition nl : string := String (Ascii.ascii_of_nat 10) EmptyString.

(** What the program prints, one constructor per [printf] format (two where
    the source splits a line over two calls). *)
Inductive line (D : Type) : Type :=
| Usage (progname : string)
| InvalidThreads (nthread_input : Z)
| InvalidIterations (iterations : Z)
| InvalidDimensions (m n : Z)
| GridTooLarge (m n : Z)
| TooFewRows (m nthread_input : Z)
| SliceAllocationFailed
| Banner
| SpawnMismatch (nthread_input nthread : Z)
| NumberOfThreads (nthread_input : Z)
| GridSizes (m n : Z)
| PairwiseSynchs (k : Z)
| NumberOfIterations (iterations : Z)
| ChecksumError (corner corner_val : Z)
| SolutionValidates
| SolutionValidatesVerbose (corner_val : Z)
| SynchRate (r : D)
| RateLine (rate avgtime mintime maxtime : D).

Arguments Usage {D}.
Arguments InvalidThreads {D}.
Arguments InvalidIterations {D}.
Arguments InvalidDimensions {D}.
Arguments GridTooLarge {D}.
Arguments TooFewRows {D}.
Arguments SliceAllocationFailed {D}.
Arguments Banner {D}.
Arguments SpawnMismatch {D}.
Arguments NumberOfThreads {D}.
Arguments GridSizes {D}.
Arguments PairwiseSynchs {D}.
Arguments NumberOfIterations {D}.
Arguments ChecksumError {D}.
Arguments SolutionValidates {D}.
Arguments SolutionValidatesVerbose {D}.
Arguments SynchRate {D}.
Arguments RateLine {D}.

(** The lines that report a time or a rate. *)
Definition is_timing_line {D : Type} (l : line D) : bool :=
  match l with
  | SynchRate _ | RateLine _ _ _ _ => true
  | _ => false
  end.

(** The lines a worker prints inside the parallel region. *)
Definition is_region_line {D : Type} (l : line D) : bool :=
  match l with
  | Banner | SpawnMismatch _ _ | NumberOfThreads _ | GridSizes _ _
  | PairwiseSynchs _ | NumberOfIterations _ => true
  | _ => false
  end.

(** How the program ends: [exit] (or [return] from [main]) with a status,
    the lines printed and the final grid; or, when a signed operation
    overflows or a [double] outside the range of [int] is converted to
    [int], in no defined way. *)
Inductive outcome (D : Type) : Type :=
| Exited (status : Z) (out : list (line D)) (vector : grid)
| Undefined.

Arguments Exited {D}.
Arguments Undefined {D}.

Record config : Type := Config {
  c_nthread_input : Z;
  c_iterations : Z;
  c_m : Z;
  c_n : Z
}.

(** The timing parameters [avgtime], [mintime], [maxtime]. *)
Record stats (D : Type) : Type := Stats {
  avgtime : D;
  mintime : D;
  maxtime : D
}.

Arguments Stats {D}.
Arguments avgtime {D}.
Arguments mintime {D}.
Arguments maxtime {D}.

(** The state the iteration loop carries, as the master thread sees it. *)
Record run_state (D : Type) : Type := RunState {
  vector : grid;
  timing : stats D;
  wtime_calls : nat
}.

Arguments RunState {D}.
Arguments vector {D}.
Arguments timing {D}.
Arguments wtime_calls {D}.

(** What the run gets from outside: the result of [malloc] (the content of
    the fresh table, or [None] for a null pointer), the number of threads
    the runtime spawns, and the readings of the clock, call by call. *)
Record env (D : Type) : Type := Env {
  malloc_result : option block;
  omp_get_num_threads : Z;
  wtime : nat -> D
}.

Arguments Env {D}.
Arguments malloc_result {D}.
Arguments omp_get_num_threads {D}.
Arguments wtime {D}.

Section Program.

Context {D : Type} {ops : DoubleOps D}.

(** Build-time constants: [MAX_THREADS] comes from par-res-kern_omp.h,
    [MEMWORDS] and [VERBOSE] from the compiler's command line. *)
Variables (MAX_THREADS MEMWORDS : Z) (VERBOSE : bool).

(** Modelled from the spec: the macros [MIN] and [MAX] of
    par-res-kern_general.h at type [double] ("running minimum, running
    maximum"): the first argument when it compares strictly below (above)
    the second, the second otherwise. *)
Definition dMIN (x y : D) : D := if d_lt x y then x else y.
Definition dMAX (x y : D) : D := if d_lt y x then x else y.

(** lines 89-91: the initial values of the timing parameters. *)
Definition stats0 : stats D :=
  {| avgtime := d_of_int 0;
     maxtime := d_of_int 0;
     mintime := d_mul (d_mul (d_of_int 366) (d_of_int 24)) (d_of_int 3600) |}.

(** lines 241-245 *)
Definition record_sample (iterations iter : Z) (pipeline_time : D) (s : stats D)
  : stats D :=
  if (iter >? 0) || (iterations =? 1)
  then {| avgtime := d_add (avgtime s) pipeline_time;
          mintime := dMIN (mintime s) pipeline_time;
          maxtime := dMAX (maxtime s) pipeline_time |}
  else s.

(** lines 109-151: the tests on the command line ([args] holds what [atoi]
    reads from [argv[1]], [argv[2]], ...): a diagnostic, or the
    configuration to run, or nothing when [m*n] overflows at line 140,
    where the tests that follow decide nothing. *)
Definition check_args (progname : string) (args : list Z)
  : option (line D + config) :=
  match args with
  | [nthread_input; iterations; m; n] =>
    if (nthread_input <? 1) || (nthread_input >? MAX_THREADS)
    then Some (inl (InvalidThreads nthread_input))
    else if iterations <? 1 then Some (inl (InvalidIterations iterations))
    else if (m <? 1) || (n <? 1) then Some (inl (InvalidDimensions m n))
    else
      match CInt.checked (m * n) with
      | None => None
      | Some total_length =>
        if negb (CInt.div total_length n =? m) || (total_length >? MEMWORDS)
        then Some (inl (GridTooLarge m n))
        else if m <? nthread_input then Some (inl (TooFewRows m nthread_input))
        else Some (inr (Config nthread_input iterations m n))
      end
  | _ => Some (inl (Usage progname))
  end.

Section Run.

Variable c : config.
Variable slices : block.
Variable e : env D.

Let nthread_input := c_nthread_input c.
Let iterations := c_iterations c.
Let m := c_m c.
Let n := c_n c.
Let nthread := omp_get_num_threads e.

(** lines 200-256, one trip through the iteration loop. *)
Definition iteration (iter : Z) (st : run_state D) : run_state D :=
  let t0 := wtime e (wtime_calls st) in
  let v := sweep m n nthread_input slices nthread (vector st) in
  let pipeline_time := d_sub (wtime e (S (wtime_calls st))) t0 in
  {| vector := feedback m n v;
     timing := record_sample iterations iter pipeline_time (timing st);
     wtime_calls := S (S (wtime_calls st)) |}.

Definition region_entry : run_state D :=
  {| vector := init_all m n nthread_input slices nthread vector0;
     timing := stats0;
     wtime_calls := O |}.

Definition parallel_region : run_state D :=
  for_lt 0 iterations iteration region_entry.

(** line 265: [iterations*(n+m-2)], computed in [int] before its
    conversion to [double]; no value when the sum or the product
    overflows. *)
Definition corner_val : option Z :=
  match CInt.checked (n + m) with
  | Some sum =>
    match CInt.checked (sum - 2) with
    | Some span => CInt.checked (iterations * span)
    | None => None
    end
  | None => None
  end.

(** Conversion of an integer-valued [double] to [int]: defined when the
    value is in range. *)
Definition double_to_int (x : Z) : option Z :=
  if CInt.in_rangeb x then Some x else None.

(** [(double)a / (double)c > 1.e-8] for two [int]s.  The quotient is
    compared exactly; binary64 decides the same way, because a quotient of
    32-bit integers that differs from 10^-8 does so by a relative 2^-31 at
    least, far more than the rounding of the division and of the literal.
    A zero divisor gives a NaN or an infinity. *)
Definition ratio_gt_epsilon (a c : Z) : bool :=
  if c =? 0 then a >? 0
  else if c >? 0 then a * 100000000 >? c
  else a * 100000000 <? c.

(** line 266; [abs] is the integer one of <stdlib.h>, so its argument is
    converted to [int] first. *)
Definition checksum_fails (v : grid) : option bool :=
  match corner_val with
  | Some expected =>
    match double_to_int
            (load v (ARRAY m (CInt.sub m 1) (CInt.sub n 1)) - expected) with
    | Some d =>
      match CInt.abs d with
      | Some a => Some (ratio_gt_epsilon a expected)
      | None => None
      end
    | None => None
    end
  | None => None
  end.

(** lines 279-282 *)
Definition final_avgtime (s : stats D) : D :=
  d_div (avgtime s) (d_of_int (MAX (CInt.sub iterations 1) 1)).

Definition mflops (s : stats D) : D :=
  d_div
    (d_mul (d_mul d_micro (d_of_int 2))
           (d_of_int (CInt.mul (CInt.sub m 1) (CInt.sub n 1))))
    (mintime s).

(** line 275 *)
Definition synch_rate (s : stats D) : D :=
  d_div (d_of_int_float (CInt.mul (CInt.sub n 1) (CInt.sub nthread 1)))
        (mintime s).

Definition region_header : list (line D) :=
  [Banner; NumberOfThreads nthread_input; GridSizes m n]
  ++ (if VERBOSE
      then [PairwiseSynchs (CInt.mul (CInt.sub nthread 1) (CInt.sub n 1))]
      else [])
  ++ [NumberOfIterations iterations].

Definition report (expected : Z) (s : stats D) : list (line D) :=
  (if VERBOSE
   then [SolutionValidatesVerbose expected; SynchRate (synch_rate s)]
   else [SolutionValidates])
  ++ [RateLine (mflops s) (final_avgtime s) (mintime s) (maxtime s)].

(** Modelled from the spec: [bail_out] of the common sources, which are not
    at hand: "a synchronized fatal-abort helper that propagates an error
    signal to every worker before uniform process termination", with a
    nonzero exit.  [bail_out error] tells whether the process ends there. *)
Definition bail_out (error : Z) : bool := negb (error =? 0).

(** lines 167-285 *)
Definition run_and_report : outcome D :=
  let num_error := if negb (nthread =? nthread_input) then 1 else 0 in
  if bail_out num_error
  then Exited EXIT_FAILURE [Banner; SpawnMismatch nthread_input nthread] vector0
  else
    let st := parallel_region in
    match corner_val, checksum_fails (vector st) with
    | Some expected, Some true =>
      Exited EXIT_FAILURE
        (region_header
         ++ [ChecksumError (load (vector st) (ARRAY m (CInt.sub m 1) (CInt.sub n 1)))
                           expected])
        (vector st)
    | Some expected, Some false =>
      Exited EXIT_SUCCESS (region_header ++ report expected (timing st)) (vector st)
    | _, _ => Undefined
    end.

End Run.

Definition main (progname : string) (args : list Z) (e : env D) : outcome D :=
  match check_args progname args with
  | None => Undefined
  | Some (inl diagnostic) => Exited EXIT_FAILURE [diagnostic] vector0
  | Some (inr c) =>
    match malloc_result e with
    | None => Exited EXIT_FAILURE [SliceAllocationFailed] vector0
    | Some malloc0 =>
      run_and_report c (partition (c_m c) (c_nthread_input c) malloc0) e
    end
  end.

(** *** The text of the lines

    [show_d] and [show_lf] stand for the conversions [%d] and [%lf];
    [show_cell] is [%lf] on a grid value. *)
Section Text.

Variables (show_d : Z -> string) (show_lf : D -> string) (show_cell : Z -> string).

Definition render (l : line D) : string :=
  match l with
  | Usage progname =>
    "Usage: " ++ progname ++ " <# threads> <# iterations> <first array dimension> "
    ++ "<second array dimension>" ++ nl
  | InvalidThreads k => "ERROR: Invalid number of threads: " ++ show_d k ++ nl
  | InvalidIterations k => "ERROR: iterations must be >= 1 : " ++ show_d k ++ " " ++ nl
  | InvalidDimensions m n =>
    "ERROR: grid dimensions must be positive: " ++ show_d m ++ ", " ++ show_d n
    ++ " " ++ nl
  | GridTooLarge m n =>
    "Grid of " ++ show_d m ++ " by " ++ show_d n ++ " points too large; "
    ++ "increase MEMWORDS in Makefile or  reduce grid size" ++ nl
  | TooFewRows m k =>
    "First grid dimension " ++ show_d m
    ++ " smaller than number of threads requested: " ++ show_d k ++ nl
  | SliceAllocationFailed =>
    "ERROR: Could not allocate space for array of slice boundaries" ++ nl
  | Banner => "OpenMP pipeline execution on 2D grid" ++ nl
  | SpawnMismatch k k' =>
    "ERROR: number of requested threads " ++ show_d k ++ " does not equal "
    ++ "number of spawned threads " ++ show_d k' ++ nl
  | NumberOfThreads k => "Number of threads         = " ++ show_d k ++ nl
  | GridSizes m n => "Grid sizes                = " ++ show_d m ++ ", " ++ show_d n ++ nl
  | PairwiseSynchs k => "Number of pairwise synchs = " ++ show_d k ++ nl
  | NumberOfIterations k => "Number of iterations      = " ++ show_d k ++ nl
  | ChecksumError x y =>
    "ERROR: checksum " ++ show_cell x ++ " does not match verification value "
    ++ show_cell y ++ nl
  | SolutionValidates => "Solution validates" ++ nl
  | SolutionValidatesVerbose y =>
    "Solution validates; verification value = " ++ show_cell y ++ nl
  | SynchRate r => "Point-to-point synchronizations/s: " ++ show_lf r ++ nl
  | RateLine r a mn mx =>
    ("Rate (MFlops/s): " ++ show_lf r ++ ", Avg time (s): " ++ show_lf a
     ++ ", Min time (s): " ++ show_lf mn)
    ++ (", Max time (s): " ++ show_lf mx ++ nl)
  end%string.

End Text.

End Program.

(** ** Closed forms used in the proofs *)

(** First row of the slice of worker [w] when [m] rows are dealt to [W]
    workers, the remainder going to the first workers. *)
Definition slice_lo (m W w : Z) : Z := w * (m / W) + Z.min w (m mod W).

(** What the slice table holds after the trips [0 .. k-1] of the
    partitioner's loop. *)
Definition slices_upto (m W k : Z) (s : block) : Prop :=
  s 0 = 0 /\
  forall w, 0 <= w < k ->
    start_ s w = slice_lo m W w /\ end_ W s w = slice_lo m W (w + 1) - 1.

(** The configurations the tests on the command line let through. *)
Definition accepted (MAX_THREADS MEMWORDS : Z) (c : config) : Prop :=
  1 <= c_nthread_input c <= MAX_THREADS
  /\ 1 <= c_iterations c
  /\ c_nthread_input c <= c_m c
  /\ 1 <= c_n c
  /\ CInt.in_range (c_m c * c_n c)
  /\ c_m c * c_n c <= MEMWORDS.

(** The runs on which a cell is the integer it is modelled by: the sum of
    two cells stays below 2^53. *)
Definition exact_cells (c : config) : Prop :=
  c_iterations c * (c_n c + c_m c - 2) < 2 ^ 52.


(** *** Describing a grid cell by cell

    A description gives, for row [i] and column [j], the value of the
    cell and the number of stores it has received. *)
Definition description := Z -> Z -> Z * nat.

(** [v] holds an [m] by [n] grid described by [d], and nothing outside. *)
Definition grid_is (m n : Z) (d : description) (v : grid) : Prop :=
  (forall i j, 0 <= i < m -> 0 <= j < n ->
     load v (i + j * m) = fst (d i j)
     /\ write_count v (i + j * m) = snd (d i j))
  /\ (forall k, k < 0 \/ m * n <= k -> load v k = 0 /\ write_count v k = O).

(** One more store, of [x], to cell [(i0, j0)]. *)
Definition put_cell (d : description) (i0 j0 x : Z) : description :=
  fun i j => if (i =? i0) && (j =? j0) then (x, S (snd (d i j))) else d i j.

(** One more store, of [f i], to the cells of rows [lo .. hi] in column [j0]. *)
Definition fill_rows (d : description) (j0 lo hi : Z) (f : Z -> Z) : description :=
  fun i j =>
    if (j =? j0) && (lo <=? i) && (i <=? hi) then (f i, S (snd (d i j))) else d i j.

(** One more store, of [f j], to the cells of columns [0 .. hi-1] in row [i0]. *)
Definition fill_columns (d : description) (i0 hi : Z) (f : Z -> Z) : description :=
  fun i j =>
    if (i =? i0) && (j <? hi) then (f j, S (snd (d i j))) else d i j.

(** The grid once the rows below [hi] are cleared and seeded. *)
Definition seeded_below (hi : Z) : description :=
  fun i j =>
    if i <? hi
    then (if j =? 0 then i else if i =? 0 then j else 0,
          (1 + (if (i =? 0)%Z then 1 else 0) + (if (j =? 0)%Z then 1 else 0))%nat)
    else (0, O).

(** A sweep under way on a grid that was [d] when it began: the interior
    cells of the columns before [j], and of the rows before [i] in column
    [j], hold their new value. *)
Definition swept_upto (d : description) (j i : Z) : description :=
  fun i' j' =>
    if (1 <=? i') && (1 <=? j') && ((j' <? j) || ((j' =? j) && (i' <? i)))
    then (i' + j' - fst (d 0 0), S (snd (d i' j')))
    else d i' j'.

(** The value of the origin after [k] trips through the iteration loop. *)
Definition origin_after (m n k : Z) : Z :=
  if (2 <=? m) && (2 <=? n) then - (k * (n + m - 2))
  else if k =? 0 then 0 else - (n + m - 2).

(** The grid after [k] trips through the iteration loop. *)
Definition grid_after (m n k : Z) : description :=
  fun i j =>
    if (i =? 0) && (j =? 0) then (origin_after m n k, (3 + Z.to_nat k)%nat)
    else if i =? 0 then (j, 2%nat)
    else if j =? 0 then (i, 2%nat)
    else (if k =? 0 then 0 else i + j + (k - 1) * (n + m - 2),
          (1 + Z.to_nat k)%nat).


(** A run that passes the tests on the command line, on [int] arguments,
    gets its slice table (with content [malloc0]) and gets the threads it
    asked for. *)
Definition valid_run {D : Type} (MAX_THREADS MEMWORDS : Z)
  (c : config) (e : env D) (malloc0 : block) : Prop :=
  accepted MAX_THREADS MEMWORDS c
  /\ CInt.in_range (c_iterations c)
  /\ CInt.in_range (c_m c)
  /\ CInt.in_range (c_n c)
  /\ malloc_result e = Some malloc0
  /\ omp_get_num_threads e = c_nthread_input c.

(** The final grid of a run. *)
Definition final_grid {D : Type} {ops : DoubleOps D}
  (c : config) (e : env D) (malloc0 : block) : grid :=
  vector (parallel_region c (partition (c_m c) (c_nthread_input c) malloc0) e).

(** The far corner [ARRAY(m-1,n-1)] of a grid, as lines 254 and 266 read it. *)
Definition far_corner (c : config) (v : grid) : Z :=
  load v (ARRAY (c_m c) (CInt.sub (c_m c) 1) (CInt.sub (c_n c) 1)).

(** The origin [ARRAY(0,0)]. *)
Definition origin (c : config) (v : grid) : Z := load v (ARRAY (c_m c) 0 0).

Definition exit_status {D : Type} (o : outcome D) : option Z :=
  match o with
  | Exited status _ _ => Some status
  | Undefined => None
  end.

Definition printed {D : Type} (o : outcome D) : list (line D) :=
  match o with
  | Exited _ out _ => out
  | Undefined => []
  end.


(** The grid after [k] trips through the iteration loop of a run. *)
Definition grid_at_trip {D : Type} {ops : DoubleOps D}
  (c : config) (e : env D) (malloc0 : block) (k : Z) : grid :=
  let slices := partition (c_m c) (c_nthread_input c) malloc0 in
  vector (for_lt 0 k (iteration c slices e) (region_entry c slices e)).


(** An environment to run examples in: the allocation succeeds, the
    runtime spawns [nthread] threads, and the clock reads 0, 1, 4, 9, ... *)
Definition example_env (nthread : Z) : env float :=
  {| malloc_result := Some (fun _ => 0);
     omp_get_num_threads := nthread;
     wtime := fun k => Binary64.of_int (Z.of_nat (k * k)) |}.

(** The relative deviation of [x] from a non-negative [expected] exceeds
    10^-8. *)
Definition deviates (x expected : Z) : Prop :=
  Z.abs (x - expected) * 100000000 > expected.


(** *** The timing harness in the words of the specification

    The elapsed time of iteration [k] is the difference of the two clock
    readings taken around its column loop. *)
Definition elapsed {D : Type} {ops : DoubleOps D} (e : env D) (k : nat) : D :=
  d_sub (wtime e (2 * k + 1)) (wtime e (2 * k)).

(** The samples of the iterations [0 .. iterations-1]. *)
Definition samples {D : Type} {ops : DoubleOps D} (e : env D) (iterations : Z)
  : list D :=
  map (elapsed e) (seq 0 (Z.to_nat iterations)).

(** "The sample for iteration index 0 is discarded unless exactly one
    iteration was requested." *)
Definition kept_samples {D : Type} (iterations : Z) (l : list D) : list D :=
  if iterations =? 1 then l else tl l.

(** "Running minimum, running maximum, and a running sum are maintained." *)
Definition accumulate {D : Type} {ops : DoubleOps D} (s : stats D) (t : D)
  : stats D :=
  {| avgtime := d_add (avgtime s) t;
     mintime := dMIN (mintime s) t;
     maxtime := dMAX (maxtime s) t |}.

Definition running_stats {D : Type} {ops : DoubleOps D} (l : list D) : stats D :=
  fold_left accumulate l stats0.


(** ** The workers under the handoff protocol (p2p.c, lines 167-258)

    The parallel region as a transition system.  Each worker is at a point
    of its program; a step is one worker's next action, or the release of
    a barrier that every worker has reached.  Memory is sequentially
    consistent (the [flush] directives of the source ask for that much
    around every access to a flag); a turn of a spin loop that finds the
    flag unchanged is no step. *)

(** Where a worker is, with its loop variables [iter], [j], [i]. *)
Inductive pc : Type :=
| Init                     (* before line 195 *)
| Reset (iter : Z)         (* at the test of the iteration loop, line 200 *)
| Bar1 (iter : Z)          (* at the barrier of line 206 *)
| Top (iter j : Z)         (* at the test of the column loop, line 213 *)
| WaitL (iter j : Z)       (* spinning on the left neighbour's flag, line 217 *)
| ClearL (iter j : Z)      (* before [flag[my_ID-1] = 0], line 220 *)
| Comp (iter j i : Z)      (* at the test of the row loop, line 224 *)
| WaitR (iter j : Z)       (* spinning on its own flag, line 230 *)
| SetR (iter j : Z)        (* before [flag[my_ID] = 1], line 233 *)
| Bar2 (iter : Z)          (* at the barrier of line 251 *)
| Feed (iter : Z)          (* the master before line 254 *)
| Done.                    (* past the iteration loop *)

(** The shared grid, the shared flags, and every worker's point. *)
Record team : Type := Team {
  t_vector : grid;
  t_flag : block;
  t_pc : Z -> pc
}.

Definition move (pcs : Z -> pc) (w : Z) (p : pc) : Z -> pc :=
  fun w' => if w' =? w then p else pcs w'.

Section Protocol.

Variables (m n iterations nthread : Z).
Variable slices : block.

Let start (ID : Z) := start_ slices ID.
Let end' (ID : Z) := end_ nthread slices ID.

Inductive step : team -> team -> Prop :=
(* lines 195-198 *)
| step_init v fl pcs w :
    0 <= w < nthread -> pcs w = Init ->
    step (Team v fl pcs)
         (Team (worker_init m n nthread slices w v) fl (move pcs w (Reset 0)))
(* lines 200, 203 *)
| step_reset v fl pcs w iter :
    0 <= w < nthread -> pcs w = Reset iter -> iter < iterations ->
    step (Team v fl pcs) (Team v (upd fl w 0) (move pcs w (Bar1 iter)))
| step_leave v fl pcs w iter :
    0 <= w < nthread -> pcs w = Reset iter -> iterations <= iter ->
    step (Team v fl pcs) (Team v fl (move pcs w Done))
(* line 206 *)
| step_barrier1 v fl pcs iter :
    (forall w, 0 <= w < nthread -> pcs w = Bar1 iter) ->
    step (Team v fl pcs)
         (Team v fl (fun w => if (0 <=? w) && (w <? nthread) then Top iter 1
                              else pcs w))
(* lines 213, 216 *)
| step_column_wait v fl pcs w iter j :
    0 <= w < nthread -> pcs w = Top iter j -> j < n -> w > 0 ->
    step (Team v fl pcs) (Team v fl (move pcs w (WaitL iter j)))
| step_column_first v fl pcs w iter j :
    0 <= w < nthread -> pcs w = Top iter j -> j < n -> w <= 0 ->
    step (Team v fl pcs)
         (Team v fl (move pcs w (Comp iter j (MAX (start w) 1))))
| step_columns_done v fl pcs w iter j :
    0 <= w < nthread -> pcs w = Top iter j -> n <= j ->
    step (Team v fl pcs) (Team v fl (move pcs w (Bar2 iter)))
(* line 217 *)
| step_seen_left v fl pcs w iter j :
    0 <= w < nthread -> pcs w = WaitL iter j -> fl (w - 1) <> 0 ->
    step (Team v fl pcs) (Team v fl (move pcs w (ClearL iter j)))
(* lines 220, 224 *)
| step_clear_left v fl pcs w iter j :
    0 <= w < nthread -> pcs w = ClearL iter j ->
    step (Team v fl pcs)
         (Team v (upd fl (w - 1) 0)
               (move pcs w (Comp iter j (MAX (start w) 1))))
(* lines 224-225 *)
| step_cell v fl pcs w iter j i :
    0 <= w < nthread -> pcs w = Comp iter j i -> i <= end' w ->
    step (Team v fl pcs)
         (Team (stencil m i j v) fl (move pcs w (Comp iter j (i + 1))))
(* lines 224, 229 *)
| step_rows_done_publish v fl pcs w iter j i :
    0 <= w < nthread -> pcs w = Comp iter j i -> end' w < i ->
    w < nthread - 1 ->
    step (Team v fl pcs) (Team v fl (move pcs w (WaitR iter j)))
| step_rows_done_last v fl pcs w iter j i :
    0 <= w < nthread -> pcs w = Comp iter j i -> end' w < i ->
    nthread - 1 <= w ->
    step (Team v fl pcs) (Team v fl (move pcs w (Top iter (j + 1))))
(* line 230 *)
| step_seen_right v fl pcs w iter j :
    0 <= w < nthread -> pcs w = WaitR iter j -> fl w <> 1 ->
    step (Team v fl pcs) (Team v fl (move pcs w (SetR iter j)))
(* line 233 *)
| step_set_right v fl pcs w iter j :
    0 <= w < nthread -> pcs w = SetR iter j ->
    step (Team v fl pcs)
         (Team v (upd fl w 1) (move pcs w (Top iter (j + 1))))
(* line 251: past the barrier the master goes to line 254, the others to
   the next trip *)
| step_barrier2 v fl pcs iter :
    (forall w, 0 <= w < nthread -> pcs w = Bar2 iter) ->
    step (Team v fl pcs)
         (Team v fl (fun w => if (0 <=? w) && (w <? nthread)
                              then (if w =? 0 then Feed iter else Reset (iter + 1))
                              else pcs w))
(* line 254 *)
| step_feedback v fl pcs w iter :
    0 <= w < nthread -> pcs w = Feed iter ->
    step (Team v fl pcs)
         (Team (feedback m n v) fl (move pcs w (Reset (iter + 1)))).

(** The region starts on the zeroed grid, whatever the flags hold. *)
Inductive reachable : team -> Prop :=
| reach_entry flag0 : reachable (Team vector0 flag0 (fun _ => Init))
| reach_step t t' : reachable t -> step t t' -> reachable t'.

(** Every worker has left the iteration loop. *)
Definition finished (t : team) : Prop :=
  forall w, 0 <= w < nthread -> t_pc t w = Done.

End Protocol.


(** *** The invariant of the protocol *)

(** The worker whose slice holds row [i], found by looking for the last
    slice that starts at or below [i]. *)
Fixpoint slice_of (m W : Z) (k : nat) (i : Z) : Z :=
  match k with
  | O => 0
  | S k' => if slice_lo m W (Z.of_nat k) <=? i then Z.of_nat k
            else slice_of m W k' i
  end.

Definition owner (m W i : Z) : Z := slice_of m W (Z.to_nat (W - 1)) i.

(** In the current sweep, the interior cells of row [i] are computed in
    the columns before [front n p i], [p] being the point of the row's
    owner. *)
Definition front (n : Z) (p : pc) (i : Z) : Z :=
  match p with
  | Top _ j | WaitL _ j | ClearL _ j => j
  | Comp _ j r => if i <? r then j + 1 else j
  | WaitR _ j | SetR _ j => j + 1
  | Bar2 _ => n
  | _ => 1
  end.

(** Columns handed to the right neighbour so far in the current sweep. *)
Definition published (n : Z) (p : pc) : Z :=
  match p with
  | Top _ j | WaitL _ j | ClearL _ j | Comp _ j _ | WaitR _ j | SetR _ j => j - 1
  | Bar2 _ => n - 1
  | _ => 0
  end.

(** Columns taken from the left neighbour so far in the current sweep. *)
Definition consumed (n : Z) (p : pc) : Z :=
  match p with
  | Top _ j | WaitL _ j | ClearL _ j => j - 1
  | Comp _ j _ | WaitR _ j | SetR _ j => j
  | Bar2 _ => n - 1
  | _ => 0
  end.

Definition at_ClearL (p : pc) : Prop :=
  match p with ClearL _ _ => True | _ => False end.

Definition at_SetR (p : pc) : Prop :=
  match p with SetR _ _ => True | _ => False end.

(** The flag [f] between a worker at [p] and its right neighbour at [q]. *)
Definition handoff_ok (n f : Z) (p q : pc) : Prop :=
  f = published n p - consumed n q
  /\ (f = 0 \/ f = 1)
  /\ (at_ClearL q -> f = 1)
  /\ (at_SetR p -> f = 0).

(** The points of worker [w] inside the column loop of trip [it]. *)
Definition column_pc (m n W it w : Z) (p : pc) : Prop :=
  match p with
  | Top it' j => it' = it /\ 1 <= j <= n
  | WaitL it' j | ClearL it' j => it' = it /\ 1 <= j < n /\ 0 < w
  | Comp it' j r =>
    it' = it /\ 1 <= j < n
    /\ Z.max (slice_lo m W w) 1 <= r <= slice_lo m W (w + 1)
  | WaitR it' j | SetR it' j => it' = it /\ 1 <= j < n /\ w < W - 1
  | Bar2 it' => it' = it
  | _ => False
  end.

(** The points of worker [w] between the column loops, [it] trips done. *)
Definition resting_pc (K it w : Z) (p : pc) : Prop :=
  match p with
  | Init => it = 0
  | Reset it' => it' = it
  | Bar1 it' => it' = it /\ it < K
  | Feed it' => it' = it - 1 /\ w = 0 /\ 1 <= it
  | Done => it = K
  | _ => False
  end.

(** The grid during the column loop of trip [it]. *)
Definition sweeping (m n W it : Z) (pcs : Z -> pc) : description :=
  fun i j =>
    if (1 <=? i) && (1 <=? j) && (j <? front n (pcs (owner m W i)) i)
    then (i + j - fst (grid_after m n it 0 0), S (snd (grid_after m n it i j)))
    else grid_after m n it i j.

(** The grid between the column loops, [it] trips done: the rows of a
    worker that has not run lines 195-198 are untouched, and the origin
    is stale while the master has not run line 254. *)
Definition resting (m n W it : Z) (pcs : Z -> pc) : description :=
  fun i j =>
    match pcs (owner m W i) with
    | Init => (0, O)
    | Feed _ => if (i =? 0) && (j =? 0) then grid_after m n (it - 1) 0 0
                else grid_after m n it i j
    | _ => grid_after m n it i j
    end.

(** The points at which a worker's rows are seeded and the origin is fresh. *)
Definition plain (p : pc) : Prop :=
  match p with Init | Feed _ => False | _ => True end.

(** Between the column loops, [it] trips done. *)
Definition resting_inv (m n K W it : Z) (v : grid) (fl : block) (pcs : Z -> pc)
  : Prop :=
  0 <= it <= K
  /\ (forall w, 0 <= w < W -> resting_pc K it w (pcs w))
  /\ (forall w, 0 <= w < W -> pcs w = Bar1 it -> fl w = 0)
  /\ grid_is m n (resting m n W it pcs) v.

(** Inside the column loop of trip [it]. *)
Definition sweeping_inv (m n K W it : Z) (v : grid) (fl : block) (pcs : Z -> pc)
  : Prop :=
  0 <= it < K
  /\ (forall w, 0 <= w < W -> column_pc m n W it w (pcs w))
  /\ (forall w, 0 <= w < W - 1 -> handoff_ok n (fl w) (pcs w) (pcs (w + 1)))
  /\ grid_is m n (sweeping m n W it pcs) v.

Definition team_invariant (m n K W : Z) (t : team) : Prop :=
  exists it,
    resting_inv m n K W it (t_vector t) (t_flag t) (t_pc t)
    \/ sweeping_inv m n K W it (t_vector t) (t_flag t) (t_pc t).


(** *** Progress of the protocol *)

(** A measure that every step of a worker increases: its place in the
    program text, a trip of the iteration loop counting for [trip_cost]
    and a trip of the column loop for [column_cost]. *)
Definition column_cost (m : Z) : Z := m + 8.

Definition trip_cost (m n : Z) : Z := (n + 1) * column_cost m + 10.

Definition progress (m n K : Z) (p : pc) : Z :=
  match p with
  | Init => 0
  | Reset it => 1 + it * trip_cost m n
  | Bar1 it => 2 + it * trip_cost m n
  | Top it j => 3 + it * trip_cost m n + (j - 1) * column_cost m
  | WaitL it j => 4 + it * trip_cost m n + (j - 1) * column_cost m
  | ClearL it j => 5 + it * trip_cost m n + (j - 1) * column_cost m
  | Comp it j i => 6 + it * trip_cost m n + (j - 1) * column_cost m + i
  | WaitR it j => 7 + it * trip_cost m n + (j - 1) * column_cost m + m
  | SetR it j => 8 + it * trip_cost m n + (j - 1) * column_cost m + m
  | Bar2 it => 3 + it * trip_cost m n + n * column_cost m
  | Feed it => 4 + it * trip_cost m n + n * column_cost m
  | Done => 2 + K * trip_cost m n
  end.

(** The sum of [f 0], ..., [f (k-1)]. *)
Fixpoint sum_over (f : Z -> Z) (k : nat) : Z :=
  match k with
  | O => 0
  | S k' => sum_over f k' + f (Z.of_nat k')
  end.

Definition team_progress (m n K W : Z) (t : team) : Z :=
  sum_over (fun w => progress m n K (t_pc t w)) (Z.to_nat W).

(** Runs of the protocol: zero or more steps. *)
Inductive runs_to (m n iterations nthread : Z) (slices : block)
  : team -> team -> Prop :=
| runs_here t : runs_to m n iterations nthread slices t t
| runs_on t t' t'' :
    step m n iterations nthread slices t t' ->
    runs_to m n iterations nthread slices t' t'' ->
    runs_to m n iterations nthread slices t t''.


(** *** What a worker's next action touches

    The cells of [vector] and the flags that the next action of worker
    [w], at point [p], stores to or loads from: lines 195-198 for [Init],
    203 for [Reset], 220 for [ClearL], 225 for [Comp], 233 for [SetR] and
    254 for [Feed]. *)

Definition grid_stores_next (m n nthread : Z) (slices : block) (w : Z) (p : pc)
  (k : Z) : Prop :=
  match p with
  | Init =>
    (exists i j, start_ slices w <= i <= end_ nthread slices w /\ 0 <= j < n
                 /\ k = ARRAY m i j)
    \/ (w = 0 /\ exists j, 0 <= j < n /\ k = ARRAY m (start_ slices w) j)
  | Comp _ j i => i <= end_ nthread slices w /\ k = ARRAY m i j
  | Feed _ => k = ARRAY m 0 0
  | _ => False
  end.

Definition grid_loads_next (m n nthread : Z) (slices : block) (w : Z) (p : pc)
  (k : Z) : Prop :=
  match p with
  | Comp _ j i =>
    i <= end_ nthread slices w
    /\ (k = ARRAY m (CInt.sub i 1) j \/ k = ARRAY m i (CInt.sub j 1)
        \/ k = ARRAY m (CInt.sub i 1) (CInt.sub j 1))
  | Feed _ => k = ARRAY m (CInt.sub m 1) (CInt.sub n 1)
  | _ => False
  end.

Definition flag_stores_next (iterations : Z) (w : Z) (p : pc) (k : Z) : Prop :=
  match p with
  | Reset iter => iter < iterations /\ k = w
  | ClearL _ _ => k = w - 1
  | SetR _ _ => k = w
  | _ => False
  end.

(** The trip of the iteration loop a worker is in the middle of: past the
    barrier of line 206 and not past the one of line 251. *)
Definition trip_of (p : pc) : option Z :=
  match p with
  | Top it _ | WaitL it _ | ClearL it _ | Comp it _ _ | WaitR it _ | SetR it _
  | Bar2 it => Some it
  | _ => None
  end.

(** Runs of the protocol with their number of steps. *)
Inductive runs_in (m n iterations nthread : Z) (slices : block)
  : nat -> team -> team -> Prop :=
| runs_in_0 t : runs_in m n iterations nthread slices O t t
| runs_in_S k t t' t'' :
    step m n iterations nthread slices t t' ->
    runs_in m n iterations nthread slices k t' t'' ->
    runs_in m n iterations nthread slices (S k) t t''.


(** *** Frames

    What a step leaves alone. *)

(** Cell [k] has the same content and the same number of stores in both
    grids. *)
Definition same_at (k : Z) (v v' : grid) : Prop :=
  load v' k = load v k /\ write_count v' k = write_count v k.

(** * Reduce: the vector reduction kernel

    The second source of the repository, an MPI program: every process
    holds two vectors in one allocation, adds the first to the second,
    and the second vectors of all processes are summed into the first
    vector of process [root = 0].  The processes run the same [main];
    the root reads the command line, keeps the time and prints.

    As in the grid of the pipeline kernel, the vectors hold [double]s
    that are integers throughout, and an element is modelled by the
    integer it holds: exact as long as [Num_procs*(Num_procs+1)] stays
    below 2^53. *)

Module Reduce.

(** What the program prints, one constructor per [printf] format. *)
Inductive line (D : Type) : Type :=
| Usage (progname : string)
| IterationsNotPositive (iterations : Z)
| LengthNotPositive (vector_length : Z)
| Banner
| NumberOfProcesses (Num_procs : Z)
| VectorLength (vector_length : Z)
| NumberOfIterations (iterations : Z)
| AllocationFailed (my_ID : Z)
| ErrorAt (i value reference : Z)
| FirstErrorAt (i value reference : Z)
| SolutionValidates
| ElementValue (element_value : Z)
| RateLine (rate avgtime mintime maxtime : D).

Arguments Usage {D}.
Arguments IterationsNotPositive {D}.
Arguments LengthNotPositive {D}.
Arguments Banner {D}.
Arguments NumberOfProcesses {D}.
Arguments VectorLength {D}.
Arguments NumberOfIterations {D}.
Arguments AllocationFailed {D}.
Arguments ErrorAt {D}.
Arguments FirstErrorAt {D}.
Arguments SolutionValidates {D}.
Arguments ElementValue {D}.
Arguments RateLine {D}.

(** How the program ends: the exit status and the lines printed. *)
Record outcome (D : Type) : Type := Exited {
  status : Z;
  out : list (line D)
}.

Arguments Exited {D}.
Arguments status {D}.
Arguments out {D}.

(** What the run gets from outside: the number of processes, the result
    of [malloc] in each process (the content of the fresh allocation, or
    [None] for a null pointer), and the readings of the root's clock,
    call by call. *)
Record env (D : Type) : Type := Env {
  Num_procs : Z;
  malloc_result : Z -> option block;
  wtime : nat -> D
}.

Arguments Env {D}.
Arguments Num_procs {D}.
Arguments malloc_result {D}.
Arguments wtime {D}.

(** The state the iteration loop carries: every process's allocation, and
    the root's timing parameters and clock readings. *)
Record run_state (D : Type) : Type := RunState {
  vectors : Z -> block;
  timing : stats D;
  wtime_calls : nat
}.

Arguments RunState {D}.
Arguments vectors {D}.
Arguments timing {D}.
Arguments wtime_calls {D}.

(** Modelled from the spec: the macro [ABS] of par-res-kern_general.h,
    which is not among the sources, read like the [MAX] and [MIN] of the
    same header ("final value outside tolerance"): the absolute value. *)
Definition ABS (x : Z) : Z := if x >=? 0 then x else - x.

(** [d >= 1.e-8] for an integer-valued [double]. *)
Definition ge_epsilon (d : Z) : bool := 1 <=? d.

(** lines 142-145 *)
Definition initialize (my_ID vector_length : Z) (vector : block) : block :=
  for_lt 0 vector_length
    (fun i v => upd (upd v i (CInt.add my_ID 1))
                    (CInt.add vector_length i) (CInt.add my_ID 1))
    vector.

(** lines 151-153, the "local" part *)
Definition local_part (vector_length : Z) (vector : block) : block :=
  for_lt 0 vector_length
    (fun i v => upd v (CInt.add vector_length i)
                    (v (CInt.add vector_length i) + v i))
    vector.

(** lines 156-157: [MPI_Reduce] with [MPI_SUM], as the MPI standard has
    it.  The elements [vector_length .. 2*vector_length-1] of all the
    processes are added up, element by element, into the elements
    [0 .. vector_length-1] of process [root]; nothing else changes. *)
Definition MPI_Reduce (Num_procs root vector_length : Z) (vectors : Z -> block)
  : Z -> block :=
  fun rank =>
    if rank =? root
    then fun i =>
           if (0 <=? i) && (i <? vector_length)
           then sum_over (fun r => vectors r (vector_length + i))
                         (Z.to_nat Num_procs)
           else vectors rank i
    else vectors rank.

(** What one trip of the iteration loop does to the vectors. *)
Definition reduction (Num_procs vector_length : Z) (vectors : Z -> block)
  : Z -> block :=
  MPI_Reduce Num_procs 0 vector_length
    (fun my_ID =>
       local_part vector_length
         (initialize my_ID vector_length (vectors my_ID))).

(** line 171: [Num_procs*(Num_procs+1.0)] *)
Definition element_value (Num_procs : Z) : Z := Num_procs * (Num_procs + 1).

(** lines 173-185: the elements of the root's result that fail the test. *)
Definition errors (vector_length reference : Z) (vector : block) : list Z :=
  filter (fun i => ge_epsilon (ABS (vector i - reference)))
         (map Z.of_nat (seq 0 (Z.to_nat vector_length))).

Section Program.

Context {D : Type} {ops : DoubleOps D}.
Variable VERBOSE : bool.

(** lines 77-79: the comment has one leap year; the product has
    [366*8760] hours. *)
Definition stats0 : stats D :=
  {| avgtime := d_of_int 0;
     maxtime := d_of_int 0;
     mintime := d_mul (d_mul (d_of_int 366) (d_of_int 8760)) (d_of_int 3600) |}.

(** lines 97-118: the root's tests on the command line. *)
Definition check_args (progname : string) (args : list Z) : line D + Z * Z :=
  match args with
  | [iterations; vector_length] =>
    if iterations <? 1 then inl (IterationsNotPositive iterations)
    else if vector_length <? 1 then inl (LengthNotPositive vector_length)
    else inr (iterations, vector_length)
  | _ => inl (Usage progname)
  end.

Section Run.

Variable e : env D.
Variables (iterations vector_length : Z).

(** lines 139-167, one trip: the clock is read a second time only when the
    sample is kept. *)
Definition iteration (iter : Z) (st : run_state D) : run_state D :=
  let t0 := wtime e (wtime_calls st) in
  let vs := reduction (Num_procs e) vector_length (vectors st) in
  if (iter >? 0) || (iterations =? 1)
  then
    let reduce_time := d_sub (wtime e (S (wtime_calls st))) t0 in
    {| vectors := vs;
       timing := {| avgtime := d_add (avgtime (timing st)) reduce_time;
                    mintime := dMIN (mintime (timing st)) reduce_time;
                    maxtime := dMAX (maxtime (timing st)) reduce_time |};
       wtime_calls := S (S (wtime_calls st)) |}
  else
    {| vectors := vs; timing := timing st; wtime_calls := S (wtime_calls st) |}.

Definition iteration_loop (malloc0 : Z -> block) : run_state D :=
  for_lt 0 iterations iteration
    {| vectors := malloc0; timing := stats0; wtime_calls := O |}.

(** lines 173-185: every failing element in verbose mode, the first one
    otherwise. *)
Definition verify (vector : block) : list (line D) :=
  let reference := element_value (Num_procs e) in
  let bad := errors vector_length reference vector in
  if VERBOSE
  then map (fun i => ErrorAt i (vector i) reference) bad
  else match bad with
       | [] => []
       | i :: _ => [FirstErrorAt i (vector i) reference]
       end.

(** lines 194-197 *)
Definition report (s : stats D) : list (line D) :=
  [SolutionValidates]
  ++ (if VERBOSE then [ElementValue (element_value (Num_procs e))] else [])
  ++ [RateLine
        (d_div
           (d_mul
              (d_mul d_micro
                 (d_sub (d_mul (d_of_int 2) (d_of_int (Num_procs e))) (d_of_int 1)))
              (d_of_int vector_length))
           (mintime s))
        (d_div (avgtime s) (d_of_int (MAX (CInt.sub iterations 1) 1)))
        (mintime s) (maxtime s)].

Definition header : list (line D) :=
  [Banner; NumberOfProcesses (Num_procs e); VectorLength vector_length;
   NumberOfIterations iterations].

(** The processes whose allocation fails, in the order of their ranks. *)
Definition failed_allocations : list Z :=
  filter (fun my_ID => match malloc_result e my_ID with
                       | None => true
                       | Some _ => false
                       end)
         (map Z.of_nat (seq 0 (Z.to_nat (Num_procs e)))).

(** The content of the allocations once they all succeeded. *)
Definition allocations (my_ID : Z) : block :=
  match malloc_result e my_ID with
  | Some a => a
  | None => fun _ => 0
  end.

(** lines 122-203 *)
Definition run_and_report : outcome D :=
  match failed_allocations with
  | _ :: _ => Exited EXIT_FAILURE (header ++ map AllocationFailed failed_allocations)
  | [] =>
    let st := iteration_loop allocations in
    let diagnostics := verify (vectors st 0) in
    let error := match diagnostics with [] => 0 | _ :: _ => 1 end in
    if bail_out error
    then Exited EXIT_FAILURE (header ++ diagnostics)
    else Exited EXIT_SUCCESS (header ++ report (timing st))
  end.

End Run.

Definition main (progname : string) (args : list Z) (e : env D) : outcome D :=
  match check_args progname args with
  | inl diagnostic => Exited EXIT_FAILURE [diagnostic]
  | inr (iterations, vector_length) => run_and_report e iterations vector_length
  end.

End Program.

End Reduce.


(** * Proofs *)

(** ** C integers, blocks, loops *)

Lemma wrap_id (z : Z) : CInt.in_range z -> CInt.wrap z = z.
Proof.
  unfold CInt.in_range, CInt.INT_MIN, CInt.INT_MAX, CInt.wrap. intros H.
  rewrite Z.mod_small by lia. lia.
Qed.

Lemma wrap_in_range (z : Z) : CInt.in_range (CInt.wrap z).
Proof.
  unfold CInt.in_range, CInt.INT_MIN, CInt.INT_MAX, CInt.wrap.
  pose proof (Z.mod_pos_bound (z + 2147483648) 4294967296 ltac:(lia)). lia.
Qed.

Lemma wrap_congruent (z : Z) : exists k, CInt.wrap z = z - k * 4294967296.
Proof.
  exists ((z + 2147483648) / 4294967296). unfold CInt.wrap.
  pose proof (Z.div_mod (z + 2147483648) 4294967296 ltac:(lia)). lia.
Qed.

Lemma in_rangeb_spec (z : Z) : CInt.in_rangeb z = true <-> CInt.in_range z.
Proof.
  unfold CInt.in_rangeb, CInt.in_range.
  rewrite andb_true_iff, !Z.leb_le. tauto.
Qed.

Lemma MAX_spec (x y : Z) : MAX x y = Z.max x y.
Proof. unfold MAX. destruct (Z.gtb_spec x y); lia. Qed.

Lemma upd_same (a : block) (k x : Z) : upd a k x k = x.
Proof. unfold upd. now rewrite Z.eqb_refl. Qed.

Lemma upd_other (a : block) (k x k' : Z) : k' <> k -> upd a k x k' = a k'.
Proof. unfold upd. intros H. apply Z.eqb_neq in H. now rewrite H. Qed.

(** Unrolling a loop from its end. *)
Lemma for_range_snoc {S : Type} (body : Z -> S -> S) (cnt : nat) :
  forall (lo : Z) (s : S),
    for_range body lo (Datatypes.S cnt) s
    = body (lo + Z.of_nat cnt) (for_range body lo cnt s).
Proof.
  induction cnt as [|c IH]; intros lo s.
  - simpl. now rewrite Z.add_0_r.
  - change (for_range body lo (Datatypes.S (Datatypes.S c)) s)
      with (for_range body (lo + 1) (Datatypes.S c) (body lo s)).
    rewrite IH. simpl for_range. f_equal. lia.
Qed.

Lemma for_range_app {S : Type} (body : Z -> S -> S) (a b : nat) :
  forall (lo : Z) (s : S),
    for_range body lo (a + b) s
    = for_range body (lo + Z.of_nat a) b (for_range body lo a s).
Proof.
  induction a as [|a IH]; intros lo s.
  - simpl. now rewrite Z.add_0_r.
  - simpl for_range. rewrite IH. f_equal. lia.
Qed.

(** The invariant rule for counted loops. *)
Lemma for_range_inv {S : Type} (P : Z -> S -> Prop) (body : Z -> S -> S) (cnt : nat) :
  forall (lo : Z) (s : S),
    P lo s ->
    (forall i t, lo <= i < lo + Z.of_nat cnt -> P i t -> P (i + 1) (body i t)) ->
    P (lo + Z.of_nat cnt) (for_range body lo cnt s).
Proof.
  induction cnt as [|c IH]; intros lo s H0 Hstep.
  - simpl. now rewrite Z.add_0_r.
  - simpl for_range.
    replace (lo + Z.of_nat (Datatypes.S c)) with (lo + 1 + Z.of_nat c) by lia.
    apply IH.
    + apply Hstep; [lia | exact H0].
    + intros i t Hi. apply Hstep. lia.
Qed.

Lemma for_lt_inv {S : Type} (P : Z -> S -> Prop) (lo hi : Z) (body : Z -> S -> S) (s : S) :
  lo <= hi ->
  P lo s ->
  (forall i t, lo <= i < hi -> P i t -> P (i + 1) (body i t)) ->
  P hi (for_lt lo hi body s).
Proof.
  intros Hle H0 Hstep. unfold for_lt.
  replace hi with (lo + Z.of_nat (Z.to_nat (hi - lo))) at 1 by lia.
  apply for_range_inv; [exact H0|].
  intros i t Hi. apply Hstep. lia.
Qed.

Lemma for_le_inv {S : Type} (P : Z -> S -> Prop) (lo hi : Z) (body : Z -> S -> S) (s : S) :
  lo <= hi + 1 ->
  P lo s ->
  (forall i t, lo <= i <= hi -> P i t -> P (i + 1) (body i t)) ->
  P (hi + 1) (for_le lo hi body s).
Proof.
  intros Hle H0 Hstep. unfold for_le.
  replace (hi + 1) with (lo + Z.of_nat (Z.to_nat (hi + 1 - lo))) at 1 by lia.
  apply for_range_inv; [exact H0|].
  intros i t Hi. apply Hstep. lia.
Qed.

Lemma for_lt_empty {S : Type} (lo hi : Z) (body : Z -> S -> S) (s : S) :
  hi <= lo -> for_lt lo hi body s = s.
Proof.
  intros H. unfold for_lt. replace (Z.to_nat (hi - lo)) with O by lia. reflexivity.
Qed.

Lemma for_le_empty {S : Type} (lo hi : Z) (body : Z -> S -> S) (s : S) :
  hi < lo -> for_le lo hi body s = s.
Proof.
  intros H. unfold for_le. replace (Z.to_nat (hi + 1 - lo)) with O by lia. reflexivity.
Qed.

Lemma for_lt_split {S : Type} (lo mid hi : Z) (body : Z -> S -> S) (s : S) :
  lo <= mid <= hi ->
  for_lt lo hi body s = for_lt mid hi body (for_lt lo mid body s).
Proof.
  intros H. unfold for_lt.
  replace (Z.to_nat (hi - lo)) with (Z.to_nat (mid - lo) + Z.to_nat (hi - mid))%nat by lia.
  rewrite for_range_app. f_equal. lia.
Qed.

Lemma for_le_as_lt {S : Type} (lo hi : Z) (body : Z -> S -> S) (s : S) :
  for_le lo hi body s = for_lt lo (hi + 1) body s.
Proof. reflexivity. Qed.

Lemma for_range_ext {S : Type} (f g : Z -> S -> S) (cnt : nat) :
  forall (lo : Z) (s : S),
    (forall i t, lo <= i < lo + Z.of_nat cnt -> f i t = g i t) ->
    for_range f lo cnt s = for_range g lo cnt s.
Proof.
  induction cnt as [|c IH]; intros lo s H; simpl; [reflexivity|].
  rewrite (H lo s) by lia. apply IH. intros i t Hi. apply H. lia.
Qed.

Lemma for_lt_ext {S : Type} (lo hi : Z) (f g : Z -> S -> S) (s : S) :
  (forall i t, lo <= i < hi -> f i t = g i t) ->
  for_lt lo hi f s = for_lt lo hi g s.
Proof.
  intros H. unfold for_lt. apply for_range_ext. intros i t Hi. apply H. lia.
Qed.

(** ** The partitioner *)

Section PartitionProof.

Variables (m W : Z).
Hypothesis HW : 1 <= W <= m.
Hypothesis Hm : m <= CInt.INT_MAX.

Let q := m / W.
Let r := m mod W.

Lemma q_r_facts : m = W * q + r /\ 0 <= r < W /\ 1 <= q.
Proof.
  subst q r.
  pose proof (Z.div_mod m W ltac:(lia)).
  pose proof (Z.mod_pos_bound m W ltac:(lia)).
  assert (1 <= m / W) by (apply Z.div_le_lower_bound; lia).
  repeat split; lia.
Qed.

Lemma slice_lo_0 : slice_lo m W 0 = 0.
Proof. unfold slice_lo. fold q r. pose proof q_r_facts. lia. Qed.

Lemma slice_lo_W : slice_lo m W W = m.
Proof. unfold slice_lo. fold q r. pose proof q_r_facts. lia. Qed.

Lemma slice_lo_succ (w : Z) :
  0 <= w -> slice_lo m W (w + 1) = slice_lo m W w + q + (if w <? r then 1 else 0).
Proof.
  intros Hw. unfold slice_lo. fold q r. pose proof q_r_facts.
  destruct (Z.ltb_spec w r); lia.
Qed.

Lemma slice_lo_bounds (w : Z) : 0 <= w <= W -> 0 <= slice_lo m W w <= m.
Proof.
  clear Hm. intros Hw. unfold slice_lo. fold q r. pose proof q_r_facts. nia.
Qed.

Lemma slice_lo_mono (w w' : Z) :
  0 <= w -> w < w' -> slice_lo m W w + 1 <= slice_lo m W w'.
Proof.
  intros Hw Hlt. unfold slice_lo. fold q r. pose proof q_r_facts. nia.
Qed.

Lemma segment_size_eq (ID : Z) :
  0 <= ID ->
  (if ID <? CInt.rem m W then CInt.add (CInt.div m W) 1 else CInt.div m W)
  = q + (if ID <? r then 1 else 0).
Proof.
  intros HID. pose proof q_r_facts as [Hmq [Hr Hq]].
  unfold CInt.rem, CInt.div, CInt.add.
  rewrite Z.rem_mod_nonneg, Z.quot_div_nonneg by lia. fold q r.
  assert (q <= m) by (subst q; apply Z.div_le_upper_bound; nia).
  unfold CInt.INT_MAX in Hm.
  rewrite (wrap_id q) by (unfold CInt.in_range, CInt.INT_MIN, CInt.INT_MAX; lia).
  destruct (Z.ltb_spec ID r).
  - rewrite wrap_id; [lia|]. unfold CInt.in_range, CInt.INT_MIN, CInt.INT_MAX.
    assert (q + 1 <= m) by nia. lia.
  - lia.
Qed.

Lemma slice_step_inv (k : Z) (s : block) :
  0 <= k < W -> slices_upto m W k s -> slices_upto m W (k + 1) (slice_step m W k s).
Proof.
  intros Hk [H0 Hs]. unfold slice_step.
  rewrite segment_size_eq by lia.
  set (s1 := if k >? 0 then upd s k (CInt.add (end_ W s (k - 1)) 1) else s).
  assert (Hs1k : start_ s1 k = slice_lo m W k).
  { subst s1. unfold start_. destruct (Z.gtb_spec k 0).
    - rewrite upd_same. destruct (Hs (k - 1) ltac:(lia)) as [_ He].
      rewrite He. replace (k - 1 + 1) with k by lia. unfold CInt.add.
      pose proof (slice_lo_bounds k ltac:(lia)). unfold CInt.INT_MAX in Hm.
      rewrite wrap_id; [lia|]. unfold CInt.in_range, CInt.INT_MIN, CInt.INT_MAX. lia.
    - assert (k = 0) by lia. subst k. rewrite slice_lo_0. exact H0. }
  assert (Hs1 : forall x, x <> k -> s1 x = s x).
  { intros x Hx. subst s1. destruct (k >? 0); [apply upd_other; exact Hx | reflexivity]. }
  assert (Hnew : CInt.sub (CInt.add (start_ s1 k) (q + (if k <? r then 1 else 0))) 1
                 = slice_lo m W (k + 1) - 1).
  { rewrite Hs1k. rewrite slice_lo_succ by lia.
    pose proof (slice_lo_bounds (k + 1) ltac:(lia)) as Hb.
    rewrite slice_lo_succ in Hb by lia.
    pose proof (slice_lo_bounds k ltac:(lia)).
    pose proof q_r_facts. unfold CInt.INT_MAX in Hm.
    unfold CInt.sub, CInt.add.
    rewrite (wrap_id (slice_lo m W k + _))
      by (unfold CInt.in_range, CInt.INT_MIN, CInt.INT_MAX; lia).
    rewrite wrap_id by (unfold CInt.in_range, CInt.INT_MIN, CInt.INT_MAX; lia).
    lia. }
  rewrite Hnew. split.
  - rewrite upd_other by lia.
    destruct (Z.eq_dec k 0) as [->|Hk0].
    + unfold start_ in Hs1k. rewrite Hs1k. apply slice_lo_0.
    + rewrite Hs1 by lia. exact H0.
  - intros w Hw. unfold start_, end_.
    destruct (Z.eq_dec w k) as [->|Hwk].
    + rewrite upd_same. rewrite upd_other by lia. split; [exact Hs1k | reflexivity].
    + rewrite !upd_other by lia. rewrite !Hs1 by lia. apply Hs. lia.
Qed.

Lemma partition_closed_form (malloc0 : block) :
  slices_upto m W W (partition m W malloc0).
Proof.
  unfold partition.
  apply (for_lt_inv (slices_upto m W)); [lia | |].
  - split; [apply upd_same | intros w Hw; lia].
  - intros i t Hi. apply slice_step_inv. exact Hi.
Qed.

End PartitionProof.

(** A row between the first and the last boundary lies between two
    consecutive ones. *)
Lemma boundary_search (f : Z -> Z) (i : Z) (k : nat) :
  f 0 <= i < f (Z.of_nat k) ->
  exists w, 0 <= w < Z.of_nat k /\ f w <= i < f (w + 1).
Proof.
  induction k as [|k IH]; intros H.
  - simpl in H. lia.
  - destruct (Z_lt_le_dec i (f (Z.of_nat k))) as [Hlt|Hge].
    + destruct IH as [w [Hw Hf]]; [lia|]. exists w. split; [lia | exact Hf].
    + exists (Z.of_nat k). split; [lia|].
      replace (Z.of_nat k + 1) with (Z.of_nat (Datatypes.S k)) by lia. lia.
Qed.

Lemma partition_start (m W : Z) (malloc0 : block) (w : Z) :
  1 <= W <= m -> m <= CInt.INT_MAX -> 0 <= w < W ->
  start_ (partition m W malloc0) w = slice_lo m W w.
Proof.
  intros HW Hm Hw.
  destruct (partition_closed_form m W HW Hm malloc0) as [_ H]. now apply H.
Qed.

Lemma partition_end (m W : Z) (malloc0 : block) (w : Z) :
  1 <= W <= m -> m <= CInt.INT_MAX -> 0 <= w < W ->
  end_ W (partition m W malloc0) w = slice_lo m W (w + 1) - 1.
Proof.
  intros HW Hm Hw.
  destruct (partition_closed_form m W HW Hm malloc0) as [_ H]. now apply H.
Qed.

(** C2. For [1 <= W <= m] the partitioner leaves [W] ranges
    [start w .. end w] of rows of [0 .. m-1]: the first starts at 0, the
    last ends at [m-1], each is non-empty and starts right after its
    predecessor ends (contiguous), two different ranges do not meet
    (disjoint), every row lies in exactly one range (exact cover), two
    sizes differ by at most 1, the size of range [w] is [m/W] plus one when
    [w < m mod W], and sizes never grow with the worker's index.  This
    holds whatever the fresh table held. *)
Theorem partition_contiguous_disjoint_cover_balanced
  (m W : Z) (malloc0 : block) :
  1 <= W <= m -> m <= CInt.INT_MAX ->
  let slices := partition m W malloc0 in
  let size := slice_size W slices in
  start_ slices 0 = 0
  /\ end_ W slices (W - 1) = m - 1
  /\ (forall w, 0 <= w < W ->
        0 <= start_ slices w <= end_ W slices w /\ end_ W slices w <= m - 1)
  /\ (forall w, 0 <= w < W - 1 -> start_ slices (w + 1) = end_ W slices w + 1)
  /\ (forall w w', 0 <= w < w' -> w' < W -> end_ W slices w < start_ slices w')
  /\ (forall i, 0 <= i <= m - 1 ->
        exists w, 0 <= w < W /\ in_slice W slices w i
                  /\ forall w', 0 <= w' < W -> in_slice W slices w' i -> w' = w)
  /\ (forall w w', 0 <= w < W -> 0 <= w' < W -> -1 <= size w - size w' <= 1)
  /\ (forall w, 0 <= w < W ->
        size w = m / W + (if w <? m mod W then 1 else 0))
  /\ (forall w w', 0 <= w <= w' -> w' < W -> size w' <= size w).
Proof.
  intros HW Hm slices size.
  assert (Hs : forall w, 0 <= w < W -> start_ slices w = slice_lo m W w)
    by (intros; now apply partition_start).
  assert (He : forall w, 0 <= w < W -> end_ W slices w = slice_lo m W (w + 1) - 1)
    by (intros; now apply partition_end).
  assert (Hsize : forall w, 0 <= w < W ->
            size w = m / W + (if w <? m mod W then 1 else 0)).
  { intros w Hw. unfold size, slice_size. rewrite Hs, He by lia.
    rewrite (slice_lo_succ m W HW) by lia. lia. }
  pose proof (q_r_facts m W HW) as [Hmq [Hr Hq]].
  repeat apply conj.
  - rewrite Hs by lia. now apply slice_lo_0.
  - rewrite He by lia. replace (W - 1 + 1) with W by lia.
    rewrite (slice_lo_W m W HW). reflexivity.
  - intros w Hw. rewrite Hs, He by lia.
    pose proof (slice_lo_bounds m W HW w ltac:(lia)).
    pose proof (slice_lo_bounds m W HW (w + 1) ltac:(lia)).
    pose proof (slice_lo_mono m W HW w (w + 1) ltac:(lia) ltac:(lia)). lia.
  - intros w Hw. rewrite Hs, He by lia. lia.
  - intros w w' Hw Hw'. rewrite Hs, He by lia.
    destruct (Z.eq_dec (w + 1) w') as [<-|Hne]; [lia|].
    pose proof (slice_lo_mono m W HW (w + 1) w' ltac:(lia) ltac:(lia)). lia.
  - intros i Hi.
    destruct (boundary_search (slice_lo m W) i (Z.to_nat W)) as [w [Hw Hin]].
    { rewrite Z2Nat.id by lia. rewrite (slice_lo_0 m W HW), (slice_lo_W m W HW). lia. }
    rewrite Z2Nat.id in Hw by lia.
    exists w. split; [exact Hw|]. split.
    + unfold in_slice. rewrite Hs, He by lia. lia.
    + intros w' Hw' Hin'. unfold in_slice in Hin'. rewrite Hs, He in Hin' by lia.
      destruct (Z.lt_trichotomy w' w) as [Hlt|[Heq|Hgt]]; [|exact Heq|].
      * destruct (Z.eq_dec (w' + 1) w) as [E|E].
        -- subst w. lia.
        -- pose proof (slice_lo_mono m W HW (w' + 1) w ltac:(lia) ltac:(lia)). lia.
      * destruct (Z.eq_dec (w + 1) w') as [E|E].
        -- subst w'. lia.
        -- pose proof (slice_lo_mono m W HW (w + 1) w' ltac:(lia) ltac:(lia)). lia.
  - intros w w' Hw Hw'. rewrite !Hsize by lia.
    destruct (w <? m mod W), (w' <? m mod W); lia.
  - exact Hsize.
  - intros w w' Hw Hw'. rewrite !Hsize by lia.
    destruct (Z.ltb_spec w (m mod W)), (Z.ltb_spec w' (m mod W)); lia.
Qed.

(** The theorem at [m = 10], [W = 4]: rows 0-2, 3-5, 6-7, 8-9. *)
Lemma partition_contiguous_disjoint_cover_balanced_witness :
  (1 <= 4 <= 10 /\ 10 <= CInt.INT_MAX)
  /\ start_ (partition 10 4 (fun _ => 99)) 0 = 0
  /\ end_ 4 (partition 10 4 (fun _ => 99)) (4 - 1) = 10 - 1.
Proof.
  assert (H1 : 1 <= 4 <= 10) by lia.
  assert (H2 : 10 <= CInt.INT_MAX) by (unfold CInt.INT_MAX; lia).
  split; [exact (conj H1 H2)|].
  pose proof (partition_contiguous_disjoint_cover_balanced 10 4 (fun _ => 99) H1 H2)
    as [Ha [Hb _]].
  exact (conj Ha Hb).
Defined.

(** ** The tests on the command line *)

Lemma in_range_unfold (z : Z) :
  CInt.in_range z <-> -2147483648 <= z <= 2147483647.
Proof. reflexivity. Qed.

Lemma checked_in_range (z : Z) : CInt.in_range z -> CInt.checked z = Some z.
Proof.
  intros H. unfold CInt.checked. apply in_rangeb_spec in H. now rewrite H.
Qed.

Lemma checked_out_of_range (z : Z) : ~ CInt.in_range z -> CInt.checked z = None.
Proof.
  intros H. unfold CInt.checked.
  destruct (CInt.in_rangeb z) eqn:E; [|reflexivity].
  apply in_rangeb_spec in E. contradiction.
Qed.

Lemma checked_some (z x : Z) : CInt.checked z = Some x -> x = z /\ CInt.in_range z.
Proof.
  unfold CInt.checked. destruct (CInt.in_rangeb z) eqn:E; [|discriminate].
  intros H. injection H as <-. apply in_rangeb_spec in E. now split.
Qed.

(** Without overflow the quotient [total_length/n] is [m]: once line 140
    is defined, its first test decides nothing. *)
Lemma quotient_test (m n : Z) :
  1 <= m -> 1 <= n -> CInt.in_range (m * n) -> CInt.div (m * n) n = m.
Proof.
  intros Hm Hn Hr. unfold CInt.div. rewrite Z.quot_mul by lia.
  apply wrap_id. rewrite in_range_unfold in *. nia.
Qed.

Section ArgsProof.

Context {D : Type} {ops : DoubleOps D}.
Variables (MAX_THREADS MEMWORDS : Z).

Lemma check_args_inr (progname : string) (args : list Z) (c : config) :
  check_args (D := D) MAX_THREADS MEMWORDS progname args = Some (inr c) ->
  args = [c_nthread_input c; c_iterations c; c_m c; c_n c]
  /\ accepted MAX_THREADS MEMWORDS c.
Proof.
  unfold check_args, accepted.
  destruct args as [|W [|K [|m [|n [|x args]]]]]; try discriminate.
  destruct (Z.ltb_spec W 1); [discriminate|].
  destruct (Z.gtb_spec W MAX_THREADS); [discriminate|]. simpl orb.
  destruct (Z.ltb_spec K 1); [discriminate|].
  destruct (Z.ltb_spec m 1); [discriminate|].
  destruct (Z.ltb_spec n 1); [discriminate|]. simpl orb.
  destruct (CInt.checked (m * n)) as [t|] eqn:Et; [|discriminate].
  apply checked_some in Et. destruct Et as [-> Hr].
  destruct (Z.eqb_spec (CInt.div (m * n) n) m); [|discriminate].
  destruct (Z.gtb_spec (m * n) MEMWORDS); [discriminate|]. simpl orb.
  destruct (Z.ltb_spec m W); [discriminate|].
  intros E. injection E as <-. cbn [c_nthread_input c_iterations c_m c_n].
  split; [reflexivity|]. repeat (split; [lia|]). split; [exact Hr | lia].
Qed.

Lemma check_args_accepts (progname : string) (c : config) :
  accepted MAX_THREADS MEMWORDS c ->
  check_args (D := D) MAX_THREADS MEMWORDS progname
    [c_nthread_input c; c_iterations c; c_m c; c_n c] = Some (inr c).
Proof.
  unfold check_args, accepted. destruct c as [W K m n]. simpl.
  intros (HW & HK & Hm & Hn & Hr & Hmem).
  destruct (Z.ltb_spec W 1); [lia|].
  destruct (Z.gtb_spec W MAX_THREADS); [lia|]. simpl orb.
  destruct (Z.ltb_spec K 1); [lia|].
  destruct (Z.ltb_spec m 1); [lia|].
  destruct (Z.ltb_spec n 1); [lia|]. simpl orb.
  rewrite (checked_in_range _ Hr).
  rewrite quotient_test by (assumption || lia). rewrite Z.eqb_refl.
  destruct (Z.gtb_spec (m * n) MEMWORDS); [lia|]. simpl orb.
  destruct (Z.ltb_spec m W); [lia|]. reflexivity.
Qed.

(** A rejection is one of the diagnostics printed before the parallel
    region, never a line of the region or of the report. *)
Lemma check_args_inl (progname : string) (args : list Z) (d : line D) :
  check_args MAX_THREADS MEMWORDS progname args = Some (inl d) ->
  is_region_line d = false /\ is_timing_line d = false.
Proof.
  unfold check_args.
  destruct args as [|W [|K [|m [|n [|x args]]]]];
    try (intros E; injection E as <-; split; reflexivity).
  destruct (CInt.checked (m * n)) as [t|];
    repeat match goal with
           | |- context [if ?b then _ else _] => destruct b
           end;
    intros E; try discriminate; injection E as <-; split; reflexivity.
Qed.

(** Where line 140 overflows: the tests before it passed, and [m*n] is
    outside the range of [int]. *)
Lemma check_args_none (progname : string) (W K m n : Z) :
  check_args (D := D) MAX_THREADS MEMWORDS progname [W; K; m; n] = None
  <-> 1 <= W <= MAX_THREADS /\ 1 <= K /\ 1 <= m /\ 1 <= n
      /\ ~ CInt.in_range (m * n).
Proof.
  unfold check_args.
  destruct (Z.ltb_spec W 1); [split; [discriminate | lia]|].
  destruct (Z.gtb_spec W MAX_THREADS); [split; [discriminate | lia]|]. simpl orb.
  destruct (Z.ltb_spec K 1); [split; [discriminate | lia]|].
  destruct (Z.ltb_spec m 1); [split; [discriminate | lia]|].
  destruct (Z.ltb_spec n 1); [split; [discriminate | lia]|]. simpl orb.
  destruct (CInt.checked (m * n)) as [t|] eqn:Et.
  - apply checked_some in Et. destruct Et as [_ Hr]. split.
    + destruct (negb _ || _); [discriminate|].
      destruct (m <? W); discriminate.
    + intros (_ & _ & _ & _ & Hout). contradiction.
  - split; [|reflexivity]. intros _. repeat split; try lia.
    intros Hr. rewrite (checked_in_range _ Hr) in Et. discriminate.
Qed.

End ArgsProof.

(** Where the tests on the size are defined.  When [m*n] fits an [int], a
    worker count above the row count, or a grid above [MEMWORDS], stops the
    program at the tests on the command line: it prints one diagnostic,
    which is neither a line of the parallel region nor a timing line,
    leaves the grid untouched, and ends with the nonzero status
    [EXIT_FAILURE]. *)
Theorem invalid_configuration_rejected_before_region
  {D : Type} {ops : DoubleOps D} (MAX_THREADS MEMWORDS : Z) (VERBOSE : bool)
  (progname : string) (W K m n : Z) (e : env D) :
  CInt.in_range (m * n) ->
  (W > m \/ m * n > MEMWORDS) ->
  exists d : line D,
    check_args MAX_THREADS MEMWORDS progname [W; K; m; n] = Some (inl d)
    /\ main MAX_THREADS MEMWORDS VERBOSE progname [W; K; m; n] e
       = Exited EXIT_FAILURE [d] vector0
    /\ EXIT_FAILURE <> 0
    /\ is_region_line d = false
    /\ is_timing_line d = false.
Proof.
  intros Hr Hbad. unfold main.
  destruct (check_args MAX_THREADS MEMWORDS progname [W; K; m; n])
    as [[d|c]|] eqn:E.
  - exists d. destruct (check_args_inl _ _ _ _ _ E) as [H1 H2].
    repeat split; try assumption. unfold EXIT_FAILURE. lia.
  - exfalso. apply check_args_inr in E. destruct E as [Eargs Hacc].
    injection Eargs as -> -> -> ->.
    destruct Hacc as (HW & HK & HWm & Hn1 & _ & Hmem). lia.
  - exfalso. apply check_args_none in E. tauto.
Qed.

(** The theorem on the command line [p2p 5 1 3 4]: five workers for three
    rows. *)
Lemma invalid_configuration_rejected_before_region_witness :
  (CInt.in_range (3 * 4) /\ (5 > 3 \/ 3 * 4 > 1000000))
  /\ exists d : line float,
       main 512 1000000 false "p2p" [5; 1; 3; 4]
            (Env None 5 (fun _ => PrimFloat.zero))
       = Exited EXIT_FAILURE [d] vector0.
Proof.
  assert (Hr : CInt.in_range (3 * 4)) by (rewrite in_range_unfold; lia).
  assert (Hbad : 5 > 3 \/ 3 * 4 > 1000000) by (left; lia).
  split; [exact (conj Hr Hbad)|].
  destruct (invalid_configuration_rejected_before_region
              512 1000000 false "p2p" 5 1 3 4
              (Env None 5 (fun _ => PrimFloat.zero)) Hr Hbad)
    as [d [_ [Hmain _]]].
  exists d. exact Hmain.
Defined.

(** C5. The command line [p2p 1 1 65536 65536] passes the tests on the
    thread count, the iteration count and the sign of the dimensions, and
    then computes [m*n = 2^32] in [int] at line 140.  That overflow is
    undefined in C: the tests of lines 141 and 147 that were to reject the
    grid decide nothing, and the program has no defined outcome, where the
    claim has a diagnostic and a nonzero exit before the parallel
    region. *)
Theorem grid_size_overflow_undefined :
  (1 <= 1 <= 512 /\ 1 <= 1 /\ CInt.in_range 65536)
  /\ ~ CInt.in_range (65536 * 65536)
  /\ CInt.checked (65536 * 65536) = None
  /\ check_args (D := float) 512 1000000 "p2p" [1; 1; 65536; 65536] = None
  /\ main 512 1000000 false "p2p" [1; 1; 65536; 65536] (example_env 1)
     = Undefined
  /\ (forall d, main 512 1000000 false "p2p" [1; 1; 65536; 65536] (example_env 1)
                <> Exited EXIT_FAILURE [d] vector0).
Proof.
  split; [rewrite in_range_unfold; lia|].
  split; [rewrite in_range_unfold; lia|].
  split; [reflexivity|]. split; [reflexivity|]. split; [reflexivity|].
  intros d H. discriminate H.
Qed.

(** ** The grid *)

Ltac destruct_tests :=
  repeat match goal with
         | |- context [Z.eqb ?a ?b] => destruct (Z.eqb_spec a b)
         | |- context [Z.ltb ?a ?b] => destruct (Z.ltb_spec a b)
         | |- context [Z.leb ?a ?b] => destruct (Z.leb_spec a b)
         end;
  simpl.

(** Settles the tests that the hypotheses decide, without a case split. *)
Ltac decide_test :=
  match goal with
  | |- context [Z.eqb ?a ?b] =>
    first [ replace (Z.eqb a b) with true by (symmetry; apply Z.eqb_eq; lia)
          | replace (Z.eqb a b) with false by (symmetry; apply Z.eqb_neq; lia) ]
  | |- context [Z.ltb ?a ?b] =>
    first [ replace (Z.ltb a b) with true by (symmetry; apply Z.ltb_lt; lia)
          | replace (Z.ltb a b) with false by (symmetry; apply Z.ltb_ge; lia) ]
  | |- context [Z.leb ?a ?b] =>
    first [ replace (Z.leb a b) with true by (symmetry; apply Z.leb_le; lia)
          | replace (Z.leb a b) with false by (symmetry; apply Z.leb_gt; lia) ]
  end.

Ltac settle_tests := repeat (decide_test; cbn [andb orb negb fst snd]).

Ltac without_test t :=
  lazymatch t with
  | context [if _ then _ else _] => fail
  | _ => idtac
  end.

(** Splits on a test between two terms that hold no test themselves. *)
Ltac split_test :=
  match goal with
  | |- context [Z.eqb ?a ?b] =>
    without_test a; without_test b; destruct (Z.eqb_spec a b)
  | |- context [Z.ltb ?a ?b] =>
    without_test a; without_test b; destruct (Z.ltb_spec a b)
  | |- context [Z.leb ?a ?b] =>
    without_test a; without_test b; destruct (Z.leb_spec a b)
  end.

(** Closes an equation between two cell descriptions given by tests. *)
Ltac same_cell :=
  settle_tests; cbn [andb orb negb fst snd];
  first [ solve [ reflexivity | lia | exfalso; lia | f_equal; lia
                | subst; reflexivity | subst; f_equal; lia ]
        | split_test; same_cell ].

Lemma ARRAY_index (m n i j : Z) :
  m * n <= CInt.INT_MAX -> 0 <= i < m -> 0 <= j < n ->
  ARRAY m i j = i + j * m.
Proof.
  intros Hmn Hi Hj. unfold ARRAY, CInt.add, CInt.mul, CInt.INT_MAX in *.
  assert (0 <= j * m) by nia.
  assert (i + j * m < m * n) by nia.
  rewrite (wrap_id (j * m)) by (rewrite in_range_unfold; lia).
  apply wrap_id. rewrite in_range_unfold. lia.
Qed.

Lemma sub_1 (i : Z) : 1 <= i <= CInt.INT_MAX -> CInt.sub i 1 = i - 1.
Proof.
  unfold CInt.sub, CInt.INT_MAX. intros H. apply wrap_id.
  rewrite in_range_unfold. lia.
Qed.

Lemma index_in_grid (m n i j : Z) :
  0 <= i < m -> 0 <= j < n -> 0 <= i + j * m < m * n.
Proof. intros Hi Hj. nia. Qed.

Lemma index_injective (m i j i' j' : Z) :
  0 <= i < m -> 0 <= i' < m -> i + j * m = i' + j' * m -> i = i' /\ j = j'.
Proof. intros Hi Hi' E. assert (j = j') by nia. subst. lia. Qed.

Lemma load_store (v : grid) (k x k' : Z) :
  load (store v k x) k' = if k' =? k then x else load v k'.
Proof. reflexivity. Qed.

Lemma write_count_store (v : grid) (k x k' : Z) :
  write_count (store v k x) k'
  = if k' =? k then S (write_count v k') else write_count v k'.
Proof.
  unfold write_count, store. simpl.
  destruct (Z.eq_dec k k') as [->|Hne].
  - now rewrite Z.eqb_refl.
  - destruct (Z.eqb_spec k' k); [congruence | reflexivity].
Qed.

Section GridProof.

#[local] Set Default Proof Using "All".

Variables (m n : Z).
Hypothesis Hm : 1 <= m.
Hypothesis Hn : 1 <= n.
Hypothesis Hmn : m * n <= CInt.INT_MAX.

Lemma grid_is_ext (d d' : description) (v : grid) :
  (forall i j, 0 <= i < m -> 0 <= j < n -> d i j = d' i j) ->
  grid_is m n d v -> grid_is m n d' v.
Proof.
  intros E [Hin Hout]. split; [|exact Hout].
  intros i j Hi Hj. rewrite <- (E i j Hi Hj). now apply Hin.
Qed.

Lemma grid_is_load (d : description) (v : grid) (i j : Z) :
  grid_is m n d v -> 0 <= i < m -> 0 <= j < n ->
  load v (ARRAY m i j) = fst (d i j).
Proof.
  intros [Hin _] Hi Hj. rewrite (ARRAY_index m n) by assumption. now apply Hin.
Qed.

Lemma grid_is_store (d : description) (v : grid) (i0 j0 x : Z) :
  0 <= i0 < m -> 0 <= j0 < n ->
  grid_is m n d v -> grid_is m n (put_cell d i0 j0 x) (store v (ARRAY m i0 j0) x).
Proof.
  intros Hi0 Hj0 [Hin Hout]. rewrite (ARRAY_index m n) by assumption.
  pose proof (index_in_grid m n i0 j0 Hi0 Hj0) as Hk0.
  split.
  - intros i j Hi Hj. rewrite load_store, write_count_store. unfold put_cell.
    destruct (Hin i j Hi Hj) as [Hl Hw].
    destruct (Z.eqb_spec (i + j * m) (i0 + j0 * m)) as [E|E].
    + apply index_injective in E; [|assumption|assumption]. destruct E as [-> ->].
      rewrite !Z.eqb_refl. simpl. now rewrite Hw.
    + destruct (Z.eqb_spec i i0) as [->|]; destruct (Z.eqb_spec j j0) as [->|];
        simpl; try (split; assumption). congruence.
  - intros k Hk. rewrite load_store, write_count_store.
    destruct (Z.eqb_spec k (i0 + j0 * m)); [lia|]. now apply Hout.
Qed.

(** Two grids of one description hold the same values everywhere. *)
Lemma grid_is_unique (d : description) (v v' : grid) :
  grid_is m n d v -> grid_is m n d v' -> forall k, load v k = load v' k.
Proof.
  intros [Hin Hout] [Hin' Hout'] k.
  destruct (Z_lt_le_dec k 0) as [Hneg|Hpos].
  { destruct (Hout k) as [-> _]; [lia|]. destruct (Hout' k) as [-> _]; [lia|].
    reflexivity. }
  destruct (Z_lt_le_dec k (m * n)) as [Hlt|Hge].
  - pose proof (Z.div_mod k m ltac:(lia)) as Hdm.
    pose proof (Z.mod_pos_bound k m ltac:(lia)) as Hmod.
    assert (Hj : 0 <= k / m < n).
    { split; [apply Z.div_pos; lia|]. apply Z.div_lt_upper_bound; lia. }
    replace k with (k mod m + k / m * m) by lia.
    destruct (Hin _ _ Hmod Hj) as [-> _]. destruct (Hin' _ _ Hmod Hj) as [-> _].
    reflexivity.
  - destruct (Hout k) as [-> _]; [lia|]. destruct (Hout' k) as [-> _]; [lia|].
    reflexivity.
Qed.

Lemma vector0_is : grid_is m n (fun _ _ => (0, O)) vector0.
Proof. split; intros; split; reflexivity. Qed.

(** Stores along a column. *)
Lemma fill_rows_spec (d : description) (v : grid) (j0 lo hi : Z) (f : Z -> Z) :
  0 <= j0 < n -> 0 <= lo -> hi < m -> lo <= hi + 1 ->
  grid_is m n d v ->
  grid_is m n (fill_rows d j0 lo hi f)
    (for_le lo hi (fun i v => store v (ARRAY m i j0) (f i)) v).
Proof.
  intros Hj0 Hlo Hhi Hle Hd.
  apply (grid_is_ext (fill_rows d j0 lo (hi + 1 - 1) f)).
  { intros i j _ _. unfold fill_rows. same_cell. }
  apply (for_le_inv (fun i v => grid_is m n (fill_rows d j0 lo (i - 1) f) v));
    [exact Hle | |].
  - apply (grid_is_ext d); [|exact Hd].
    intros i j _ _. unfold fill_rows. same_cell.
  - intros i t Hi Ht.
    apply (grid_is_ext (put_cell (fill_rows d j0 lo (i - 1) f) i j0 (f i))).
    + intros i' j' _ _. unfold put_cell, fill_rows. same_cell.
    + apply grid_is_store; [lia | lia | exact Ht].
Qed.

(** Stores along a row. *)
Lemma fill_columns_spec (d : description) (v : grid) (i0 : Z) (f : Z -> Z) :
  0 <= i0 < m ->
  grid_is m n d v ->
  grid_is m n (fill_columns d i0 n f)
    (for_lt 0 n (fun j v => store v (ARRAY m i0 j) (f j)) v).
Proof.
  intros Hi0 Hd.
  apply (for_lt_inv (fun j v => grid_is m n (fill_columns d i0 j f) v)); [lia | |].
  - apply (grid_is_ext d); [|exact Hd].
    intros i j _ Hj. unfold fill_columns. same_cell.
  - intros j t Hj Ht.
    apply (grid_is_ext (put_cell (fill_columns d i0 j f) i0 j (f j))).
    + intros i' j' _ _. unfold put_cell, fill_columns. same_cell.
    + apply grid_is_store; [lia | lia | exact Ht].
Qed.

End GridProof.

(** ** The workers on their slices *)

Section WorkerProof.

#[local] Set Default Proof Using "All".

Variables (m n W : Z).
Variable malloc0 : block.
Hypothesis Hn : 1 <= n.
Hypothesis HW : 1 <= W <= m.
Hypothesis Hmn : m * n <= CInt.INT_MAX.

Let slices := partition m W malloc0.

Lemma rows_fit : m <= CInt.INT_MAX.
Proof. unfold CInt.INT_MAX in *. nia. Qed.

Lemma rows_exist : 1 <= m.
Proof. lia. Qed.

Lemma slice_start (w : Z) : 0 <= w < W -> start_ slices w = slice_lo m W w.
Proof. intros Hw. apply partition_start; [exact HW | exact rows_fit | exact Hw]. Qed.

Lemma slice_end (w : Z) : 0 <= w < W -> end_ W slices w = slice_lo m W (w + 1) - 1.
Proof. intros Hw. apply partition_end; [exact HW | exact rows_fit | exact Hw]. Qed.

Lemma slice_rows (w : Z) :
  0 <= w < W ->
  0 <= slice_lo m W w /\ slice_lo m W w < slice_lo m W (w + 1)
  /\ slice_lo m W (w + 1) <= m /\ (w = 0 <-> slice_lo m W w = 0).
Proof.
  intros Hw.
  pose proof (slice_lo_bounds m W HW w ltac:(lia)).
  pose proof (slice_lo_bounds m W HW (w + 1) ltac:(lia)).
  pose proof (slice_lo_mono m W HW w (w + 1) ltac:(lia) ltac:(lia)).
  pose proof (slice_lo_0 m W HW).
  repeat split; try lia.
  - intros ->. assumption.
  - intros E. destruct (Z.eq_dec w 0) as [|Hne]; [assumption|].
    pose proof (slice_lo_mono m W HW 0 w ltac:(lia) ltac:(lia)). lia.
Qed.

Lemma clear_slice_spec (d : description) (v : grid) (w : Z) :
  0 <= w < W ->
  grid_is m n d v ->
  grid_is m n
    (fun i j =>
       if (slice_lo m W w <=? i) && (i <? slice_lo m W (w + 1))
       then (0, S (snd (d i j))) else d i j)
    (clear_slice m n W slices w v).
Proof.
  intros Hw Hd. unfold clear_slice. cbv zeta.
  rewrite slice_start, slice_end by exact Hw.
  destruct (slice_rows w Hw) as (Hlo & Hlt & Hhi & _).
  set (lo := slice_lo m W w) in *. set (hi := slice_lo m W (w + 1)) in *.
  apply (grid_is_ext m n rows_exist Hn Hmn
           (fun i j => if (j <? n) && (lo <=? i) && (i <? hi)
                       then (0, S (snd (d i j))) else d i j)).
  { intros i j _ Hj. same_cell. }
  apply (for_lt_inv
           (fun j v => grid_is m n
              (fun i j' => if (j' <? j) && (lo <=? i) && (i <? hi)
                           then (0, S (snd (d i j'))) else d i j') v)); [lia | |].
  - apply (grid_is_ext m n rows_exist Hn Hmn d); [|exact Hd]. intros i j _ Hj. same_cell.
  - intros j t Hj Ht.
    pose proof (fill_rows_spec m n rows_exist Hn Hmn _ t j lo (hi - 1) (fun _ => 0)
                  ltac:(lia) ltac:(lia) ltac:(lia) ltac:(lia) Ht) as Hfill.
    eapply (grid_is_ext m n rows_exist Hn Hmn); [|exact Hfill].
    intros i j' _ _. unfold fill_rows. same_cell.
Qed.

Lemma worker_init_spec (v : grid) (w : Z) :
  0 <= w < W ->
  grid_is m n (seeded_below (slice_lo m W w)) v ->
  grid_is m n (seeded_below (slice_lo m W (w + 1))) (worker_init m n W slices w v).
Proof.
  intros Hw Hd. unfold worker_init, seed_column, seed_row. cbv zeta.
  rewrite slice_start, slice_end by exact Hw.
  destruct (slice_rows w Hw) as (Hlo & Hlt & Hhi & Hw0).
  pose proof (clear_slice_spec _ v w Hw Hd) as H1.
  set (lo := slice_lo m W w) in *. set (hi := slice_lo m W (w + 1)) in *.
  set (v1 := clear_slice m n W slices w v) in *.
  destruct (Z.eqb_spec w 0) as [Ew|Ew].
  - assert (Elo : lo = 0) by (apply Hw0; exact Ew).
    pose proof (fill_columns_spec m n rows_exist Hn Hmn _ v1 lo (fun j => j)
                  ltac:(lia) H1) as H2.
    pose proof (fill_rows_spec m n rows_exist Hn Hmn _ _ 0 lo (hi - 1) (fun i => i)
                  ltac:(lia) ltac:(lia) ltac:(lia) ltac:(lia) H2) as H3.
    eapply (grid_is_ext m n rows_exist Hn Hmn); [|exact H3].
    intros i j Hi Hj. unfold fill_rows, fill_columns, seeded_below. same_cell.
  - assert (Elo : lo <> 0) by (intros E; apply Ew, Hw0; exact E).
    pose proof (fill_rows_spec m n rows_exist Hn Hmn _ _ 0 lo (hi - 1) (fun i => i)
                  ltac:(lia) ltac:(lia) ltac:(lia) ltac:(lia) H1) as H3.
    eapply (grid_is_ext m n rows_exist Hn Hmn); [|exact H3].
    intros i j Hi Hj. unfold fill_rows, seeded_below. same_cell.
Qed.

Lemma init_all_spec :
  grid_is m n (seeded_below m) (init_all m n W slices W vector0).
Proof.
  unfold init_all. rewrite <- (slice_lo_W m W HW) at 2.
  apply (for_lt_inv (fun w v => grid_is m n (seeded_below (slice_lo m W w)) v));
    [lia | |].
  - rewrite (slice_lo_0 m W HW).
    apply (grid_is_ext m n rows_exist Hn Hmn (fun _ _ => (0, O)));
      [|apply (vector0_is m n rows_exist Hn Hmn)].
    intros i j Hi Hj. unfold seeded_below. same_cell.
  - intros w t Hw Ht. apply worker_init_spec; assumption.
Qed.

End WorkerProof.

(** ** The sweep *)

Section SweepProof.

#[local] Set Default Proof Using "All".

Variables (m n W : Z).
Variable malloc0 : block.
Hypothesis Hn : 1 <= n.
Hypothesis HW : 1 <= W <= m.
Hypothesis Hmn : m * n <= CInt.INT_MAX.

Let slices := partition m W malloc0.
Let Hm : 1 <= m := Z.le_trans _ _ _ (proj1 HW) (proj2 HW).

(** Within a column the workers' row loops add up to one loop over the
    rows [1 .. m-1]. *)
Lemma compute_columns_flat (j : Z) (v : grid) :
  for_lt 0 W (fun my_ID v => compute_column m W slices my_ID j v) v
  = for_lt 1 m (fun i v => stencil m i j v) v.
Proof.
  set (body := fun i v => stencil m i j v).
  transitivity (for_lt 1 (Z.max 1 (slice_lo m W W)) body v);
    [| rewrite (slice_lo_W m W HW); f_equal; lia].
  apply (for_lt_inv
           (fun w t => t = for_lt 1 (Z.max 1 (slice_lo m W w)) body v)); [lia | |].
  - rewrite (slice_lo_0 m W HW). now rewrite for_lt_empty by lia.
  - intros w t Hw ->. unfold compute_column. cbv zeta.
    rewrite (slice_start m n W malloc0 Hn HW Hmn) by exact Hw.
    rewrite (slice_end m n W malloc0 Hn HW Hmn) by exact Hw.
    destruct (slice_rows m n W malloc0 Hn HW Hmn w Hw) as (Hlo & Hlt & Hhi & _).
    rewrite MAX_spec. fold body. rewrite for_le_as_lt.
    replace (slice_lo m W (w + 1) - 1 + 1) with (Z.max 1 (slice_lo m W (w + 1))) by lia.
    replace (Z.max (slice_lo m W w) 1) with (Z.max 1 (slice_lo m W w)) by lia.
    symmetry. apply for_lt_split. lia.
Qed.

Lemma sweep_flat (v : grid) :
  sweep m n W slices W v
  = for_lt 1 n (fun j v => for_lt 1 m (fun i v => stencil m i j v) v) v.
Proof.
  unfold sweep. apply for_lt_ext. intros j t _. apply compute_columns_flat.
Qed.

Section OneSweep.

Variable d : description.
Hypothesis Hcolumn0 : forall i, 1 <= i < m -> fst (d i 0) = i.
Hypothesis Hrow0 : forall j, 1 <= j < n -> fst (d 0 j) = j.

Lemma stencil_spec (i j : Z) (t : grid) :
  1 <= i < m -> 1 <= j < n ->
  grid_is m n (swept_upto d j i) t ->
  grid_is m n (swept_upto d j (i + 1)) (stencil m i j t).
Proof.
  intros Hi Hj Ht. unfold stencil.
  assert (n <= CInt.INT_MAX) by (unfold CInt.INT_MAX in *; nia).
  pose proof (rows_fit m n W malloc0 Hn HW Hmn).
  rewrite !sub_1 by lia.
  rewrite !(grid_is_load m n Hm Hn Hmn _ t _ _ Ht) by lia.
  assert (E1 : fst (swept_upto d j i (i - 1) j) = if i =? 1 then j else i - 1 + j - fst (d 0 0)).
  { unfold swept_upto. destruct_tests; try lia; try reflexivity.
    replace (i - 1) with 0 by lia. apply Hrow0. lia. }
  assert (E2 : fst (swept_upto d j i i (j - 1)) = if j =? 1 then i else i + (j - 1) - fst (d 0 0)).
  { unfold swept_upto. destruct_tests; try lia; try reflexivity.
    replace (j - 1) with 0 by lia. apply Hcolumn0. lia. }
  assert (E3 : fst (swept_upto d j i (i - 1) (j - 1))
               = if i =? 1 then (if j =? 1 then fst (d 0 0) else j - 1)
                 else (if j =? 1 then i - 1 else i - 1 + (j - 1) - fst (d 0 0))).
  { unfold swept_upto. destruct_tests; try lia; try reflexivity.
    - replace (i - 1) with 0 by lia. replace (j - 1) with 0 by lia. reflexivity.
    - replace (i - 1) with 0 by lia. apply Hrow0. lia.
    - replace (j - 1) with 0 by lia. apply Hcolumn0. lia. }
  rewrite E1, E2, E3.
  match goal with
  | |- grid_is _ _ _ (store _ _ ?x) =>
    pose proof (grid_is_store m n Hm Hn Hmn _ t i j x
                  ltac:(lia) ltac:(lia) Ht) as Hst
  end.
  eapply (grid_is_ext m n Hm Hn Hmn); [|exact Hst].
  intros i' j' Hi' Hj'. unfold put_cell, swept_upto. same_cell.
Qed.

Lemma sweep_spec (v : grid) :
  grid_is m n d v -> grid_is m n (swept_upto d n 1) (sweep m n W slices W v).
Proof.
  intros Hd. rewrite sweep_flat.
  apply (for_lt_inv (fun j t => grid_is m n (swept_upto d j 1) t)); [lia | |].
  - apply (grid_is_ext m n Hm Hn Hmn d); [|exact Hd].
    intros i j Hi Hj. unfold swept_upto. same_cell.
  - intros j t Hj Ht.
    apply (grid_is_ext m n Hm Hn Hmn (swept_upto d j m)).
    { intros i' j' Hi' Hj'. unfold swept_upto. same_cell. }
    apply (for_lt_inv (fun i t => grid_is m n (swept_upto d j i) t));
      [lia | exact Ht |].
    intros i t' Hi Ht'. apply stencil_spec; assumption.
Qed.

End OneSweep.

Lemma feedback_spec (d : description) (v : grid) :
  grid_is m n d v ->
  grid_is m n (put_cell d 0 0 (- fst (d (m - 1) (n - 1)))) (feedback m n v).
Proof.
  intros Hd. unfold feedback.
  assert (n <= CInt.INT_MAX) by (unfold CInt.INT_MAX in *; nia).
  pose proof (rows_fit m n W malloc0 Hn HW Hmn).
  rewrite !sub_1 by lia.
  rewrite (grid_is_load m n Hm Hn Hmn d v) by (assumption || lia).
  apply (grid_is_store m n Hm Hn Hmn); [lia | lia | exact Hd].
Qed.

(** One trip through the iteration loop. *)
Lemma trip_spec (k : Z) (v : grid) :
  0 <= k ->
  grid_is m n (grid_after m n k) v ->
  grid_is m n (grid_after m n (k + 1)) (feedback m n (sweep m n W slices W v)).
Proof.
  intros Hk Hv.
  assert (Hsw : grid_is m n (swept_upto (grid_after m n k) n 1)
                  (sweep m n W slices W v)).
  { apply sweep_spec; [| |exact Hv].
    - intros i Hi. unfold grid_after. destruct_tests; try lia; reflexivity.
    - intros j Hj. unfold grid_after. destruct_tests; try lia; reflexivity. }
  eapply (grid_is_ext m n Hm Hn Hmn); [|exact (feedback_spec _ _ Hsw)].
  intros i j Hi Hj. unfold put_cell, swept_upto, grid_after, origin_after.
  same_cell.
Qed.

Lemma entry_spec :
  grid_is m n (grid_after m n 0) (init_all m n W slices W vector0).
Proof.
  apply (grid_is_ext m n Hm Hn Hmn (seeded_below m));
    [| apply init_all_spec; assumption].
  intros i j Hi Hj. unfold seeded_below, grid_after, origin_after. same_cell.
Qed.

End SweepProof.

(** ** Whole runs *)

Section RunProof.

#[local] Set Default Proof Using "All".

Context {D : Type} {ops : DoubleOps D}.
Variables (MAX_THREADS MEMWORDS : Z) (VERBOSE : bool).
Variable c : config.
Variable e : env D.
Variable malloc0 : block.
Hypothesis Hvalid : valid_run MAX_THREADS MEMWORDS c e malloc0.

Let W := c_nthread_input c.
Let K := c_iterations c.
Let m := c_m c.
Let n := c_n c.

Lemma valid_facts :
  1 <= W <= m /\ 1 <= n /\ 1 <= K <= CInt.INT_MAX
  /\ m * n <= CInt.INT_MAX /\ m * n <= MEMWORDS
  /\ m <= CInt.INT_MAX /\ n <= CInt.INT_MAX.
Proof.
  destruct Hvalid as ((HW & HK & HWm & Hn & Hr & Hmem) & HKr & Hmr & Hnr & _).
  subst W K m n.
  rewrite in_range_unfold in *. unfold CInt.INT_MAX. repeat split; lia.
Qed.

Lemma main_valid (progname : string) :
  main MAX_THREADS MEMWORDS VERBOSE progname [W; K; m; n] e
  = run_and_report VERBOSE c (partition m W malloc0) e.
Proof.
  destruct Hvalid as (Hacc & _ & _ & _ & Hmalloc & _).
  unfold main. subst W K m n. rewrite (check_args_accepts _ _ _ _ Hacc).
  now rewrite Hmalloc.
Qed.

Lemma grid_at_trip_is (k : Z) :
  0 <= k -> grid_is m n (grid_after m n k) (grid_at_trip c e malloc0 k).
Proof.
  intros Hk0.
  destruct valid_facts as (HW & Hn & HK & Hmn & _).
  destruct Hvalid as (_ & _ & _ & _ & _ & Hthreads).
  unfold grid_at_trip. cbv zeta. fold W m n.
  apply (for_lt_inv (fun k st => grid_is m n (grid_after m n k) (vector st))); [lia | |].
  - unfold region_entry. cbn [vector]. rewrite Hthreads. fold W m n.
    apply entry_spec; assumption.
  - intros k' st Hk Hst. unfold iteration. cbn [vector]. rewrite Hthreads.
    fold W m n. apply trip_spec; [assumption | assumption | assumption | lia | exact Hst].
Qed.

Lemma final_grid_is : grid_is m n (grid_after m n K) (final_grid c e malloc0).
Proof.
  destruct valid_facts as (_ & _ & HK & _).
  apply (grid_at_trip_is K). lia.
Qed.

Lemma far_corner_value :
  far_corner c (final_grid c e malloc0)
  = if (2 <=? m) && (2 <=? n) then K * (n + m - 2) else n + m - 2.
Proof.
  destruct valid_facts as (HW & Hn & HK & Hmn & _ & Hmi & Hni).
  unfold far_corner. fold m n. rewrite !sub_1 by lia.
  rewrite (grid_is_load m n ltac:(lia) Hn Hmn _ _ _ _ final_grid_is) by lia.
  unfold grid_after, origin_after. same_cell.
Qed.

Lemma origin_value :
  origin c (final_grid c e malloc0) = origin_after m n K.
Proof.
  destruct valid_facts as (HW & Hn & HK & Hmn & _).
  unfold origin. fold m.
  rewrite (grid_is_load m n ltac:(lia) Hn Hmn _ _ _ _ final_grid_is) by lia.
  reflexivity.
Qed.

End RunProof.

(** ** The closed form of the far corner *)

Ltac valid_example :=
  unfold valid_run, accepted, example_env; cbn;
  rewrite ?in_range_unfold; repeat split; solve [lia | reflexivity].

(** C1. On the command line [p2p 1 2 2 1] (one worker, two iterations, a
    grid of two rows and one column) the run ends with the far corner at
    1, its seeded value: there is no interior cell for the recurrence to
    update.  The claim, and the program's own verification value of line
    265, have [K*(n+m-2) = 2]. *)
Theorem far_corner_closed_form_counterexample :
  valid_run 512 1000000 (Config 1 2 2 1) (example_env 1) (fun _ => 0)
  /\ far_corner (Config 1 2 2 1)
       (final_grid (Config 1 2 2 1) (example_env 1) (fun _ => 0)) = 1
  /\ c_iterations (Config 1 2 2 1)
     * (c_n (Config 1 2 2 1) + c_m (Config 1 2 2 1) - 2) = 2
  /\ corner_val (Config 1 2 2 1) = Some 2
  /\ checksum_fails (Config 1 2 2 1)
       (final_grid (Config 1 2 2 1) (example_env 1) (fun _ => 0)) = Some true.
Proof.
  split; [valid_example|]. repeat split; vm_compute; reflexivity.
Qed.

(** Where the closed form holds.  For every valid configuration
    whose grid has interior cells ([m >= 2] and [n >= 2]), or that asks
    for one iteration, or whose grid is a single cell, the run (rows and
    columns seeded with their indices, the stencil on the interior, the
    negated far corner fed back to the origin after every iteration) ends
    with the far corner at [K*(n+m-2)].  Stated for the runs whose cells
    binary64 holds exactly ([K*(n+m-2)] below 2^52). *)
Theorem far_corner_closed_form
  {D : Type} {ops : DoubleOps D} (MAX_THREADS MEMWORDS : Z)
  (c : config) (e : env D) (malloc0 : block) :
  valid_run MAX_THREADS MEMWORDS c e malloc0 ->
  exact_cells c ->
  (2 <= c_m c /\ 2 <= c_n c) \/ c_iterations c = 1 \/ (c_m c = 1 /\ c_n c = 1) ->
  far_corner c (final_grid c e malloc0) = c_iterations c * (c_n c + c_m c - 2).
Proof.
  intros Hvalid _ Hshape.
  rewrite (far_corner_value MAX_THREADS MEMWORDS false c e malloc0 Hvalid).
  destruct (valid_facts MAX_THREADS MEMWORDS false c e malloc0 Hvalid)
    as (HW & Hn & HK & _).
  destruct Hshape as [[Hm2 Hn2]|[HK1|[Hm1 Hn1]]].
  - same_cell.
  - rewrite HK1. same_cell.
  - rewrite Hm1, Hn1. same_cell.
Qed.

(** The theorem on a 3 by 4 grid, two workers, three iterations: the far
    corner ends at [3*(4+3-2) = 15]. *)
Lemma far_corner_closed_form_witness :
  (valid_run 512 1000000 (Config 2 3 3 4) (example_env 2) (fun _ => 0)
   /\ exact_cells (Config 2 3 3 4))
  /\ far_corner (Config 2 3 3 4)
       (final_grid (Config 2 3 3 4) (example_env 2) (fun _ => 0)) = 15.
Proof.
  assert (Hv : valid_run 512 1000000 (Config 2 3 3 4) (example_env 2) (fun _ => 0))
    by valid_example.
  assert (Hx : exact_cells (Config 2 3 3 4)) by reflexivity.
  assert (Hs : (2 <= c_m (Config 2 3 3 4) /\ 2 <= c_n (Config 2 3 3 4))
               \/ c_iterations (Config 2 3 3 4) = 1
               \/ (c_m (Config 2 3 3 4) = 1 /\ c_n (Config 2 3 3 4) = 1))
    by (left; cbn; lia).
  split; [exact (conj Hv Hx)|].
  exact (far_corner_closed_form 512 1000000 (Config 2 3 3 4) (example_env 2)
           (fun _ => 0) Hv Hx Hs).
Defined.

(** ** The verification step *)

(** The verification value has a result when neither [n+m] nor the product
    overflows, and only then. *)
Lemma corner_val_some (c : config) :
  1 <= c_iterations c -> 1 <= c_m c -> 1 <= c_n c ->
  c_n c + c_m c <= CInt.INT_MAX ->
  c_iterations c * (c_n c + c_m c - 2) <= CInt.INT_MAX ->
  corner_val c = Some (c_iterations c * (c_n c + c_m c - 2)).
Proof.
  intros HK Hm Hn Hsum Hfits. unfold corner_val. unfold CInt.INT_MAX in *.
  rewrite (checked_in_range (c_n c + c_m c)) by (rewrite in_range_unfold; lia).
  rewrite (checked_in_range (c_n c + c_m c - 2)) by (rewrite in_range_unfold; lia).
  apply checked_in_range. rewrite in_range_unfold. nia.
Qed.

Lemma corner_val_none (c : config) :
  1 <= c_iterations c -> 1 <= c_m c -> 1 <= c_n c ->
  c_n c + c_m c > CInt.INT_MAX
  \/ c_iterations c * (c_n c + c_m c - 2) > CInt.INT_MAX ->
  corner_val c = None.
Proof.
  intros HK Hm Hn Hover. unfold corner_val. unfold CInt.INT_MAX in *.
  destruct (Z_le_gt_dec (c_n c + c_m c) 2147483647) as [Hsum|Hsum].
  - rewrite (checked_in_range (c_n c + c_m c)) by (rewrite in_range_unfold; lia).
    rewrite (checked_in_range (c_n c + c_m c - 2))
      by (rewrite in_range_unfold; lia).
    apply checked_out_of_range. rewrite in_range_unfold. lia.
  - now rewrite (checked_out_of_range (c_n c + c_m c))
      by (rewrite in_range_unfold; lia).
Qed.


Lemma ratio_gt_epsilon_spec (a expected : Z) :
  0 <= a -> 0 <= expected ->
  ratio_gt_epsilon a expected = (a * 100000000 >? expected).
Proof.
  intros Ha He. unfold ratio_gt_epsilon.
  destruct (Z.eqb_spec expected 0) as [->|Hne].
  - destruct (Z.gtb_spec a 0), (Z.gtb_spec (a * 100000000) 0); try reflexivity; lia.
  - destruct (Z.gtb_spec expected 0); [reflexivity | lia].
Qed.

Lemma abs_defined (d : Z) :
  CInt.INT_MIN < d <= CInt.INT_MAX -> CInt.abs d = Some (Z.abs d).
Proof.
  intros Hd. unfold CInt.abs, CInt.INT_MIN, CInt.INT_MAX in *.
  destruct (Z.ltb_spec d 0).
  - rewrite checked_in_range by (rewrite in_range_unfold; lia). f_equal. lia.
  - f_equal. lia.
Qed.

Lemma checksum_fails_spec (c : config) (v : grid) (expected : Z) :
  corner_val c = Some expected ->
  0 <= expected ->
  CInt.INT_MIN < far_corner c v - expected <= CInt.INT_MAX ->
  checksum_fails c v
  = Some (Z.abs (far_corner c v - expected) * 100000000 >? expected).
Proof.
  intros Ecv He Hd. unfold checksum_fails. fold (far_corner c v).
  rewrite Ecv. unfold double_to_int.
  replace (CInt.in_rangeb (far_corner c v - expected)) with true
    by (symmetry; apply in_rangeb_spec; unfold CInt.in_range; lia).
  rewrite (abs_defined _ Hd). f_equal. apply ratio_gt_epsilon_spec; lia.
Qed.

Section VerifyProof.

#[local] Set Default Proof Using "All".

Context {D : Type} {ops : DoubleOps D}.
Variables (MAX_THREADS MEMWORDS : Z) (VERBOSE : bool).
Variable c : config.
Variable e : env D.
Variable malloc0 : block.
Hypothesis Hvalid : valid_run MAX_THREADS MEMWORDS c e malloc0.

(** A run whose verification value overflows at line 265 has no defined
    outcome. *)
Lemma run_overflow (progname : string) :
  c_n c + c_m c > CInt.INT_MAX
  \/ c_iterations c * (c_n c + c_m c - 2) > CInt.INT_MAX ->
  corner_val c = None
  /\ main MAX_THREADS MEMWORDS VERBOSE progname
       [c_nthread_input c; c_iterations c; c_m c; c_n c] e = Undefined.
Proof.
  intros Hover.
  destruct (valid_facts MAX_THREADS MEMWORDS VERBOSE c e malloc0 Hvalid)
    as (HW & Hn & HK & _).
  assert (Ecv : corner_val c = None)
    by (apply corner_val_none; [lia | lia | lia | exact Hover]).
  split; [exact Ecv|].
  rewrite (main_valid MAX_THREADS MEMWORDS VERBOSE c e malloc0 Hvalid).
  destruct Hvalid as (_ & _ & _ & _ & _ & Hthreads).
  unfold run_and_report. cbv zeta. rewrite Hthreads, Z.eqb_refl. cbn [negb].
  unfold bail_out. cbn [Z.eqb negb]. now rewrite Ecv.
Qed.

Hypothesis Hsum : c_n c + c_m c <= CInt.INT_MAX.
Hypothesis Hfits : c_iterations c * (c_n c + c_m c - 2) <= CInt.INT_MAX.

Lemma final_corner_val :
  corner_val c = Some (c_iterations c * (c_n c + c_m c - 2)).
Proof.
  destruct (valid_facts MAX_THREADS MEMWORDS VERBOSE c e malloc0 Hvalid)
    as (HW & Hn & HK & _).
  apply corner_val_some; solve [lia | assumption].
Qed.

Lemma final_checksum :
  checksum_fails c (final_grid c e malloc0)
  = Some (Z.abs (far_corner c (final_grid c e malloc0)
                 - c_iterations c * (c_n c + c_m c - 2)) * 100000000
          >? c_iterations c * (c_n c + c_m c - 2)).
Proof.
  destruct (valid_facts MAX_THREADS MEMWORDS VERBOSE c e malloc0 Hvalid)
    as (HW & Hn & HK & _).
  assert (Hs : 0 <= c_n c + c_m c - 2) by lia.
  assert (He : 0 <= c_iterations c * (c_n c + c_m c - 2)) by nia.
  assert (Hle : c_n c + c_m c - 2 <= c_iterations c * (c_n c + c_m c - 2)) by nia.
  apply (checksum_fails_spec c _ _ final_corner_val He).
  rewrite (far_corner_value MAX_THREADS MEMWORDS VERBOSE c e malloc0 Hvalid).
  unfold CInt.INT_MIN, CInt.INT_MAX in *.
  destruct ((2 <=? c_m c) && (2 <=? c_n c)); lia.
Qed.

Lemma run_outcome (progname : string) :
  main MAX_THREADS MEMWORDS VERBOSE progname
    [c_nthread_input c; c_iterations c; c_m c; c_n c] e
  = let v := final_grid c e malloc0 in
    let slices := partition (c_m c) (c_nthread_input c) malloc0 in
    let expected := c_iterations c * (c_n c + c_m c - 2) in
    if Z.abs (far_corner c v - expected) * 100000000 >? expected
    then Exited EXIT_FAILURE
           (region_header VERBOSE c e ++ [ChecksumError (far_corner c v) expected])
           v
    else Exited EXIT_SUCCESS
           (region_header VERBOSE c e
            ++ report VERBOSE c e expected (timing (parallel_region c slices e)))
           v.
Proof.
  rewrite (main_valid MAX_THREADS MEMWORDS VERBOSE c e malloc0 Hvalid).
  destruct Hvalid as (_ & _ & _ & _ & _ & Hthreads).
  unfold run_and_report. cbv zeta. rewrite Hthreads, Z.eqb_refl. cbn [negb].
  unfold bail_out. cbn [Z.eqb negb].
  fold (final_grid c e malloc0). rewrite final_corner_val, final_checksum.
  fold (far_corner c (final_grid c e malloc0)).
  destruct (_ >? _); reflexivity.
Qed.

End VerifyProof.

(** Where the verification is defined.  On a valid run whose verification
    value is computed without overflow ([n+m] and [iterations*(n+m-2)] fit
    an [int]), the program ends with the checksum diagnostic and the nonzero
    status [EXIT_FAILURE] if and only if the final far corner deviates from
    [iterations*(n+m-2)] by more than the relative tolerance 10^-8;
    otherwise it prints that the solution validates, then its report, and
    ends with status [EXIT_SUCCESS], which is 0. *)
Theorem checksum_error_iff_deviation
  {D : Type} {ops : DoubleOps D} (MAX_THREADS MEMWORDS : Z) (VERBOSE : bool)
  (progname : string) (c : config) (e : env D) (malloc0 : block) :
  valid_run MAX_THREADS MEMWORDS c e malloc0 ->
  c_n c + c_m c <= CInt.INT_MAX ->
  c_iterations c * (c_n c + c_m c - 2) <= CInt.INT_MAX ->
  let v := final_grid c e malloc0 in
  let expected := c_iterations c * (c_n c + c_m c - 2) in
  let o := main MAX_THREADS MEMWORDS VERBOSE progname
             [c_nthread_input c; c_iterations c; c_m c; c_n c] e in
  (o = Exited EXIT_FAILURE
         (region_header VERBOSE c e ++ [ChecksumError (far_corner c v) expected]) v
   <-> deviates (far_corner c v) expected)
  /\ (~ deviates (far_corner c v) expected ->
      exit_status o = Some EXIT_SUCCESS
      /\ In (if VERBOSE then SolutionValidatesVerbose expected
             else SolutionValidates) (printed o)
      /\ printed o
         = region_header VERBOSE c e
           ++ report VERBOSE c e expected
                (timing (parallel_region c
                           (partition (c_m c) (c_nthread_input c) malloc0) e)))
  /\ EXIT_FAILURE <> 0 /\ EXIT_SUCCESS = 0.
Proof.
  intros Hvalid Hsum Hfits v expected o.
  assert (Ho := run_outcome MAX_THREADS MEMWORDS VERBOSE c e malloc0 Hvalid
                  Hsum Hfits progname).
  cbv zeta in Ho. fold v expected o in Ho. unfold deviates.
  destruct (Z.gtb_spec (Z.abs (far_corner c v - expected) * 100000000) expected)
    as [Hdev|Hok].
  - split; [split; [intros _; lia | intros _; exact Ho]|].
    split; [intros Hno; exfalso; lia|].
    split; [unfold EXIT_FAILURE; lia | reflexivity].
  - split.
    { split; [intros E; rewrite E in Ho; discriminate Ho | intros Hdev; lia]. }
    split; [|split; [unfold EXIT_FAILURE; lia | reflexivity]].
    intros _. rewrite Ho. cbn [exit_status printed].
    split; [reflexivity|]. split; [|reflexivity].
    apply in_or_app. right. unfold report.
    destruct VERBOSE; left; reflexivity.
Qed.

(** The theorem on [p2p 2 3 3 4]: the run validates. *)
Lemma checksum_error_iff_deviation_witness :
  (valid_run 512 1000000 (Config 2 3 3 4) (example_env 2) (fun _ => 0)
   /\ c_n (Config 2 3 3 4) + c_m (Config 2 3 3 4) <= CInt.INT_MAX
   /\ c_iterations (Config 2 3 3 4)
      * (c_n (Config 2 3 3 4) + c_m (Config 2 3 3 4) - 2) <= CInt.INT_MAX)
  /\ exit_status (main 512 1000000 false "p2p" [2; 3; 3; 4] (example_env 2))
     = Some EXIT_SUCCESS.
Proof.
  assert (Hv : valid_run 512 1000000 (Config 2 3 3 4) (example_env 2) (fun _ => 0))
    by valid_example.
  assert (Hs : c_n (Config 2 3 3 4) + c_m (Config 2 3 3 4) <= CInt.INT_MAX)
    by (unfold CInt.INT_MAX; cbn; lia).
  assert (Hf : c_iterations (Config 2 3 3 4)
               * (c_n (Config 2 3 3 4) + c_m (Config 2 3 3 4) - 2) <= CInt.INT_MAX)
    by (unfold CInt.INT_MAX; cbn; lia).
  split; [exact (conj Hv (conj Hs Hf))|].
  assert (Hno : ~ deviates
                    (far_corner (Config 2 3 3 4)
                       (final_grid (Config 2 3 3 4) (example_env 2) (fun _ => 0)))
                    (c_iterations (Config 2 3 3 4)
                     * (c_n (Config 2 3 3 4) + c_m (Config 2 3 3 4) - 2)))
    by (vm_compute; discriminate).
  exact (proj1 (proj1 (proj2 (checksum_error_iff_deviation 512 1000000 false "p2p"
                                (Config 2 3 3 4) (example_env 2) (fun _ => 0)
                                Hv Hs Hf)) Hno)).
Defined.

(** C4. The command line [p2p 1 4295 2 500000] passes every test on the
    configuration, and the run ends with the far corner at
    [4295 * 500000 = 2147500000], which is [iterations*(n+m-2)]: no
    deviation.  But line 265 computes that product in [int], where it
    overflows: the verification has no defined result, and the program
    neither reports that the solution validates nor exits with success as
    the claim has it for a run without deviation. *)
Theorem verification_value_overflows :
  valid_run 512 1000000 (Config 1 4295 2 500000) (example_env 1) (fun _ => 0)
  /\ far_corner (Config 1 4295 2 500000)
       (final_grid (Config 1 4295 2 500000) (example_env 1) (fun _ => 0))
     = 2147500000
  /\ c_iterations (Config 1 4295 2 500000)
     * (c_n (Config 1 4295 2 500000) + c_m (Config 1 4295 2 500000) - 2)
     = 2147500000
  /\ ~ deviates
         (far_corner (Config 1 4295 2 500000)
            (final_grid (Config 1 4295 2 500000) (example_env 1) (fun _ => 0)))
         2147500000
  /\ ~ CInt.in_range 2147500000
  /\ corner_val (Config 1 4295 2 500000) = None
  /\ main 512 1000000 false "p2p" [1; 4295; 2; 500000] (example_env 1)
     = Undefined
  /\ exit_status (main 512 1000000 false "p2p" [1; 4295; 2; 500000] (example_env 1))
     <> Some EXIT_SUCCESS.
Proof.
  assert (Hv : valid_run 512 1000000 (Config 1 4295 2 500000) (example_env 1)
                 (fun _ => 0)) by valid_example.
  assert (Hfar : far_corner (Config 1 4295 2 500000)
                   (final_grid (Config 1 4295 2 500000) (example_env 1) (fun _ => 0))
                 = 2147500000).
  { rewrite (far_corner_value 512 1000000 false _ _ _ Hv). reflexivity. }
  assert (Hover : c_n (Config 1 4295 2 500000) + c_m (Config 1 4295 2 500000)
                  > CInt.INT_MAX
                  \/ c_iterations (Config 1 4295 2 500000)
                     * (c_n (Config 1 4295 2 500000)
                        + c_m (Config 1 4295 2 500000) - 2) > CInt.INT_MAX)
    by (right; unfold CInt.INT_MAX; cbn; lia).
  destruct (run_overflow 512 1000000 false _ _ _ Hv "p2p" Hover) as [Ecv Emain].
  cbn [c_nthread_input c_iterations c_m c_n] in Emain.
  split; [exact Hv|]. split; [exact Hfar|]. split; [reflexivity|].
  split; [rewrite Hfar; unfold deviates; cbn; lia|].
  split; [rewrite in_range_unfold; lia|].
  split; [exact Ecv|]. split; [exact Emain|].
  rewrite Emain. discriminate.
Qed.

(** C3. The command line [p2p 1 2 2 1] (one worker, two iterations, a grid
    of two rows and one column) passes every test on the configuration,
    and the program then ends with the checksum diagnostic and the status
    [EXIT_FAILURE]: the far corner holds its seeded value 1, the
    verification expects 2. *)
Theorem column_grid_fails_verification :
  valid_run 512 1000000 (Config 1 2 2 1) (example_env 1) (fun _ => 0)
  /\ exit_status (main 512 1000000 false "p2p" [1; 2; 2; 1] (example_env 1))
     = Some EXIT_FAILURE
  /\ printed (main 512 1000000 false "p2p" [1; 2; 2; 1] (example_env 1))
     = [Banner; NumberOfThreads 1; GridSizes 2 1; NumberOfIterations 2;
        ChecksumError 1 2].
Proof.
  split; [valid_example|]. split; vm_compute; reflexivity.
Qed.

(** The rest of the claim on grids of one column: the column loop has no
    trip to make, so a sweep leaves the grid as it found it, and the far
    corner [ARRAY(m-1,0)] ends at its seeded value [m-1]. *)
Lemma single_column_run
  {D : Type} {ops : DoubleOps D} (MAX_THREADS MEMWORDS : Z)
  (c : config) (e : env D) (malloc0 : block) :
  valid_run MAX_THREADS MEMWORDS c e malloc0 ->
  c_n c = 1 ->
  (forall slices nthread v,
     sweep (c_m c) (c_n c) (c_nthread_input c) slices nthread v = v)
  /\ far_corner c (final_grid c e malloc0) = c_m c - 1.
Proof.
  intros Hvalid Hn1. split.
  - intros slices nthread v. unfold sweep. apply for_lt_empty. lia.
  - rewrite (far_corner_value MAX_THREADS MEMWORDS false c e malloc0 Hvalid).
    rewrite Hn1. same_cell.
Qed.

(** Which grids of one row or one column the verification lets through,
    when its value is computed without overflow: those of a single cell,
    and the others when one iteration is asked for.  With two iterations
    or more and two cells or more, the run ends with [EXIT_FAILURE]. *)
Lemma degenerate_grid_exit
  {D : Type} {ops : DoubleOps D} (MAX_THREADS MEMWORDS : Z) (VERBOSE : bool)
  (progname : string) (c : config) (e : env D) (malloc0 : block) :
  valid_run MAX_THREADS MEMWORDS c e malloc0 ->
  c_n c + c_m c <= CInt.INT_MAX ->
  c_iterations c * (c_n c + c_m c - 2) <= CInt.INT_MAX ->
  c_m c = 1 \/ c_n c = 1 ->
  exit_status (main MAX_THREADS MEMWORDS VERBOSE progname
                 [c_nthread_input c; c_iterations c; c_m c; c_n c] e)
  = Some (if (2 <=? c_iterations c) && (2 <=? c_m c * c_n c)
          then EXIT_FAILURE else EXIT_SUCCESS).
Proof.
  intros Hvalid Hsum Hfits Hshape.
  rewrite (run_outcome MAX_THREADS MEMWORDS VERBOSE c e malloc0 Hvalid Hsum Hfits).
  cbv zeta.
  rewrite (far_corner_value MAX_THREADS MEMWORDS false c e malloc0 Hvalid).
  destruct (valid_facts MAX_THREADS MEMWORDS false c e malloc0 Hvalid)
    as (HW & Hn & HK & _).
  replace ((2 <=? c_m c) && (2 <=? c_n c)) with false
    by (symmetry; apply andb_false_iff;
        destruct Hshape; [left | right]; apply Z.leb_gt; lia).
  destruct (Z.gtb_spec
              (Z.abs (c_n c + c_m c - 2 - c_iterations c * (c_n c + c_m c - 2))
               * 100000000)
              (c_iterations c * (c_n c + c_m c - 2))) as [Hdev|Hok];
    cbn [exit_status]; f_equal; symmetry.
  - replace ((2 <=? c_iterations c) && (2 <=? c_m c * c_n c)) with true;
      [reflexivity|].
    symmetry. apply andb_true_iff. split; apply Z.leb_le; nia.
  - replace ((2 <=? c_iterations c) && (2 <=? c_m c * c_n c)) with false;
      [reflexivity|].
    symmetry. apply andb_false_iff.
    destruct (Z.leb_spec 2 (c_iterations c)) as [HK2|]; [right | left; reflexivity].
    apply Z.leb_gt. nia.
Qed.


(** ** What the iteration loop leaves in the boundary cells *)

Lemma grid_is_write_count (m n : Z) (d : description) (v : grid) (i j : Z) :
  m * n <= CInt.INT_MAX ->
  grid_is m n d v -> 0 <= i < m -> 0 <= j < n ->
  write_count v (ARRAY m i j) = snd (d i j).
Proof.
  intros Hmn [Hin _] Hi Hj. rewrite (ARRAY_index m n) by assumption. now apply Hin.
Qed.



(** C10, as the claim states it, fails: a boundary cell is stored to twice,
    not once.  On [p2p 1 1 2 2] the cell [(0,1)] has received two stores
    when the iteration loop is entered (line 195 clears it, line 197 seeds
    it), and still two at the end. *)
Lemma boundary_cell_written_once_counterexample :
  valid_run 512 1000000 (Config 1 1 2 2) (example_env 1) (fun _ => 0)
  /\ write_count (grid_at_trip (Config 1 1 2 2) (example_env 1) (fun _ => 0) 0)
       (ARRAY 2 0 1) = 2%nat
  /\ write_count (final_grid (Config 1 1 2 2) (example_env 1) (fun _ => 0))
       (ARRAY 2 0 1) = 2%nat.
Proof.
  split; [valid_example|]. split; vm_compute; reflexivity.
Qed.

(** C10, amended. On a valid run every boundary cell other than the origin
    has received exactly two stores when the iteration loop is entered (it
    is cleared, then seeded) and none after: at the entry of the loop and
    after each of its trips, the row-0 cell [(0,j)], [j >= 1], holds [j]
    and the column-0 cell [(i,0)], [i >= 1], holds [i], each with a store
    count of two. *)
Theorem boundary_cells_keep_their_seed
  {D : Type} {ops : DoubleOps D} (MAX_THREADS MEMWORDS : Z)
  (c : config) (e : env D) (malloc0 : block) (k : Z) :
  valid_run MAX_THREADS MEMWORDS c e malloc0 ->
  0 <= k <= c_iterations c ->
  let v := grid_at_trip c e malloc0 k in
  (forall j, 1 <= j < c_n c ->
     load v (ARRAY (c_m c) 0 j) = j /\ write_count v (ARRAY (c_m c) 0 j) = 2%nat)
  /\ (forall i, 1 <= i < c_m c ->
        load v (ARRAY (c_m c) i 0) = i /\ write_count v (ARRAY (c_m c) i 0) = 2%nat).
Proof.
  intros Hvalid Hk v.
  destruct (valid_facts MAX_THREADS MEMWORDS false c e malloc0 Hvalid)
    as (HW & Hn & HK & Hmn & _).
  assert (Hm1 : 1 <= c_m c) by lia.
  pose proof (grid_at_trip_is MAX_THREADS MEMWORDS false c e malloc0 Hvalid k
                ltac:(lia)) as Hg.
  fold v in Hg.
  split.
  - intros j Hj.
    rewrite (grid_is_load (c_m c) (c_n c) Hm1 Hn Hmn _ _ _ _ Hg) by lia.
    rewrite (grid_is_write_count _ _ _ _ _ _ Hmn Hg) by lia.
    unfold grid_after. split; same_cell.
  - intros i Hi.
    rewrite (grid_is_load (c_m c) (c_n c) Hm1 Hn Hmn _ _ _ _ Hg) by lia.
    rewrite (grid_is_write_count _ _ _ _ _ _ Hmn Hg) by lia.
    unfold grid_after. split; same_cell.
Qed.

(** The theorem on [p2p 2 3 3 4], after the last trip: cell [(0,2)]
    holds 2. *)
Lemma boundary_cells_keep_their_seed_witness :
  (valid_run 512 1000000 (Config 2 3 3 4) (example_env 2) (fun _ => 0)
   /\ 0 <= 3 <= c_iterations (Config 2 3 3 4))
  /\ load (grid_at_trip (Config 2 3 3 4) (example_env 2) (fun _ => 0) 3)
       (ARRAY (c_m (Config 2 3 3 4)) 0 2) = 2.
Proof.
  assert (Hv : valid_run 512 1000000 (Config 2 3 3 4) (example_env 2) (fun _ => 0))
    by valid_example.
  assert (Hk : 0 <= 3 <= c_iterations (Config 2 3 3 4)) by (cbn; lia).
  split; [exact (conj Hv Hk)|].
  assert (Hj : 1 <= 2 < c_n (Config 2 3 3 4)) by (cbn; lia).
  exact (proj1 (proj1 (boundary_cells_keep_their_seed 512 1000000
                         (Config 2 3 3 4) (example_env 2) (fun _ => 0) 3 Hv Hk)
                  2 Hj)).
Defined.

(** ** The size of what the grid holds

    At the entry of the iteration loop and after each of its trips no cell
    exceeds [iterations*(n+m-2)] in absolute value.  With [MEMWORDS] at
    its default of one million that is below 2^51, and the sum of two
    cells below 2^52: binary64 holds and adds such integers exactly. *)
Lemma cell_bound
  {D : Type} {ops : DoubleOps D} (MAX_THREADS MEMWORDS : Z)
  (c : config) (e : env D) (malloc0 : block) (k i j : Z) :
  valid_run MAX_THREADS MEMWORDS c e malloc0 ->
  0 <= k <= c_iterations c -> 0 <= i < c_m c -> 0 <= j < c_n c ->
  Z.abs (load (grid_at_trip c e malloc0 k) (ARRAY (c_m c) i j))
  <= c_iterations c * (c_n c + c_m c - 2).
Proof.
  intros Hvalid Hk Hi Hj.
  destruct (valid_facts MAX_THREADS MEMWORDS false c e malloc0 Hvalid)
    as (HW & Hn & HK & Hmn & _).
  assert (Hm1 : 1 <= c_m c) by lia.
  pose proof (grid_at_trip_is MAX_THREADS MEMWORDS false c e malloc0 Hvalid k
                ltac:(lia)) as Hg.
  rewrite (grid_is_load (c_m c) (c_n c) Hm1 Hn Hmn _ _ _ _ Hg) by lia.
  assert (Hs : 0 <= c_n c + c_m c - 2) by lia.
  assert (Hks : k * (c_n c + c_m c - 2)
                <= c_iterations c * (c_n c + c_m c - 2)) by nia.
  assert (H1s : c_n c + c_m c - 2
                <= c_iterations c * (c_n c + c_m c - 2)) by nia.
  unfold grid_after, origin_after.
  repeat match goal with
         | |- context [if ?b then _ else _] =>
             let E := fresh "E" in destruct b eqn:E; cbn [fst]
         end;
    rewrite ?andb_true_iff, ?andb_false_iff, ?Z.eqb_eq, ?Z.eqb_neq,
            ?Z.leb_le, ?Z.leb_gt in *;
    try lia; nia.
Qed.

Lemma default_grid_below_2_51 (K m n : Z) :
  1 <= K <= CInt.INT_MAX -> 1 <= m -> 1 <= n -> m * n <= 1000000 ->
  K * (n + m - 2) < 2 ^ 51.
Proof.
  intros HK Hm Hn Hmn. unfold CInt.INT_MAX in HK.
  assert (n + m - 2 < 1000000) by nia.
  assert (K * (n + m - 2) <= 2147483647 * 1000000) by nia.
  change (2 ^ 51) with 2251799813685248. lia.
Qed.

(** With [MEMWORDS] at its default, or below, every valid run has cells
    that binary64 holds exactly. *)
Lemma default_memwords_exact
  {D : Type} {ops : DoubleOps D} (MAX_THREADS MEMWORDS : Z)
  (c : config) (e : env D) (malloc0 : block) :
  MEMWORDS <= 1000000 ->
  valid_run MAX_THREADS MEMWORDS c e malloc0 -> exact_cells c.
Proof.
  intros Hmem Hvalid.
  destruct (valid_facts MAX_THREADS MEMWORDS false c e malloc0 Hvalid)
    as (HW & Hn & HK & Hmn & Hcap & _).
  pose proof (default_grid_below_2_51 (c_iterations c) (c_m c) (c_n c)
                HK ltac:(lia) Hn ltac:(lia)) as Hb.
  unfold exact_cells. change (2 ^ 52) with 4503599627370496.
  change (2 ^ 51) with 2251799813685248 in Hb. lia.
Qed.

(** ** The timing harness *)

Lemma samples_succ {D : Type} {ops : DoubleOps D} (e : env D) (k : Z) :
  0 <= k -> samples e (k + 1) = samples e k ++ [elapsed e (Z.to_nat k)].
Proof.
  intros Hk. unfold samples.
  replace (Z.to_nat (k + 1)) with (S (Z.to_nat k)) by lia.
  rewrite seq_S, map_app. reflexivity.
Qed.

Lemma samples_length {D : Type} {ops : DoubleOps D} (e : env D) (k : Z) :
  List.length (samples e k) = Z.to_nat k.
Proof. unfold samples. now rewrite length_map, length_seq. Qed.

Lemma running_stats_snoc {D : Type} {ops : DoubleOps D} (l : list D) (t : D) :
  running_stats (l ++ [t]) = accumulate (running_stats l) t.
Proof. unfold running_stats. now rewrite fold_left_app. Qed.

Lemma timing_after_trips {D : Type} {ops : DoubleOps D}
  (c : config) (slices : block) (e : env D) (k : Z) :
  0 <= k <= c_iterations c ->
  let st := for_lt 0 k (iteration c slices e) (region_entry c slices e) in
  wtime_calls st = (2 * Z.to_nat k)%nat
  /\ timing st = running_stats (kept_samples (c_iterations c) (samples e k)).
Proof.
  intros Hk. cbv zeta.
  apply (for_lt_inv
           (fun k st =>
              0 <= k <= c_iterations c ->
              wtime_calls st = (2 * Z.to_nat k)%nat
              /\ timing st
                 = running_stats (kept_samples (c_iterations c) (samples e k))));
    [lia | | | exact Hk].
  - intros _. split; [reflexivity|].
    unfold kept_samples, samples. cbn. now destruct (c_iterations c =? 1).
  - intros i st Hi IH _. destruct (IH ltac:(lia)) as [Hcalls Htiming].
    unfold iteration. cbn [wtime_calls timing]. split; [lia|].
    rewrite samples_succ by lia. rewrite Hcalls.
    replace (S (2 * Z.to_nat i)) with (2 * Z.to_nat i + 1)%nat by lia.
    fold (elapsed e (Z.to_nat i)).
    unfold record_sample, kept_samples in *.
    destruct (Z.eqb_spec (c_iterations c) 1) as [E1|E1].
    + rewrite orb_true_r, running_stats_snoc, <- Htiming. reflexivity.
    + rewrite orb_false_r. destruct (Z.gtb_spec i 0) as [Hpos|Hzero].
      * pose proof (samples_length e i) as Hlen.
        destruct (samples e i) as [|x l]; [cbn in Hlen; lia|].
        cbn [tl app] in *. rewrite running_stats_snoc, <- Htiming. reflexivity.
      * assert (i = 0) by lia. subst i. exact Htiming.
Qed.

(** C7. The timing parameters at the end of the iteration loop are the
    running sum, minimum and maximum, from their initial values, over the
    elapsed times of the iterations, that of iteration 0 being left out
    unless exactly one iteration was requested; and the average reported
    is that sum divided by [max(iterations-1, 1)]. *)
Theorem timing_harness_statistics
  {D : Type} {ops : DoubleOps D} (c : config) (slices : block) (e : env D) :
  1 <= c_iterations c <= CInt.INT_MAX ->
  let s := timing (parallel_region c slices e) in
  s = running_stats (kept_samples (c_iterations c) (samples e (c_iterations c)))
  /\ final_avgtime c s
     = d_div (avgtime s) (d_of_int (Z.max (c_iterations c - 1) 1)).
Proof.
  intros HK s. split.
  - unfold s, parallel_region.
    exact (proj2 (timing_after_trips c slices e (c_iterations c) ltac:(lia))).
  - unfold final_avgtime. rewrite MAX_spec, sub_1 by lia. reflexivity.
Qed.

(** The theorem on three iterations, the clock reading 0, 1, 4, 9, 16, 25:
    the elapsed times are 1, 5 and 9, the first is left out, and the sum
    14 is divided by 2. *)
Lemma timing_harness_statistics_witness :
  1 <= c_iterations (Config 2 3 3 4) <= CInt.INT_MAX
  /\ timing (parallel_region (Config 2 3 3 4) (partition 3 2 (fun _ => 0))
               (example_env 2))
     = running_stats (kept_samples 3 (samples (example_env 2) 3)).
Proof.
  assert (HK : 1 <= c_iterations (Config 2 3 3 4) <= CInt.INT_MAX)
    by (unfold CInt.INT_MAX; cbn; lia).
  split; [exact HK|].
  exact (proj1 (timing_harness_statistics (Config 2 3 3 4)
                  (partition 3 2 (fun _ => 0)) (example_env 2) HK)).
Defined.

(** ** The report *)

Lemma append_assoc (a b c : string) :
  ((a ++ b) ++ c = a ++ (b ++ c))%string.
Proof. induction a as [|x a IH]; cbn; [reflexivity | now rewrite IH]. Qed.




(** ** The handoff protocol *)

Lemma move_same (pcs : Z -> pc) (w : Z) (p : pc) : move pcs w p w = p.
Proof. unfold move. now rewrite Z.eqb_refl. Qed.

Lemma move_other (pcs : Z -> pc) (w : Z) (p : pc) (w' : Z) :
  w' <> w -> move pcs w p w' = pcs w'.
Proof. unfold move. intros H. apply Z.eqb_neq in H. now rewrite H. Qed.

Section OwnerProof.

#[local] Set Default Proof Using "All".

Variables (m W : Z).
Hypothesis HW : 1 <= W <= m.

Lemma slice_of_spec (i : Z) (k : nat) :
  0 <= i ->
  0 <= slice_of m W k i <= Z.of_nat k
  /\ slice_lo m W (slice_of m W k i) <= i
  /\ forall w', slice_of m W k i < w' <= Z.of_nat k -> i < slice_lo m W w'.
Proof.
  intros Hi. induction k as [|k IH].
  - cbn [slice_of]. rewrite (slice_lo_0 m W HW). repeat split; try lia.
  - cbn [slice_of]. destruct (Z.leb_spec (slice_lo m W (Z.of_nat (S k))) i) as [Hle|Hgt].
    + repeat split; try lia.
    + destruct IH as (Hr & Hlo & Hup). repeat split; try lia.
      intros w' Hw'. destruct (Z.eq_dec w' (Z.of_nat (S k))) as [->|Hne];
        [exact Hgt | apply Hup; lia].
Qed.

Lemma owner_spec (i : Z) :
  0 <= i < m ->
  0 <= owner m W i < W
  /\ slice_lo m W (owner m W i) <= i < slice_lo m W (owner m W i + 1).
Proof.
  intros Hi. unfold owner.
  destruct (slice_of_spec i (Z.to_nat (W - 1)) ltac:(lia)) as (Hr & Hlo & Hup).
  rewrite Z2Nat.id in Hr, Hup by lia.
  repeat split; try lia.
  destruct (Z.eq_dec (slice_of m W (Z.to_nat (W - 1)) i + 1) W) as [E|E].
  - rewrite E, (slice_lo_W m W HW). lia.
  - apply Hup. lia.
Qed.

Lemma owner_unique (i w : Z) :
  0 <= w < W -> slice_lo m W w <= i < slice_lo m W (w + 1) -> owner m W i = w.
Proof.
  intros Hw Hin.
  assert (Hi : 0 <= i < m).
  { pose proof (slice_lo_bounds m W HW w ltac:(lia)).
    pose proof (slice_lo_bounds m W HW (w + 1) ltac:(lia)). lia. }
  destruct (owner_spec i Hi) as (Ho & Hlo).
  destruct (Z.lt_trichotomy (owner m W i) w) as [Hlt|[Heq|Hgt]]; [|exact Heq|].
  - destruct (Z.eq_dec (owner m W i + 1) w) as [E|E].
    + rewrite E in Hlo. lia.
    + pose proof (slice_lo_mono m W HW (owner m W i + 1) w ltac:(lia) ltac:(lia)). lia.
  - destruct (Z.eq_dec (w + 1) (owner m W i)) as [E|E].
    + rewrite E in Hin. lia.
    + pose proof (slice_lo_mono m W HW (w + 1) (owner m W i) ltac:(lia) ltac:(lia)). lia.
Qed.

End OwnerProof.

Lemma sum_over_le (f g : Z -> Z) (k : nat) :
  (forall w, 0 <= w < Z.of_nat k -> f w <= g w) ->
  sum_over f k <= sum_over g k.
Proof.
  induction k as [|k IH]; intros H; cbn [sum_over]; [lia|].
  pose proof (IH ltac:(intros w Hw; apply H; lia)).
  pose proof (H (Z.of_nat k) ltac:(lia)). lia.
Qed.

Lemma sum_over_lt (f g : Z -> Z) (k : nat) (w0 : Z) :
  (forall w, 0 <= w < Z.of_nat k -> f w <= g w) ->
  0 <= w0 < Z.of_nat k -> f w0 < g w0 ->
  sum_over f k < sum_over g k.
Proof.
  induction k as [|k IH]; intros H Hw0 Hlt; cbn [sum_over]; [lia|].
  pose proof (H (Z.of_nat k) ltac:(lia)) as Hk.
  destruct (Z.eq_dec w0 (Z.of_nat k)) as [->|Hne].
  - pose proof (sum_over_le f g k ltac:(intros w Hw; apply H; lia)). lia.
  - pose proof (IH ltac:(intros w Hw; apply H; lia) ltac:(lia) Hlt). lia.
Qed.

Lemma sum_over_bound (f : Z -> Z) (k : nat) (B : Z) :
  (forall w, 0 <= w < Z.of_nat k -> f w <= B) ->
  sum_over f k <= Z.of_nat k * B.
Proof.
  induction k as [|k IH]; intros H; cbn [sum_over]; [lia|].
  pose proof (IH ltac:(intros w Hw; apply H; lia)).
  pose proof (H (Z.of_nat k) ltac:(lia)). lia.
Qed.

Section ProtocolProof.

#[local] Set Default Proof Using "All".

Variables (m n K W : Z).
Variable malloc0 : block.
Hypothesis Hn : 1 <= n.
Hypothesis HW : 1 <= W <= m.
Hypothesis Hmn : m * n <= CInt.INT_MAX.
Hypothesis HK : 0 <= K.

Let slices := partition m W malloc0.
Let Hm : 1 <= m := Z.le_trans _ _ _ (proj1 HW) (proj2 HW).
Local Abbreviation lo := (slice_lo m W).

(** Lines 195-198 on untouched rows, whatever the other rows hold. *)
Lemma worker_init_frame (d : description) (v : grid) (w : Z) :
  0 <= w < W ->
  grid_is m n d v ->
  (forall i j, 0 <= i < m -> 0 <= j < n -> lo w <= i < lo (w + 1) ->
     d i j = (0, O)) ->
  grid_is m n
    (fun i j => if (lo w <=? i) && (i <? lo (w + 1)) then grid_after m n 0 i j
                else d i j)
    (worker_init m n W slices w v).
Proof.
  intros Hw Hd Hzero. unfold worker_init, seed_column, seed_row. cbv zeta.
  rewrite (slice_start m n W malloc0 Hn HW Hmn), (slice_end m n W malloc0 Hn HW Hmn)
    by exact Hw.
  destruct (slice_rows m n W malloc0 Hn HW Hmn w Hw) as (Hlo & Hlt & Hhi & Hw0).
  pose proof (clear_slice_spec m n W malloc0 Hn HW Hmn _ v w Hw Hd) as H1.
  set (v1 := clear_slice m n W (partition m W malloc0) w v) in *.
  destruct (Z.eqb_spec w 0) as [Ew|Ew].
  - assert (Elo : lo w = 0) by (apply Hw0; exact Ew).
    pose proof (fill_columns_spec m n Hm Hn Hmn _ v1 (lo w) (fun j => j)
                  ltac:(lia) H1) as H2.
    pose proof (fill_rows_spec m n Hm Hn Hmn _ _ 0 (lo w) (lo (w + 1) - 1)
                  (fun i => i) ltac:(lia) ltac:(lia) ltac:(lia) ltac:(lia) H2) as H3.
    eapply (grid_is_ext m n Hm Hn Hmn); [|exact H3].
    intros i j Hi Hj. unfold fill_rows, fill_columns, grid_after, origin_after.
    destruct (Z_le_dec (lo w) i) as [H0|H0];
      [destruct (Z_lt_dec i (lo (w + 1))) as [H0'|H0']|];
      try rewrite (Hzero i j Hi Hj (conj H0 H0')); same_cell.
  - assert (Elo : lo w <> 0) by (intros E; apply Ew, Hw0; exact E).
    pose proof (fill_rows_spec m n Hm Hn Hmn _ _ 0 (lo w) (lo (w + 1) - 1)
                  (fun i => i) ltac:(lia) ltac:(lia) ltac:(lia) ltac:(lia) H1) as H3.
    eapply (grid_is_ext m n Hm Hn Hmn); [|exact H3].
    intros i j Hi Hj. unfold fill_rows, grid_after, origin_after.
    destruct (Z_le_dec (lo w) i) as [H0|H0];
      [destruct (Z_lt_dec i (lo (w + 1))) as [H0'|H0']|];
      try rewrite (Hzero i j Hi Hj (conj H0 H0')); same_cell.
Qed.

Lemma owner_facts (i : Z) :
  0 <= i < m -> 0 <= owner m W i < W /\ lo (owner m W i) <= i < lo (owner m W i + 1).
Proof. apply (owner_spec m W HW). Qed.

Lemma owner_of_row_0 : owner m W 0 = 0.
Proof.
  apply (owner_unique m W HW); [lia|].
  destruct (slice_rows m n W malloc0 Hn HW Hmn 0 ltac:(lia)) as (_ & Hlt & _ & _).
  rewrite (slice_lo_0 m W HW) in *. lia.
Qed.

Lemma slice_bounds (w : Z) :
  0 <= w < W -> 0 <= lo w /\ lo w < lo (w + 1) /\ lo (w + 1) <= m.
Proof.
  intros Hw. destruct (slice_rows m n W malloc0 Hn HW Hmn w Hw) as (H1 & H2 & H3 & _).
  auto.
Qed.

Lemma front_ge_published (it w : Z) (p : pc) (i : Z) :
  column_pc m n W it w p -> published n p + 1 <= front n p i.
Proof.
  destruct p; cbn; try tauto; try lia.
  destruct (i <? i0); lia.
Qed.

Lemma column_move (it : Z) (pcs : Z -> pc) (w : Z) (p' : pc) :
  (forall x, 0 <= x < W -> column_pc m n W it x (pcs x)) ->
  column_pc m n W it w p' ->
  forall x, 0 <= x < W -> column_pc m n W it x (move pcs w p' x).
Proof.
  intros Hall Hp x Hx. destruct (Z.eq_dec x w) as [->|Hne].
  - now rewrite move_same.
  - rewrite move_other by exact Hne. now apply Hall.
Qed.

Lemma handoffs_move (fl fl' : block) (pcs : Z -> pc) (w : Z) (p' : pc) :
  (forall x, 0 <= x < W - 1 -> handoff_ok n (fl x) (pcs x) (pcs (x + 1))) ->
  (forall x, x <> w - 1 -> x <> w -> fl' x = fl x) ->
  (0 < w -> handoff_ok n (fl' (w - 1)) (pcs (w - 1)) p') ->
  (w < W - 1 -> handoff_ok n (fl' w) p' (pcs (w + 1))) ->
  0 <= w < W ->
  forall x, 0 <= x < W - 1 ->
    handoff_ok n (fl' x) (move pcs w p' x) (move pcs w p' (x + 1)).
Proof.
  intros Hall Hfl Hleft Hright Hw x Hx.
  destruct (Z.eq_dec x w) as [->|Hne].
  - rewrite move_same, move_other by lia. apply Hright. lia.
  - rewrite (move_other _ _ _ x) by exact Hne.
    destruct (Z.eq_dec (x + 1) w) as [E|Hne'].
    + rewrite E, move_same. replace x with (w - 1) by lia. apply Hleft. lia.
    + rewrite move_other by exact Hne'. rewrite Hfl by lia. now apply Hall.
Qed.

(** A move that leaves the worker's front where it is leaves the grid's
    description as it is. *)
Lemma sweeping_move_same_front
  (it : Z) (pcs : Z -> pc) (w : Z) (p' : pc) (v : grid) :
  0 <= w < W ->
  (forall i, 1 <= i -> lo w <= i < lo (w + 1) -> front n p' i = front n (pcs w) i) ->
  grid_is m n (sweeping m n W it pcs) v ->
  grid_is m n (sweeping m n W it (move pcs w p')) v.
Proof.
  intros Hw Hfront Hv. apply (grid_is_ext m n Hm Hn Hmn (sweeping m n W it pcs));
    [|exact Hv].
  intros i j Hi Hj. unfold sweeping.
  destruct (Z.leb_spec 1 i) as [Hi1|Hi0]; [|reflexivity].
  destruct (owner_facts i Hi) as (Ho & Hin).
  destruct (Z.eq_dec (owner m W i) w) as [E|E].
  - rewrite E in *. rewrite move_same, Hfront by lia. reflexivity.
  - rewrite move_other by exact E. reflexivity.
Qed.

Lemma resting_plain (it : Z) (pcs : Z -> pc) (i j : Z) :
  plain (pcs (owner m W i)) -> resting m n W it pcs i j = grid_after m n it i j.
Proof. unfold resting. destruct (pcs (owner m W i)); cbn; tauto. Qed.

Lemma resting_move_plain (it : Z) (pcs : Z -> pc) (w : Z) (p' : pc) (v : grid) :
  plain (pcs w) -> plain p' ->
  grid_is m n (resting m n W it pcs) v ->
  grid_is m n (resting m n W it (move pcs w p')) v.
Proof.
  intros Hp Hp' Hv. apply (grid_is_ext m n Hm Hn Hmn (resting m n W it pcs));
    [|exact Hv].
  intros i j Hi Hj.
  destruct (Z.eq_dec (owner m W i) w) as [E|E].
  - rewrite !resting_plain; [reflexivity | now rewrite E, move_same | now rewrite E].
  - unfold resting. rewrite move_other by exact E. reflexivity.
Qed.

(** Line 225 under the protocol: when worker [w] is at row [r] of column
    [j], the three cells it reads hold their value of this sweep, the row
    above the slice having been handed over by the left neighbour. *)
Lemma cell_step (it : Z) (pcs : Z -> pc) (fl : block) (w j r : Z) (v : grid) :
  0 <= it ->
  0 <= w < W ->
  (forall x, 0 <= x < W -> column_pc m n W it x (pcs x)) ->
  (forall x, 0 <= x < W - 1 -> handoff_ok n (fl x) (pcs x) (pcs (x + 1))) ->
  pcs w = Comp it j r ->
  r <= lo (w + 1) - 1 ->
  grid_is m n (sweeping m n W it pcs) v ->
  grid_is m n (sweeping m n W it (move pcs w (Comp it j (r + 1)))) (stencil m r j v).
Proof.
  intros Hit Hw Hcol Hflags Hpc Hr Hv.
  pose proof (Hcol w Hw) as Hcw. rewrite Hpc in Hcw. cbn in Hcw.
  destruct Hcw as (_ & Hj & Hr1 & Hr2).
  destruct (slice_bounds w Hw) as (Hlo0 & Hlo1 & Hlo2).
  assert (Hni : n <= CInt.INT_MAX) by (unfold CInt.INT_MAX in *; nia).
  assert (Hmi : m <= CInt.INT_MAX) by (unfold CInt.INT_MAX in *; nia).
  assert (Hown : owner m W r = w) by (apply (owner_unique m W HW); lia).
  (* the row above has reached column j *)
  assert (Habove : 2 <= r -> j < front n (pcs (owner m W (r - 1))) (r - 1)).
  { intros Hr2'. destruct (Z_le_dec (lo w) (r - 1)) as [Hin|Hout].
    - rewrite (owner_unique m W HW (r - 1) w) by lia. rewrite Hpc. cbn.
      destruct (Z.ltb_spec (r - 1) r); lia.
    - assert (Hw1 : 0 < w).
      { destruct (Z.eq_dec w 0) as [->|]; [|lia].
        rewrite (slice_lo_0 m W HW) in *. lia. }
      destruct (slice_bounds (w - 1) ltac:(lia)) as (Hp0 & Hp1 & Hp2).
      replace (w - 1 + 1) with w in * by lia.
      assert (Hleft : owner m W (r - 1) = w - 1).
      { apply (owner_unique m W HW); [lia|].
        replace (w - 1 + 1) with w by lia. lia. }
      rewrite Hleft.
      pose proof (Hflags (w - 1) ltac:(lia)) as (Hf & Hf01 & _).
      replace (w - 1 + 1) with w in * by lia.
      rewrite Hpc in Hf. cbn in Hf.
      pose proof (front_ge_published it (w - 1) (pcs (w - 1)) (r - 1)
                    (Hcol (w - 1) ltac:(lia))).
      lia. }
  unfold stencil. rewrite !sub_1 by lia.
  rewrite !(grid_is_load m n Hm Hn Hmn _ v _ _ Hv) by lia.
  set (c := fst (grid_after m n it 0 0)).
  assert (E1 : fst (sweeping m n W it pcs (r - 1) j)
               = if r =? 1 then j else r - 1 + j - c).
  { unfold sweeping. fold c. destruct (Z.eqb_spec r 1) as [->|Hne].
    - unfold grid_after. same_cell.
    - replace (j <? front n (pcs (owner m W (r - 1))) (r - 1)) with true
        by (symmetry; apply Z.ltb_lt, Habove; lia).
      same_cell. }
  assert (E2 : fst (sweeping m n W it pcs r (j - 1))
               = if j =? 1 then r else r + (j - 1) - c).
  { unfold sweeping. fold c. rewrite Hown, Hpc. cbn [front].
    destruct (Z.eqb_spec j 1) as [->|Hne].
    - unfold grid_after. same_cell.
    - same_cell. }
  assert (E3 : fst (sweeping m n W it pcs (r - 1) (j - 1))
               = if r =? 1 then (if j =? 1 then c else j - 1)
                 else (if j =? 1 then r - 1 else r - 1 + (j - 1) - c)).
  { unfold sweeping. fold c. destruct (Z.eqb_spec r 1) as [->|Hne].
    - unfold c, grid_after. same_cell.
    - destruct (Z.eqb_spec j 1) as [->|Hnej].
      + unfold grid_after. same_cell.
      + replace (j - 1 <? front n (pcs (owner m W (r - 1))) (r - 1)) with true
          by (symmetry; apply Z.ltb_lt; pose proof (Habove ltac:(lia)); lia).
        same_cell. }
  rewrite E1, E2, E3.
  match goal with
  | |- grid_is _ _ _ (store _ _ ?x) =>
    pose proof (grid_is_store m n Hm Hn Hmn _ v r j x
                  ltac:(lia) ltac:(lia) Hv) as Hst
  end.
  eapply (grid_is_ext m n Hm Hn Hmn); [|exact Hst].
  intros i' j' Hi' Hj'. unfold put_cell, sweeping. fold c.
  destruct (owner_facts i' Hi') as (Ho & Hin).
  destruct (Z.eq_dec (owner m W i') w) as [E|E].
  - rewrite E, move_same, Hpc. cbn [front]. same_cell.
  - rewrite move_other by exact E.
    assert (i' <> r) by (intros ->; apply E; exact Hown).
    same_cell.
Qed.

(** *** Steps between the column loops *)

Lemma init_preserves (it : Z) (v : grid) (fl : block) (pcs : Z -> pc) (w : Z) :
  resting_inv m n K W it v fl pcs -> 0 <= w < W -> pcs w = Init ->
  resting_inv m n K W it (worker_init m n W slices w v) fl (move pcs w (Reset 0)).
Proof.
  intros (Hit & Hpcs & Hbar & Hv) Hw Hpc.
  pose proof (Hpcs w Hw) as Hit0. rewrite Hpc in Hit0. cbn in Hit0. subst it.
  destruct (slice_bounds w Hw) as (Hlo0 & Hlo1 & Hlo2).
  split; [lia|]. split; [|split].
  - intros x Hx. destruct (Z.eq_dec x w) as [->|Hne].
    + rewrite move_same. reflexivity.
    + rewrite move_other by exact Hne. now apply Hpcs.
  - intros x Hx. destruct (Z.eq_dec x w) as [->|Hne].
    + rewrite move_same. discriminate.
    + rewrite move_other by exact Hne. now apply Hbar.
  - eapply (grid_is_ext m n Hm Hn Hmn);
      [|apply (worker_init_frame _ v w Hw Hv)].
    + intros i j Hi Hj. cbn beta. destruct (owner_facts i Hi) as (Ho & Hin).
      unfold resting at 2.
      destruct (Z.eq_dec (owner m W i) w) as [E|E].
      * rewrite E in *. rewrite move_same.
        replace (lo w <=? i) with true by (symmetry; apply Z.leb_le; lia).
        replace (i <? lo (w + 1)) with true by (symmetry; apply Z.ltb_lt; lia).
        reflexivity.
      * rewrite move_other by exact E.
        destruct (Z.leb_spec (lo w) i) as [H1|H1];
          [destruct (Z.ltb_spec i (lo (w + 1))) as [H2|H2]|]; cbn [andb];
          try reflexivity.
        exfalso. apply E. apply (owner_unique m W HW); lia.
    + intros i j Hi Hj Hin. unfold resting.
      rewrite (owner_unique m W HW i w Hw Hin), Hpc. reflexivity.
Qed.

Lemma reset_preserves (it : Z) (v : grid) (fl : block) (pcs : Z -> pc) (w iter : Z) :
  resting_inv m n K W it v fl pcs -> 0 <= w < W -> pcs w = Reset iter ->
  iter < K ->
  resting_inv m n K W it v (upd fl w 0) (move pcs w (Bar1 iter)).
Proof.
  intros (Hit & Hpcs & Hbar & Hv) Hw Hpc Hlt.
  pose proof (Hpcs w Hw) as Hiter. rewrite Hpc in Hiter. cbn in Hiter. subst iter.
  split; [lia|]. split; [|split].
  - intros x Hx. destruct (Z.eq_dec x w) as [->|Hne].
    + rewrite move_same. cbn. lia.
    + rewrite move_other by exact Hne. now apply Hpcs.
  - intros x Hx. destruct (Z.eq_dec x w) as [->|Hne].
    + intros _. apply upd_same.
    + rewrite move_other, upd_other by exact Hne. now apply Hbar.
  - apply resting_move_plain; [now rewrite Hpc | exact I | exact Hv].
Qed.

Lemma leave_preserves (it : Z) (v : grid) (fl : block) (pcs : Z -> pc) (w iter : Z) :
  resting_inv m n K W it v fl pcs -> 0 <= w < W -> pcs w = Reset iter ->
  K <= iter ->
  resting_inv m n K W it v fl (move pcs w Done).
Proof.
  intros (Hit & Hpcs & Hbar & Hv) Hw Hpc Hge.
  pose proof (Hpcs w Hw) as Hiter. rewrite Hpc in Hiter. cbn in Hiter. subst iter.
  split; [lia|]. split; [|split].
  - intros x Hx. destruct (Z.eq_dec x w) as [->|Hne].
    + rewrite move_same. cbn. lia.
    + rewrite move_other by exact Hne. now apply Hpcs.
  - intros x Hx. destruct (Z.eq_dec x w) as [->|Hne].
    + rewrite move_same. discriminate.
    + rewrite move_other by exact Hne. now apply Hbar.
  - apply resting_move_plain; [now rewrite Hpc | exact I | exact Hv].
Qed.

Lemma feedback_preserves (it : Z) (v : grid) (fl : block) (pcs : Z -> pc) (w iter : Z) :
  resting_inv m n K W it v fl pcs -> 0 <= w < W -> pcs w = Feed iter ->
  resting_inv m n K W it (feedback m n v) fl (move pcs w (Reset (iter + 1))).
Proof.
  intros (Hit & Hpcs & Hbar & Hv) Hw Hpc.
  pose proof (Hpcs w Hw) as Hiter. rewrite Hpc in Hiter. cbn in Hiter.
  destruct Hiter as (-> & -> & Hit1).
  assert (Hplain : forall x, 0 <= x < W -> x <> 0 -> plain (pcs x)).
  { intros x Hx Hne. pose proof (Hpcs x Hx) as Hr.
    destruct (pcs x); cbn in *; try tauto; lia. }
  assert (Hval : forall i j, 0 <= i < m -> 0 <= j < n ->
            resting m n W it pcs i j
            = if (i =? 0) && (j =? 0) then grid_after m n (it - 1) 0 0
              else grid_after m n it i j).
  { intros i j Hi Hj. destruct (owner_facts i Hi) as (Ho & Hin).
    destruct (Z.eq_dec (owner m W i) 0) as [E|E].
    - unfold resting. rewrite E, Hpc. reflexivity.
    - rewrite resting_plain by (apply Hplain; assumption).
      destruct (Z.eqb_spec i 0) as [->|]; [|reflexivity].
      exfalso. apply E. apply owner_of_row_0. }
  split; [lia|]. split; [|split].
  - intros x Hx. destruct (Z.eq_dec x 0) as [->|Hne].
    + rewrite move_same. cbn. lia.
    + rewrite move_other by exact Hne. now apply Hpcs.
  - intros x Hx. destruct (Z.eq_dec x 0) as [->|Hne].
    + rewrite move_same. discriminate.
    + rewrite move_other by exact Hne. now apply Hbar.
  - pose proof (feedback_spec m n W malloc0 Hn HW Hmn _ v Hv) as Hfb.
    eapply (grid_is_ext m n Hm Hn Hmn); [|exact Hfb].
    intros i j Hi Hj. unfold put_cell.
    rewrite !Hval by lia.
    assert (Hnew : resting m n W it (move pcs 0 (Reset (it - 1 + 1))) i j
                   = grid_after m n it i j).
    { apply resting_plain. destruct (owner_facts i Hi) as (Ho & _).
      destruct (Z.eq_dec (owner m W i) 0) as [E|E].
      - rewrite E, move_same. exact I.
      - rewrite move_other by exact E. now apply Hplain. }
    rewrite Hnew. unfold grid_after, origin_after. same_cell.
Qed.

Lemma barrier1_preserves (it : Z) (v : grid) (fl : block) (pcs : Z -> pc) (iter : Z) :
  resting_inv m n K W it v fl pcs ->
  (forall w, 0 <= w < W -> pcs w = Bar1 iter) ->
  sweeping_inv m n K W it v fl
    (fun w => if (0 <=? w) && (w <? W) then Top iter 1 else pcs w).
Proof.
  intros (Hit & Hpcs & Hbar & Hv) Hall.
  pose proof (Hpcs 0 ltac:(lia)) as H0. rewrite (Hall 0) in H0 by lia. cbn in H0.
  destruct H0 as (-> & HitK).
  assert (Hin : forall w, 0 <= w < W -> ((0 <=? w) && (w <? W)) = true).
  { intros w Hw. apply andb_true_iff. rewrite Z.leb_le, Z.ltb_lt. lia. }
  split; [lia|]. split; [|split].
  - intros w Hw. rewrite (Hin w Hw). cbn. lia.
  - intros w Hw. rewrite (Hin w), (Hin (w + 1)) by lia.
    rewrite (Hbar w) by (try lia; apply Hall; lia).
    unfold handoff_ok. cbn. repeat split; try tauto; lia.
  - apply (grid_is_ext m n Hm Hn Hmn (resting m n W it pcs)); [|exact Hv].
    intros i j Hi Hj. destruct (owner_facts i Hi) as (Ho & _).
    rewrite resting_plain by (rewrite Hall by exact Ho; exact I).
    unfold sweeping. rewrite (Hin _ Ho). cbn [front]. same_cell.
Qed.

(** *** Steps inside the column loop *)

Lemma silent_move (it : Z) (v : grid) (fl : block) (pcs : Z -> pc) (w : Z) (p' : pc) :
  sweeping_inv m n K W it v fl pcs ->
  0 <= w < W ->
  column_pc m n W it w p' ->
  (0 < w -> consumed n p' = consumed n (pcs w)) ->
  (w < W - 1 -> published n p' = published n (pcs w)) ->
  (at_ClearL p' -> at_ClearL (pcs w) \/ fl (w - 1) = 1) ->
  (at_SetR p' -> at_SetR (pcs w) \/ fl w = 0) ->
  (forall i, 1 <= i -> lo w <= i < lo (w + 1) -> front n p' i = front n (pcs w) i) ->
  sweeping_inv m n K W it v fl (move pcs w p').
Proof.
  intros (Hit & Hcol & Hflags & Hv) Hw Hp Hcons Hpub Hclear Hset Hfront.
  split; [lia|]. split; [|split].
  - apply column_move; assumption.
  - apply (handoffs_move fl fl pcs w p' Hflags); try assumption; try reflexivity.
    + intros Hw0. pose proof (Hflags (w - 1) ltac:(lia)) as Hold.
      replace (w - 1 + 1) with w in Hold by lia.
      destruct Hold as (Hf & H01 & Hcl & Hst). unfold handoff_ok.
      rewrite Hcons by exact Hw0. repeat split; try assumption.
      intros Hc. destruct (Hclear Hc) as [Hc'|Hc']; [now apply Hcl | exact Hc'].
    + intros Hw1. pose proof (Hflags w ltac:(lia)) as (Hf & H01 & Hcl & Hst).
      unfold handoff_ok. rewrite Hpub by exact Hw1. repeat split; try assumption.
      intros Hs. destruct (Hset Hs) as [Hs'|Hs']; [now apply Hst | exact Hs'].
  - apply sweeping_move_same_front; assumption.
Qed.

Lemma clear_left_preserves
  (it : Z) (v : grid) (fl : block) (pcs : Z -> pc) (w iter j : Z) :
  sweeping_inv m n K W it v fl pcs -> 0 <= w < W -> pcs w = ClearL iter j ->
  sweeping_inv m n K W it v (upd fl (w - 1) 0)
    (move pcs w (Comp iter j (MAX (start_ slices w) 1))).
Proof.
  intros (Hit & Hcol & Hflags & Hv) Hw Hpc.
  pose proof (Hcol w Hw) as Hcw. rewrite Hpc in Hcw. cbn in Hcw.
  destruct Hcw as (-> & Hj & Hw0).
  destruct (slice_bounds w Hw) as (Hlo0 & Hlo1 & Hlo2).
  unfold slices. rewrite (slice_start m n W malloc0 Hn HW Hmn w Hw), MAX_spec.
  split; [lia|]. split; [|split].
  - apply column_move; [assumption|]. cbn. lia.
  - apply (handoffs_move fl _ pcs w _ Hflags); try assumption.
    + intros x H1 H2. apply upd_other. exact H1.
    + intros _. rewrite upd_same.
      pose proof (Hflags (w - 1) ltac:(lia)) as Hold.
      replace (w - 1 + 1) with w in Hold by lia. rewrite Hpc in Hold.
      destruct Hold as (Hf & H01 & Hcl & Hst). cbn in Hf.
      pose proof (Hcl I) as H1.
      unfold handoff_ok. cbn. repeat split; try tauto; lia.
    + intros Hw1. rewrite upd_other by lia.
      pose proof (Hflags w ltac:(lia)) as Hold. rewrite Hpc in Hold.
      destruct Hold as (Hf & H01 & Hcl & Hst).
      unfold handoff_ok. cbn in *. repeat split; try tauto; lia.
  - apply sweeping_move_same_front; try assumption.
    intros i Hi Hin. rewrite Hpc. cbn. destruct (Z.ltb_spec i (Z.max (lo w) 1)); lia.
Qed.

Lemma set_right_preserves
  (it : Z) (v : grid) (fl : block) (pcs : Z -> pc) (w iter j : Z) :
  sweeping_inv m n K W it v fl pcs -> 0 <= w < W -> pcs w = SetR iter j ->
  sweeping_inv m n K W it v (upd fl w 1) (move pcs w (Top iter (j + 1))).
Proof.
  intros (Hit & Hcol & Hflags & Hv) Hw Hpc.
  pose proof (Hcol w Hw) as Hcw. rewrite Hpc in Hcw. cbn in Hcw.
  destruct Hcw as (-> & Hj & Hw1).
  split; [lia|]. split; [|split].
  - apply column_move; [assumption|]. cbn. lia.
  - apply (handoffs_move fl _ pcs w _ Hflags); try assumption.
    + intros x H1 H2. apply upd_other. exact H2.
    + intros Hw0. rewrite upd_other by lia.
      pose proof (Hflags (w - 1) ltac:(lia)) as Hold.
      replace (w - 1 + 1) with w in Hold by lia. rewrite Hpc in Hold.
      destruct Hold as (Hf & H01 & Hcl & Hst).
      unfold handoff_ok. cbn in *. repeat split; try tauto; lia.
    + intros _. rewrite upd_same.
      pose proof (Hflags w ltac:(lia)) as Hold. rewrite Hpc in Hold.
      destruct Hold as (Hf & H01 & Hcl & Hst). cbn in Hf.
      pose proof (Hst I) as H0.
      unfold handoff_ok. cbn. repeat split; try tauto; lia.
  - apply sweeping_move_same_front; try assumption.
    intros i Hi Hin. rewrite Hpc. reflexivity.
Qed.

Lemma cell_preserves
  (it : Z) (v : grid) (fl : block) (pcs : Z -> pc) (w iter j i : Z) :
  sweeping_inv m n K W it v fl pcs -> 0 <= w < W -> pcs w = Comp iter j i ->
  i <= end_ W slices w ->
  sweeping_inv m n K W it (stencil m i j v) fl (move pcs w (Comp iter j (i + 1))).
Proof.
  intros (Hit & Hcol & Hflags & Hv) Hw Hpc Hi.
  pose proof (Hcol w Hw) as Hcw. rewrite Hpc in Hcw. cbn in Hcw.
  destruct Hcw as (-> & Hj & Hi1 & Hi2).
  unfold slices in *. rewrite (slice_end m n W malloc0 Hn HW Hmn w Hw) in Hi.
  split; [lia|]. split; [|split].
  - apply column_move; [assumption|]. cbn. lia.
  - apply (handoffs_move fl fl pcs w _ Hflags); try assumption; try reflexivity.
    + intros Hw0. pose proof (Hflags (w - 1) ltac:(lia)) as Hold.
      replace (w - 1 + 1) with w in Hold by lia. rewrite Hpc in Hold. exact Hold.
    + intros Hw1. pose proof (Hflags w ltac:(lia)) as Hold.
      rewrite Hpc in Hold. exact Hold.
  - apply (cell_step it pcs fl w j i v); try assumption; lia.
Qed.

Lemma barrier2_preserves (it : Z) (v : grid) (fl : block) (pcs : Z -> pc) (iter : Z) :
  sweeping_inv m n K W it v fl pcs ->
  (forall w, 0 <= w < W -> pcs w = Bar2 iter) ->
  resting_inv m n K W (it + 1) v fl
    (fun w => if (0 <=? w) && (w <? W)
              then (if w =? 0 then Feed iter else Reset (iter + 1))
              else pcs w).
Proof.
  intros (Hit & Hcol & Hflags & Hv) Hall.
  pose proof (Hcol 0 ltac:(lia)) as H0. rewrite (Hall 0) in H0 by lia. cbn in H0.
  subst iter.
  assert (Hin : forall w, 0 <= w < W -> ((0 <=? w) && (w <? W)) = true).
  { intros w Hw. apply andb_true_iff. rewrite Z.leb_le, Z.ltb_lt. lia. }
  split; [lia|]. split; [|split].
  - intros w Hw. rewrite (Hin w Hw). destruct (Z.eqb_spec w 0); cbn; lia.
  - intros w Hw. rewrite (Hin w Hw). destruct (w =? 0); discriminate.
  - apply (grid_is_ext m n Hm Hn Hmn (sweeping m n W it pcs)); [|exact Hv].
    intros i j Hi Hj. destruct (owner_facts i Hi) as (Ho & Hrows).
    unfold sweeping, resting. rewrite (Hall _ Ho), (Hin _ Ho). cbn [front].
    replace (it + 1 - 1) with it by lia.
    destruct (Z.eqb_spec (owner m W i) 0) as [E|E].
    + unfold grid_after, origin_after. same_cell.
    + assert (i <> 0) by (intros ->; apply E, owner_of_row_0).
      unfold grid_after, origin_after. same_cell.
Qed.

Lemma column_wait_preserves
  (it : Z) (v : grid) (fl : block) (pcs : Z -> pc) (w iter j : Z) :
  sweeping_inv m n K W it v fl pcs -> 0 <= w < W -> pcs w = Top iter j ->
  j < n -> w > 0 ->
  sweeping_inv m n K W it v fl (move pcs w (WaitL iter j)).
Proof.
  intros Hinv Hw Hpc Hj Hw0.
  pose proof (proj1 (proj2 Hinv) w Hw) as Hcw. rewrite Hpc in Hcw. cbn in Hcw.
  apply silent_move; try assumption; rewrite ?Hpc; cbn; try tauto; lia.
Qed.

Lemma column_first_preserves
  (it : Z) (v : grid) (fl : block) (pcs : Z -> pc) (w iter j : Z) :
  sweeping_inv m n K W it v fl pcs -> 0 <= w < W -> pcs w = Top iter j ->
  j < n -> w <= 0 ->
  sweeping_inv m n K W it v fl (move pcs w (Comp iter j (MAX (start_ slices w) 1))).
Proof.
  intros Hinv Hw Hpc Hj Hw0.
  pose proof (proj1 (proj2 Hinv) w Hw) as Hcw. rewrite Hpc in Hcw. cbn in Hcw.
  destruct (slice_bounds w Hw) as (Hlo0 & Hlo1 & Hlo2).
  unfold slices. rewrite (slice_start m n W malloc0 Hn HW Hmn w Hw), MAX_spec.
  apply silent_move; try assumption; rewrite ?Hpc; cbn; try tauto; try lia.
  intros i Hi Hin. destruct (Z.ltb_spec i (Z.max (lo w) 1)); lia.
Qed.

Lemma columns_done_preserves
  (it : Z) (v : grid) (fl : block) (pcs : Z -> pc) (w iter j : Z) :
  sweeping_inv m n K W it v fl pcs -> 0 <= w < W -> pcs w = Top iter j ->
  n <= j ->
  sweeping_inv m n K W it v fl (move pcs w (Bar2 iter)).
Proof.
  intros Hinv Hw Hpc Hj.
  pose proof (proj1 (proj2 Hinv) w Hw) as Hcw. rewrite Hpc in Hcw. cbn in Hcw.
  apply silent_move; try assumption; rewrite ?Hpc; cbn; try tauto; lia.
Qed.

Lemma seen_left_preserves
  (it : Z) (v : grid) (fl : block) (pcs : Z -> pc) (w iter j : Z) :
  sweeping_inv m n K W it v fl pcs -> 0 <= w < W -> pcs w = WaitL iter j ->
  fl (w - 1) <> 0 ->
  sweeping_inv m n K W it v fl (move pcs w (ClearL iter j)).
Proof.
  intros Hinv Hw Hpc Hfl.
  pose proof (proj1 (proj2 Hinv) w Hw) as Hcw. rewrite Hpc in Hcw. cbn in Hcw.
  pose proof (proj1 (proj2 (proj2 Hinv)) (w - 1) ltac:(lia)) as (_ & H01 & _).
  apply silent_move; try assumption; rewrite ?Hpc; cbn; try tauto; try lia;
    intros _; right; lia.
Qed.

Lemma rows_done_publish_preserves
  (it : Z) (v : grid) (fl : block) (pcs : Z -> pc) (w iter j i : Z) :
  sweeping_inv m n K W it v fl pcs -> 0 <= w < W -> pcs w = Comp iter j i ->
  end_ W slices w < i -> w < W - 1 ->
  sweeping_inv m n K W it v fl (move pcs w (WaitR iter j)).
Proof.
  intros Hinv Hw Hpc Hi Hw1.
  pose proof (proj1 (proj2 Hinv) w Hw) as Hcw. rewrite Hpc in Hcw. cbn in Hcw.
  unfold slices in *. rewrite (slice_end m n W malloc0 Hn HW Hmn w Hw) in Hi.
  apply silent_move; try assumption; rewrite ?Hpc; cbn; try tauto; try lia.
  intros i' Hi' Hin. destruct (Z.ltb_spec i' i); lia.
Qed.

Lemma rows_done_last_preserves
  (it : Z) (v : grid) (fl : block) (pcs : Z -> pc) (w iter j i : Z) :
  sweeping_inv m n K W it v fl pcs -> 0 <= w < W -> pcs w = Comp iter j i ->
  end_ W slices w < i -> W - 1 <= w ->
  sweeping_inv m n K W it v fl (move pcs w (Top iter (j + 1))).
Proof.
  intros Hinv Hw Hpc Hi Hw1.
  pose proof (proj1 (proj2 Hinv) w Hw) as Hcw. rewrite Hpc in Hcw. cbn in Hcw.
  unfold slices in *. rewrite (slice_end m n W malloc0 Hn HW Hmn w Hw) in Hi.
  apply silent_move; try assumption; rewrite ?Hpc; cbn; try tauto; try lia.
  intros i' Hi' Hin. destruct (Z.ltb_spec i' i); lia.
Qed.

Lemma seen_right_preserves
  (it : Z) (v : grid) (fl : block) (pcs : Z -> pc) (w iter j : Z) :
  sweeping_inv m n K W it v fl pcs -> 0 <= w < W -> pcs w = WaitR iter j ->
  fl w <> 1 ->
  sweeping_inv m n K W it v fl (move pcs w (SetR iter j)).
Proof.
  intros Hinv Hw Hpc Hfl.
  pose proof (proj1 (proj2 Hinv) w Hw) as Hcw. rewrite Hpc in Hcw. cbn in Hcw.
  pose proof (proj1 (proj2 (proj2 Hinv)) w ltac:(lia)) as (_ & H01 & _).
  apply silent_move; try assumption; rewrite ?Hpc; cbn; try tauto; try lia;
    intros _; right; lia.
Qed.

(** A worker between the column loops is at no point of the column loop,
    and conversely. *)
Ltac phase_clash :=
  match goal with
  | HA : resting_inv _ _ _ _ _ _ _ ?pcs, Hpc : ?pcs ?w = _, Hw : 0 <= ?w < _ |- _ =>
    let X := fresh in
    pose proof (proj1 (proj2 HA) w Hw) as X; rewrite Hpc in X; cbn in X; tauto
  | HB : sweeping_inv _ _ _ _ _ _ _ ?pcs, Hpc : ?pcs ?w = _, Hw : 0 <= ?w < _ |- _ =>
    let X := fresh in
    pose proof (proj1 (proj2 HB) w Hw) as X; rewrite Hpc in X; cbn in X; tauto
  | HA : resting_inv _ _ _ ?W _ _ _ ?pcs,
    Hall : forall w, 0 <= w < ?W -> ?pcs w = _ |- _ =>
    let X := fresh in
    let Y := fresh in
    assert (Y : 0 <= 0 < W) by lia;
    pose proof (proj1 (proj2 HA) 0 Y) as X; rewrite (Hall 0 Y) in X;
    cbn in X; tauto
  | HB : sweeping_inv _ _ _ ?W _ _ _ ?pcs,
    Hall : forall w, 0 <= w < ?W -> ?pcs w = _ |- _ =>
    let X := fresh in
    let Y := fresh in
    assert (Y : 0 <= 0 < W) by lia;
    pose proof (proj1 (proj2 HB) 0 Y) as X; rewrite (Hall 0 Y) in X;
    cbn in X; tauto
  end.

Theorem step_preserves_invariant (t t' : team) :
  team_invariant m n K W t -> step m n K W slices t t' ->
  team_invariant m n K W t'.
Proof.
  intros [it [HA|HB]] Hstep; inversion Hstep; subst; unfold team_invariant;
    cbn [t_vector t_flag t_pc] in *; try solve [phase_clash].
  - exists it. left. eapply init_preserves; eassumption.
  - exists it. left. eapply reset_preserves; eassumption.
  - exists it. left. eapply leave_preserves; eassumption.
  - exists it. right. eapply barrier1_preserves; eassumption.
  - exists it. left. eapply feedback_preserves; eassumption.
  - exists it. right. eapply column_wait_preserves; eassumption.
  - exists it. right. eapply column_first_preserves; eassumption.
  - exists it. right. eapply columns_done_preserves; eassumption.
  - exists it. right. eapply seen_left_preserves; eassumption.
  - exists it. right. eapply clear_left_preserves; eassumption.
  - exists it. right. eapply cell_preserves; eassumption.
  - exists it. right. eapply rows_done_publish_preserves; eassumption.
  - exists it. right. eapply rows_done_last_preserves; eassumption.
  - exists it. right. eapply seen_right_preserves; eassumption.
  - exists it. right. eapply set_right_preserves; eassumption.
  - exists (it + 1). left. eapply barrier2_preserves; eassumption.
Qed.

Theorem reachable_invariant (t : team) :
  reachable m n K W slices t -> team_invariant m n K W t.
Proof.
  induction 1 as [flag0|t t' _ IH Hstep].
  - exists 0. left. split; [lia|]. split; [|split]; cbn.
    + intros w Hw. reflexivity.
    + intros w Hw. discriminate.
    + apply (grid_is_ext m n Hm Hn Hmn (fun _ _ => (0, O)));
        [|apply (vector0_is m n Hm Hn Hmn)].
      intros i j Hi Hj. reflexivity.
  - exact (step_preserves_invariant t t' IH Hstep).
Qed.

(** Every run of the protocol that brings all the workers past the
    iteration loop leaves the grid of [K] trips. *)
Theorem finished_grid (t : team) :
  reachable m n K W slices t -> finished W t ->
  grid_is m n (grid_after m n K) (t_vector t).
Proof.
  intros Hreach Hfin.
  destruct (reachable_invariant t Hreach) as [it [HA|HB]].
  - destruct HA as (Hit & Hpcs & _ & Hv).
    pose proof (Hpcs 0 ltac:(lia)) as H0. rewrite (Hfin 0) in H0 by lia.
    cbn in H0. subst it.
    apply (grid_is_ext m n Hm Hn Hmn (resting m n W K (t_pc t))); [|exact Hv].
    intros i j Hi Hj. apply resting_plain.
    destruct (owner_facts i Hi) as (Ho & _). rewrite (Hfin _ Ho). exact I.
  - destruct HB as (_ & Hcol & _).
    pose proof (Hcol 0 ltac:(lia)) as H0. rewrite (Hfin 0) in H0 by lia.
    cbn in H0. tauto.
Qed.

(** *** No deadlock *)

Lemma last_worker (P : Z -> Prop) (k : nat) :
  (forall w, P w \/ ~ P w) ->
  (forall w, 0 <= w < Z.of_nat k -> ~ P w)
  \/ exists w, 0 <= w < Z.of_nat k /\ P w
               /\ forall w', w < w' < Z.of_nat k -> ~ P w'.
Proof.
  intros Hdec. induction k as [|k IH].
  - left. intros w Hw. lia.
  - destruct (Hdec (Z.of_nat k)) as [Hk|Hk].
    + right. exists (Z.of_nat k). split; [lia|]. split; [exact Hk|].
      intros w' Hw'. lia.
    + destruct IH as [Hnone|[w (Hw & HP & Hlast)]].
      * left. intros w Hw. destruct (Z.eq_dec w (Z.of_nat k)) as [->|];
          [exact Hk | apply Hnone; lia].
      * right. exists w. split; [lia|]. split; [exact HP|].
        intros w' Hw'. destruct (Z.eq_dec w' (Z.of_nat k)) as [->|];
          [exact Hk | apply Hlast; lia].
Qed.

(** Inside the column loop: a worker that is not at the barrier and is
    not held by its own flag can move, or a worker to its left can. *)
Lemma left_chain_moves (it : Z) (v : grid) (fl : block) (pcs : Z -> pc) (k : nat) :
  sweeping_inv m n K W it v fl pcs ->
  Z.of_nat k < W ->
  (forall iter, pcs (Z.of_nat k) <> Bar2 iter) ->
  (forall iter j, pcs (Z.of_nat k) = WaitR iter j -> fl (Z.of_nat k) <> 1) ->
  exists t', step m n K W slices (Team v fl pcs) t'.
Proof.
  intros Hinv. pose proof Hinv as (Hit & Hcol & Hflags & Hv).
  induction k as [|k IH]; intros Hk Hnb Hnr.
  - pose proof (Hcol 0 ltac:(lia)) as Hc. cbn [Z.of_nat] in *.
    destruct (pcs 0) as [| | |iter j|iter j|iter j|iter j i|iter j|iter j|iter| |] eqn:Hpc;
      cbn in Hc; try tauto; try lia.
    + destruct (Z_lt_le_dec j n).
      * eexists. apply (step_column_first _ _ _ _ _ v fl pcs 0 iter j); (lia || assumption).
      * eexists. apply (step_columns_done _ _ _ _ _ v fl pcs 0 iter j); (lia || assumption).
    + destruct (Z_le_gt_dec i (end_ W slices 0)).
      * eexists. apply (step_cell _ _ _ _ _ v fl pcs 0 iter j i); (lia || assumption).
      * destruct (Z_lt_le_dec 0 (W - 1)).
        -- eexists. apply (step_rows_done_publish _ _ _ _ _ v fl pcs 0 iter j i);
             (lia || assumption).
        -- eexists. apply (step_rows_done_last _ _ _ _ _ v fl pcs 0 iter j i);
             (lia || assumption).
    + eexists. apply (step_seen_right _ _ _ _ _ v fl pcs 0 iter j);
        [lia | assumption | eapply Hnr; reflexivity].
    + eexists. apply (step_set_right _ _ _ _ _ v fl pcs 0 iter j); (lia || assumption).
    + exfalso. apply (Hnb iter). reflexivity.
  - remember (Z.of_nat (S k)) as w eqn:Ew.
    assert (Hw : 0 <= w < W) by lia.
    pose proof (Hcol w Hw) as Hc.
    destruct (pcs w) as [| | |iter j|iter j|iter j|iter j i|iter j|iter j|iter| |] eqn:Hpc;
      cbn in Hc; try tauto.
    + destruct (Z_lt_le_dec j n).
      * eexists. apply (step_column_wait _ _ _ _ _ v fl pcs w iter j); (lia || assumption).
      * eexists. apply (step_columns_done _ _ _ _ _ v fl pcs w iter j); (lia || assumption).
    + destruct (Z.eq_dec (fl (w - 1)) 0) as [Hzero|Hset].
      * assert (Hprev : Z.of_nat k = w - 1) by lia.
        pose proof (Hflags (w - 1) ltac:(lia)) as (Hf & H01 & _).
        replace (w - 1 + 1) with w in Hf by lia. rewrite Hpc in Hf. cbn in Hf.
        apply IH; rewrite ?Hprev;
          [ lia
          | intros iter' E; rewrite E in Hf; cbn in Hf; lia
          | intros iter' j' _; lia ].
      * eexists. apply (step_seen_left _ _ _ _ _ v fl pcs w iter j); (lia || assumption).
    + eexists. apply (step_clear_left _ _ _ _ _ v fl pcs w iter j); (lia || assumption).
    + destruct (Z_le_gt_dec i (end_ W slices w)).
      * eexists. apply (step_cell _ _ _ _ _ v fl pcs w iter j i); (lia || assumption).
      * destruct (Z_lt_le_dec w (W - 1)).
        -- eexists. apply (step_rows_done_publish _ _ _ _ _ v fl pcs w iter j i);
             (lia || assumption).
        -- eexists. apply (step_rows_done_last _ _ _ _ _ v fl pcs w iter j i);
             (lia || assumption).
    + eexists. apply (step_seen_right _ _ _ _ _ v fl pcs w iter j);
        [lia | assumption | eapply Hnr; reflexivity].
    + eexists. apply (step_set_right _ _ _ _ _ v fl pcs w iter j); (lia || assumption).
    + exfalso. apply (Hnb iter). reflexivity.
Qed.

Lemma resting_moves (it : Z) (v : grid) (fl : block) (pcs : Z -> pc) :
  resting_inv m n K W it v fl pcs ->
  finished W (Team v fl pcs) \/ exists t', step m n K W slices (Team v fl pcs) t'.
Proof.
  intros (Hit & Hpcs & Hbar & Hv).
  set (busy := fun w => match pcs w with
                        | Init | Reset _ | Feed _ => True
                        | _ => False
                        end).
  destruct (last_worker busy (Z.to_nat W)) as [Hnone|[w (Hw & Hbusy & _)]].
  { intros w. unfold busy. destruct (pcs w); tauto. }
  - rewrite Z2Nat.id in Hnone by lia.
    destruct (Z_lt_le_dec it K) as [Hlt|Hge].
    + right. eexists. apply (step_barrier1 _ _ _ _ _ v fl pcs it).
      intros w Hw. pose proof (Hpcs w Hw) as Hr. pose proof (Hnone w Hw) as Hb.
      unfold busy in Hb.
      destruct (pcs w); cbn in Hr; try tauto; try lia.
      destruct Hr as [-> _]. reflexivity.
    + left. intros w Hw. cbn [t_pc].
      pose proof (Hpcs w Hw) as Hr. pose proof (Hnone w Hw) as Hb.
      unfold busy in Hb.
      destruct (pcs w); cbn in Hr; try tauto; lia.
  - rewrite Z2Nat.id in Hw by lia. right. unfold busy in Hbusy.
    destruct (pcs w) as [|iter| | | | | | | | |iter|] eqn:Hpc; try tauto.
    + eexists. apply (step_init _ _ _ _ _ v fl pcs w); assumption.
    + destruct (Z_lt_le_dec iter K).
      * eexists. apply (step_reset _ _ _ _ _ v fl pcs w iter); assumption.
      * eexists. apply (step_leave _ _ _ _ _ v fl pcs w iter); assumption.
    + eexists. apply (step_feedback _ _ _ _ _ v fl pcs w iter); assumption.
Qed.

Lemma sweeping_moves (it : Z) (v : grid) (fl : block) (pcs : Z -> pc) :
  sweeping_inv m n K W it v fl pcs ->
  exists t', step m n K W slices (Team v fl pcs) t'.
Proof.
  intros Hinv. pose proof Hinv as (Hit & Hcol & Hflags & Hv).
  set (working := fun w => forall iter, pcs w <> Bar2 iter).
  destruct (last_worker working (Z.to_nat W)) as [Hnone|[w (Hw & Hwork & Hlast)]].
  { intros w. unfold working. destruct (pcs w) as [| | | | | | | | |iter| |];
      try (left; intros; discriminate).
    right. intros H. apply (H iter). reflexivity. }
  - rewrite Z2Nat.id in Hnone by lia.
    eexists. apply (step_barrier2 _ _ _ _ _ v fl pcs it).
    intros w Hw. pose proof (Hcol w Hw) as Hc. pose proof (Hnone w Hw) as Hb.
    unfold working in Hb.
    destruct (pcs w); try (exfalso; apply Hb; intros; discriminate).
    cbn in Hc. now subst.
  - rewrite Z2Nat.id in Hw, Hlast by lia.
    apply (left_chain_moves it v fl pcs (Z.to_nat w) Hinv);
      rewrite ?Z2Nat.id by lia; [lia | exact Hwork |].
    intros iter j Hpc.
    pose proof (Hcol w Hw) as Hc. rewrite Hpc in Hc. cbn in Hc.
    pose proof (Hflags w ltac:(lia)) as (Hf & H01 & _). rewrite Hpc in Hf.
    pose proof (Hlast (w + 1) ltac:(lia)) as Hnext. unfold working in Hnext.
    destruct (pcs (w + 1)); try (exfalso; apply Hnext; intros; discriminate).
    cbn in Hf. lia.
Qed.

(** The protocol cannot get stuck: from a reachable state either every
    worker is past the iteration loop, or a step is possible. *)
Theorem no_deadlock (t : team) :
  team_invariant m n K W t ->
  finished W t \/ exists t', step m n K W slices t t'.
Proof.
  destruct t as [v fl pcs]. intros [it [HA|HB]]; cbn [t_vector t_flag t_pc] in *.
  - exact (resting_moves it v fl pcs HA).
  - right. exact (sweeping_moves it v fl pcs HB).
Qed.

(** *** Termination *)

Lemma costs :
  column_cost m = m + 8
  /\ trip_cost m n = n * column_cost m + column_cost m + 10
  /\ 0 < column_cost m /\ 0 < trip_cost m n.
Proof. unfold trip_cost, column_cost. repeat split; nia. Qed.

Lemma move_increases (v v' : grid) (fl fl' : block) (pcs : Z -> pc) (w : Z) (p' : pc) :
  0 <= w < W ->
  progress m n K (pcs w) < progress m n K p' ->
  team_progress m n K W (Team v fl pcs)
  < team_progress m n K W (Team v' fl' (move pcs w p')).
Proof.
  intros Hw Hlt. unfold team_progress. cbn [t_pc].
  apply (sum_over_lt _ _ _ w).
  - intros x Hx. destruct (Z.eq_dec x w) as [->|Hne].
    + rewrite move_same. lia.
    + rewrite move_other by exact Hne. lia.
  - lia.
  - rewrite move_same. exact Hlt.
Qed.

Ltac opaque_costs :=
  destruct costs as (HC & HI & HC0 & HI0);
  generalize dependent (trip_cost m n); generalize dependent (column_cost m);
  intros.

Theorem step_increases_progress (t t' : team) :
  team_invariant m n K W t -> step m n K W slices t t' ->
  team_progress m n K W t < team_progress m n K W t'.
Proof.
  intros [it [HA|HB]] Hstep; inversion Hstep; subst;
    cbn [t_vector t_flag t_pc] in *; try solve [phase_clash];
    try (apply move_increases; [assumption|];
         match goal with
         | Hpc : ?pcs ?w = _, Hw : 0 <= ?w < W |- _ =>
           first [ pose proof (proj1 (proj2 HA) w Hw) as Hwf;
                   pose proof (proj1 HA) as Hrange
                 | pose proof (proj1 (proj2 HB) w Hw) as Hwf;
                   pose proof (proj1 HB) as Hrange ];
           rewrite Hpc in *; cbn in Hwf
         end;
         try (destruct (slice_bounds w ltac:(assumption)) as (Hlo0 & Hlo1 & Hlo2));
         unfold slices; rewrite ?MAX_spec; cbn [progress];
         opaque_costs; nia).
  - (* first barrier *)
    match goal with
    | Hall : forall w : Z, 0 <= w < W -> pcs w = _ |- _ => rename Hall into H
    end.
    unfold team_progress. cbn [t_pc].
    apply (sum_over_lt _ _ _ 0); [| lia |].
    + intros x Hx. rewrite Z2Nat.id in Hx by lia.
      replace ((0 <=? x) && (x <? W)) with true
        by (symmetry; apply andb_true_iff; rewrite Z.leb_le, Z.ltb_lt; lia).
      rewrite H by lia. cbn [progress]. opaque_costs. lia.
    + replace ((0 <=? 0) && (0 <? W)) with true
        by (symmetry; apply andb_true_iff; rewrite Z.leb_le, Z.ltb_lt; lia).
      rewrite H by lia. cbn [progress]. opaque_costs. lia.
  - (* second barrier *)
    match goal with
    | Hall : forall w : Z, 0 <= w < W -> pcs w = _ |- _ => rename Hall into H
    end.
    unfold team_progress. cbn [t_pc].
    apply (sum_over_lt _ _ _ 0); [| lia |].
    + intros x Hx. rewrite Z2Nat.id in Hx by lia.
      replace ((0 <=? x) && (x <? W)) with true
        by (symmetry; apply andb_true_iff; rewrite Z.leb_le, Z.ltb_lt; lia).
      rewrite H by lia. destruct (x =? 0); cbn [progress]; opaque_costs; lia.
    + replace ((0 <=? 0) && (0 <? W)) with true
        by (symmetry; apply andb_true_iff; rewrite Z.leb_le, Z.ltb_lt; lia).
      rewrite H by lia. cbn [Z.eqb progress]. opaque_costs. lia.
Qed.

Lemma progress_bounded (t : team) :
  team_invariant m n K W t ->
  team_progress m n K W t <= W * (2 + K * trip_cost m n).
Proof.
  intros Hinv. unfold team_progress.
  replace W with (Z.of_nat (Z.to_nat W)) at 2 by lia.
  apply sum_over_bound. intros w Hw. rewrite Z2Nat.id in Hw by lia.
  destruct Hinv as [it [HA|HB]].
  - destruct HA as (Hit & Hpcs & _). pose proof (Hpcs w Hw) as Hwf.
    destruct (t_pc t w); cbn in Hwf; try tauto; cbn [progress];
      opaque_costs; nia.
  - destruct HB as (Hit & Hcol & _). pose proof (Hcol w Hw) as Hwf.
    destruct (slice_bounds w Hw) as (Hlo0 & Hlo1 & Hlo2).
    destruct (t_pc t w); cbn in Hwf; try tauto; cbn [progress];
      opaque_costs; nia.
Qed.

Lemma runs_to_reachable (t t' : team) :
  runs_to m n K W slices t t' ->
  reachable m n K W slices t -> reachable m n K W slices t'.
Proof.
  induction 1 as [t|t t1 t2 Hstep _ IH]; intros Hreach; [exact Hreach|].
  apply IH. exact (reach_step _ _ _ _ _ t t1 Hreach Hstep).
Qed.

(** Every schedule can be carried on to the end: from a reachable state,
    some run of the protocol brings all the workers past the iteration
    loop, and no run is longer than the measure allows. *)
Theorem run_completes (t : team) :
  team_invariant m n K W t ->
  exists t', runs_to m n K W slices t t' /\ finished W t'.
Proof.
  set (bound := W * (2 + K * trip_cost m n)).
  assert (Hgen : forall (fuel : nat) (t : team),
             team_invariant m n K W t ->
             bound - team_progress m n K W t <= Z.of_nat fuel ->
             exists t', runs_to m n K W slices t t' /\ finished W t').
  { induction fuel as [|fuel IH]; intros t0 Hinv Hfuel.
    - destruct (no_deadlock t0 Hinv) as [Hfin|[t1 Hstep]].
      + exists t0. split; [constructor | exact Hfin].
      + pose proof (step_increases_progress t0 t1 Hinv Hstep).
        pose proof (progress_bounded t1 (step_preserves_invariant t0 t1 Hinv Hstep)).
        unfold bound in *. lia.
    - destruct (no_deadlock t0 Hinv) as [Hfin|[t1 Hstep]].
      + exists t0. split; [constructor | exact Hfin].
      + pose proof (step_increases_progress t0 t1 Hinv Hstep).
        destruct (IH t1 (step_preserves_invariant t0 t1 Hinv Hstep)
                    ltac:(unfold bound in *; lia))
          as [t2 [Hruns Hfin]].
        exists t2. split; [|exact Hfin].
        exact (runs_on _ _ _ _ _ t0 t1 t2 Hstep Hruns). }
  intros Hinv.
  apply (Hgen (Z.to_nat (bound - team_progress m n K W t)) t Hinv).
  pose proof (progress_bounded t Hinv). unfold bound. lia.
Qed.

End ProtocolProof.

(** ** One worker against [m] workers *)

Section ProtocolRun.

Context {D : Type} {ops : DoubleOps D}.
Variables (MAX_THREADS MEMWORDS : Z).
Variable c : config.
Variable e : env D.
Variable malloc0 : block.
Hypothesis Hvalid : valid_run MAX_THREADS MEMWORDS c e malloc0.

(** Whatever the schedule, a run of the protocol that ends leaves in
    [vector] what the workers leave when taken in pipeline order. *)
Lemma protocol_final_grid (t : team) :
  reachable (c_m c) (c_n c) (c_iterations c) (c_nthread_input c)
    (partition (c_m c) (c_nthread_input c) malloc0) t ->
  finished (c_nthread_input c) t ->
  forall k, load (t_vector t) k = load (final_grid c e malloc0) k.
Proof.
  intros Hreach Hfin.
  destruct (valid_facts MAX_THREADS MEMWORDS false c e malloc0 Hvalid)
    as (HW & Hn & HK & Hmn & _).
  assert (Hm1 : 1 <= c_m c) by lia.
  assert (HK0 : 0 <= c_iterations c) by lia.
  apply (grid_is_unique (c_m c) (c_n c) Hm1 Hn Hmn
           (grid_after (c_m c) (c_n c) (c_iterations c))).
  - apply (finished_grid (c_m c) (c_n c) (c_iterations c) (c_nthread_input c)
             malloc0 Hn HW Hmn HK0 t Hreach Hfin).
  - exact (final_grid_is MAX_THREADS MEMWORDS false c e malloc0 Hvalid).
Qed.

(** And the protocol does end: from the entry of the region, whatever the
    flags hold, some run brings every worker past the iteration loop. *)
Lemma protocol_completes (flag0 : block) :
  exists t,
    reachable (c_m c) (c_n c) (c_iterations c) (c_nthread_input c)
      (partition (c_m c) (c_nthread_input c) malloc0) t
    /\ finished (c_nthread_input c) t.
Proof.
  destruct (valid_facts MAX_THREADS MEMWORDS false c e malloc0 Hvalid)
    as (HW & Hn & HK & Hmn & _).
  assert (HK0 : 0 <= c_iterations c) by lia.
  assert (Hentry : reachable (c_m c) (c_n c) (c_iterations c) (c_nthread_input c)
                     (partition (c_m c) (c_nthread_input c) malloc0)
                     (Team vector0 flag0 (fun _ => Init))) by constructor.
  pose proof (reachable_invariant (c_m c) (c_n c) (c_iterations c)
                (c_nthread_input c) malloc0 Hn HW Hmn HK0 _ Hentry) as Hinv.
  destruct (run_completes (c_m c) (c_n c) (c_iterations c) (c_nthread_input c)
              malloc0 Hn HW Hmn HK0 _ Hinv) as [t [Hruns Hfin]].
  exists t. split; [|exact Hfin].
  exact (runs_to_reachable (c_m c) (c_n c) (c_iterations c) (c_nthread_input c)
           malloc0 Hn HW Hmn HK0 _ _ Hruns Hentry).
Qed.

End ProtocolRun.

(** C6. For valid [m], [n] and [iterations], the run with one worker and
    the run with [m] workers end with the same value in every cell of
    [vector], hence with the same far corner and the same verdict of the
    verification.  This holds for the workers taken in pipeline order
    ([final_grid]), and for the handoff protocol itself: under every
    interleaving of the workers' steps that brings them all past the
    iteration loop, with one worker as with [m], [vector] ends the same;
    and from the entry of the region such an end can always be reached. *)
Theorem one_worker_and_m_workers_agree
  {D : Type} {ops : DoubleOps D} (MAX_THREADS MEMWORDS : Z)
  (K m n : Z) (e1 e2 : env D) (malloc1 malloc2 : block) :
  valid_run MAX_THREADS MEMWORDS (Config 1 K m n) e1 malloc1 ->
  valid_run MAX_THREADS MEMWORDS (Config m K m n) e2 malloc2 ->
  let v1 := final_grid (Config 1 K m n) e1 malloc1 in
  let v2 := final_grid (Config m K m n) e2 malloc2 in
  (forall k, load v1 k = load v2 k)
  /\ far_corner (Config 1 K m n) v1 = far_corner (Config m K m n) v2
  /\ checksum_fails (Config 1 K m n) v1 = checksum_fails (Config m K m n) v2
  /\ (forall t1 t2,
        reachable m n K 1 (partition m 1 malloc1) t1 -> finished 1 t1 ->
        reachable m n K m (partition m m malloc2) t2 -> finished m t2 ->
        forall k, load (t_vector t1) k = load (t_vector t2) k)
  /\ (exists t1, reachable m n K 1 (partition m 1 malloc1) t1 /\ finished 1 t1)
  /\ (exists t2, reachable m n K m (partition m m malloc2) t2 /\ finished m t2).
Proof.
  intros H1 H2 v1 v2.
  destruct (valid_facts MAX_THREADS MEMWORDS false _ _ _ H1) as (HW & Hn & _ & Hmn & _).
  cbn [c_m c_n c_nthread_input] in HW, Hn, Hmn.
  assert (Hm1 : 1 <= m) by lia.
  assert (Hsame : forall k, load v1 k = load v2 k).
  { apply (grid_is_unique m n Hm1 Hn Hmn (grid_after m n K)).
    - exact (final_grid_is MAX_THREADS MEMWORDS false _ _ _ H1).
    - exact (final_grid_is MAX_THREADS MEMWORDS false _ _ _ H2). }
  split; [exact Hsame|]. split; [|split; [|split; [|split]]].
  - unfold far_corner. cbn [c_m c_n]. apply Hsame.
  - unfold checksum_fails, corner_val. cbn [c_m c_n c_iterations].
    now rewrite Hsame.
  - intros t1 t2 Hr1 Hf1 Hr2 Hf2 k.
    rewrite (protocol_final_grid MAX_THREADS MEMWORDS _ e1 malloc1 H1 t1 Hr1 Hf1).
    rewrite (protocol_final_grid MAX_THREADS MEMWORDS _ e2 malloc2 H2 t2 Hr2 Hf2).
    apply Hsame.
  - exact (protocol_completes MAX_THREADS MEMWORDS _ e1 malloc1 H1 (fun _ => 0)).
  - exact (protocol_completes MAX_THREADS MEMWORDS _ e2 malloc2 H2 (fun _ => 0)).
Qed.

(** The theorem on a 3 by 4 grid and three iterations. *)
Lemma one_worker_and_m_workers_agree_witness :
  (valid_run 512 1000000 (Config 1 3 3 4) (example_env 1) (fun _ => 0)
   /\ valid_run 512 1000000 (Config 3 3 3 4) (example_env 3) (fun _ => 0))
  /\ forall k,
       load (final_grid (Config 1 3 3 4) (example_env 1) (fun _ => 0)) k
       = load (final_grid (Config 3 3 3 4) (example_env 3) (fun _ => 0)) k.
Proof.
  assert (H1 : valid_run 512 1000000 (Config 1 3 3 4) (example_env 1) (fun _ => 0))
    by valid_example.
  assert (H2 : valid_run 512 1000000 (Config 3 3 3 4) (example_env 3) (fun _ => 0))
    by valid_example.
  split; [exact (conj H1 H2)|].
  exact (proj1 (one_worker_and_m_workers_agree 512 1000000 3 3 4
                  (example_env 1) (example_env 3) (fun _ => 0) (fun _ => 0) H1 H2)).
Defined.

(** * More of the pipeline kernel *)

(** ** The rest of the tests on the command line *)

(** X1. What the tests on a command line of four arguments come to.  The
    configuration is accepted exactly when [1 <= nthread_input <=
    MAX_THREADS], [iterations >= 1], [n >= 1], [nthread_input <= m], and
    [m*n] is within both [int] and [MEMWORDS]; the configuration run is
    then the one given.  And line 140 overflows, leaving the tests that
    follow it without a defined result, exactly when the tests before it
    pass and [m*n] exceeds [INT_MAX]. *)
Theorem configuration_accepted_iff
  {D : Type} {ops : DoubleOps D} (MAX_THREADS MEMWORDS : Z)
  (progname : string) (W K m n : Z) :
  (check_args (D := D) MAX_THREADS MEMWORDS progname [W; K; m; n]
   = Some (inr (Config W K m n))
   <-> 1 <= W <= MAX_THREADS /\ 1 <= K /\ 1 <= n /\ W <= m
       /\ m * n <= CInt.INT_MAX /\ m * n <= MEMWORDS)
  /\ (check_args (D := D) MAX_THREADS MEMWORDS progname [W; K; m; n] = None
      <-> 1 <= W <= MAX_THREADS /\ 1 <= K /\ 1 <= m /\ 1 <= n
          /\ m * n > CInt.INT_MAX)
  /\ (forall c,
        check_args (D := D) MAX_THREADS MEMWORDS progname [W; K; m; n]
        = Some (inr c) ->
        c = Config W K m n).
Proof.
  split; [split|split].
  - intros E. apply check_args_inr in E. destruct E as [_ Hacc].
    destruct Hacc as (HW & HK & HWm & Hn1 & Hr & Hmem).
    cbn [c_nthread_input c_iterations c_m c_n] in *.
    rewrite in_range_unfold in Hr. unfold CInt.INT_MAX. lia.
  - intros (HW & HK & Hn1 & HWm & Hfit & Hmem).
    apply (check_args_accepts MAX_THREADS MEMWORDS progname (Config W K m n)).
    unfold accepted. cbn [c_nthread_input c_iterations c_m c_n].
    repeat (split; [lia|]). split; [|lia].
    rewrite in_range_unfold. unfold CInt.INT_MAX in Hfit. nia.
  - rewrite check_args_none. rewrite in_range_unfold. unfold CInt.INT_MAX.
    split.
    + intros (HW & HK & Hm & Hn & Hout). repeat (split; [lia|]). nia.
    + intros (HW & HK & Hm & Hn & Hout). repeat (split; [lia|]). lia.
  - intros c E. apply check_args_inr in E. destruct E as [Eargs _].
    destruct c as [W' K' m' n']. cbn in Eargs. now injection Eargs as -> -> -> ->.
Qed.

(** The theorem on [p2p 4 5 100 100], accepted, and on
    [p2p 1 1 65536 65536], where line 140 overflows. *)
Lemma configuration_accepted_iff_witness :
  check_args (D := float) 512 1000000 "p2p" [4; 5; 100; 100]
  = Some (inr (Config 4 5 100 100))
  /\ check_args (D := float) 512 1000000 "p2p" [1; 1; 65536; 65536] = None.
Proof.
  split.
  - apply (proj1 (configuration_accepted_iff 512 1000000 "p2p" 4 5 100 100)).
    unfold CInt.INT_MAX. repeat split; lia.
  - apply (proj1 (proj2 (configuration_accepted_iff 512 1000000 "p2p"
                           1 1 65536 65536))).
    unfold CInt.INT_MAX. repeat split; lia.
Defined.

(** X2. A command line with another number of arguments than four, a thread
    count outside [1 .. MAX_THREADS], an iteration count below 1, or a
    dimension below 1, ends the program at once with the matching
    diagnostic, the tests being taken in this order; nothing is asked of
    the environment and the grid is left untouched. *)
Theorem bad_arguments_rejected
  {D : Type} {ops : DoubleOps D} (MAX_THREADS MEMWORDS : Z) (VERBOSE : bool)
  (progname : string) (e : env D) :
  (forall args, List.length args <> 4%nat ->
     main MAX_THREADS MEMWORDS VERBOSE progname args e
     = Exited EXIT_FAILURE [Usage progname] vector0)
  /\ (forall W K m n, W < 1 \/ W > MAX_THREADS ->
        main MAX_THREADS MEMWORDS VERBOSE progname [W; K; m; n] e
        = Exited EXIT_FAILURE [InvalidThreads W] vector0)
  /\ (forall W K m n, 1 <= W <= MAX_THREADS -> K < 1 ->
        main MAX_THREADS MEMWORDS VERBOSE progname [W; K; m; n] e
        = Exited EXIT_FAILURE [InvalidIterations K] vector0)
  /\ (forall W K m n, 1 <= W <= MAX_THREADS -> 1 <= K -> m < 1 \/ n < 1 ->
        main MAX_THREADS MEMWORDS VERBOSE progname [W; K; m; n] e
        = Exited EXIT_FAILURE [InvalidDimensions m n] vector0).
Proof.
  repeat apply conj.
  - intros args Hlen. unfold main, check_args.
    destruct args as [|W [|K [|m [|n [|x args]]]]]; try reflexivity.
    now contradiction Hlen.
  - intros W K m n HW. unfold main, check_args.
    replace ((W <? 1) || (W >? MAX_THREADS)) with true; [reflexivity|].
    symmetry. apply orb_true_iff.
    destruct HW; [left; apply Z.ltb_lt | right; apply Z.gtb_lt]; lia.
  - intros W K m n HW HK. unfold main, check_args.
    replace ((W <? 1) || (W >? MAX_THREADS)) with false.
    + replace (K <? 1) with true by (symmetry; apply Z.ltb_lt; lia). reflexivity.
    + symmetry. apply orb_false_iff.
      split; [apply Z.ltb_ge | rewrite Z.gtb_ltb; apply Z.ltb_ge]; lia.
  - intros W K m n HW HK Hmn. unfold main, check_args.
    replace ((W <? 1) || (W >? MAX_THREADS)) with false.
    + replace (K <? 1) with false by (symmetry; apply Z.ltb_ge; lia).
      replace ((m <? 1) || (n <? 1)) with true; [reflexivity|].
      symmetry. apply orb_true_iff.
      destruct Hmn; [left | right]; apply Z.ltb_lt; lia.
    + symmetry. apply orb_false_iff.
      split; [apply Z.ltb_ge | rewrite Z.gtb_ltb; apply Z.ltb_ge]; lia.
Qed.

Lemma bad_arguments_rejected_witness :
  main 512 1000000 false "p2p" [4; 0; 100; 100] (example_env 4)
  = Exited EXIT_FAILURE [InvalidIterations 0] vector0.
Proof.
  assert (HW : 1 <= 4 <= 512) by lia.
  assert (HK : 0 < 1) by lia.
  exact (proj1 (proj2 (proj2 (bad_arguments_rejected 512 1000000 false "p2p"
                                (example_env 4)))) 4 0 100 100 HW HK).
Defined.

(** ** What the environment can refuse *)

(** X3. When [malloc] returns a null pointer for the slice table, an accepted
    configuration ends with the allocation diagnostic and [EXIT_FAILURE],
    before the parallel region. *)
Theorem allocation_failure_exits
  {D : Type} {ops : DoubleOps D} (MAX_THREADS MEMWORDS : Z) (VERBOSE : bool)
  (progname : string) (c : config) (e : env D) :
  accepted MAX_THREADS MEMWORDS c ->
  malloc_result e = None ->
  main MAX_THREADS MEMWORDS VERBOSE progname
    [c_nthread_input c; c_iterations c; c_m c; c_n c] e
  = Exited EXIT_FAILURE [SliceAllocationFailed] vector0.
Proof.
  intros Hacc Hnull. unfold main.
  rewrite (check_args_accepts _ _ _ _ Hacc). now rewrite Hnull.
Qed.

Lemma allocation_failure_exits_witness :
  (accepted 512 1000000 (Config 2 3 3 4)
   /\ malloc_result (Env None 2 (fun _ => PrimFloat.zero)) = None)
  /\ main 512 1000000 false "p2p" [2; 3; 3; 4] (Env None 2 (fun _ => PrimFloat.zero))
     = Exited EXIT_FAILURE [SliceAllocationFailed] vector0.
Proof.
  assert (Ha : accepted 512 1000000 (Config 2 3 3 4))
    by (unfold accepted, CInt.in_range, CInt.INT_MIN, CInt.INT_MAX; cbn;
        repeat split; lia).
  assert (Hn : malloc_result (Env None 2 (fun _ => PrimFloat.zero)) = None)
    by reflexivity.
  split; [exact (conj Ha Hn)|].
  exact (allocation_failure_exits 512 1000000 false "p2p" (Config 2 3 3 4)
           (Env None 2 (fun _ => PrimFloat.zero)) Ha Hn).
Defined.

(** X4. When the runtime spawns another number of threads than was asked for,
    the master prints the banner and the mismatch, and the program ends
    with [EXIT_FAILURE]: no cell of the grid is stored to, the clock is not
    read, and neither the verification nor the report is reached. *)
Theorem spawn_mismatch_exits
  {D : Type} {ops : DoubleOps D} (MAX_THREADS MEMWORDS : Z) (VERBOSE : bool)
  (progname : string) (c : config) (e : env D) (malloc0 : block) :
  accepted MAX_THREADS MEMWORDS c ->
  malloc_result e = Some malloc0 ->
  omp_get_num_threads e <> c_nthread_input c ->
  main MAX_THREADS MEMWORDS VERBOSE progname
    [c_nthread_input c; c_iterations c; c_m c; c_n c] e
  = Exited EXIT_FAILURE
      [Banner; SpawnMismatch (c_nthread_input c) (omp_get_num_threads e)] vector0.
Proof.
  intros Hacc Hmalloc Hne. unfold main.
  rewrite (check_args_accepts _ _ _ _ Hacc), Hmalloc.
  unfold run_and_report, bail_out.
  apply Z.eqb_neq in Hne. rewrite Hne. reflexivity.
Qed.

Lemma spawn_mismatch_exits_witness :
  (accepted 512 1000000 (Config 2 3 3 4)
   /\ malloc_result (example_env 1) = Some (fun _ => 0)
   /\ omp_get_num_threads (example_env 1) <> c_nthread_input (Config 2 3 3 4))
  /\ main 512 1000000 false "p2p" [2; 3; 3; 4] (example_env 1)
     = Exited EXIT_FAILURE [Banner; SpawnMismatch 2 1] vector0.
Proof.
  assert (Ha : accepted 512 1000000 (Config 2 3 3 4))
    by (unfold accepted, CInt.in_range, CInt.INT_MIN, CInt.INT_MAX; cbn;
        repeat split; lia).
  assert (Hm : malloc_result (example_env 1) = Some (fun _ => 0)) by reflexivity.
  assert (Hne : omp_get_num_threads (example_env 1) <> c_nthread_input (Config 2 3 3 4))
    by (cbn; lia).
  split; [exact (conj Ha (conj Hm Hne))|].
  exact (spawn_mismatch_exits 512 1000000 false "p2p" (Config 2 3 3 4)
           (example_env 1) (fun _ => 0) Ha Hm Hne).
Defined.

(** ** The whole grid after each trip *)

(** X5. Every interior cell after [k >= 1] trips through the iteration loop:
    [cell(i,j) = i + j + (k-1)*(n+m-2)]; at the entry of the loop the
    interior is zero.  Stated for the runs whose cells binary64 holds
    exactly ([iterations*(n+m-2)] below 2^52). *)
Theorem interior_cells_after_trips
  {D : Type} {ops : DoubleOps D} (MAX_THREADS MEMWORDS : Z)
  (c : config) (e : env D) (malloc0 : block) (k i j : Z) :
  valid_run MAX_THREADS MEMWORDS c e malloc0 ->
  exact_cells c ->
  0 <= k <= c_iterations c -> 1 <= i < c_m c -> 1 <= j < c_n c ->
  load (grid_at_trip c e malloc0 k) (ARRAY (c_m c) i j)
  = if k =? 0 then 0 else i + j + (k - 1) * (c_n c + c_m c - 2).
Proof.
  intros Hvalid _ Hk Hi Hj.
  destruct (valid_facts MAX_THREADS MEMWORDS false c e malloc0 Hvalid)
    as (HW & Hn & HK & Hmn & _).
  assert (Hm1 : 1 <= c_m c) by lia.
  pose proof (grid_at_trip_is MAX_THREADS MEMWORDS false c e malloc0 Hvalid k
                ltac:(lia)) as Hg.
  rewrite (grid_is_load (c_m c) (c_n c) Hm1 Hn Hmn _ _ _ _ Hg) by lia.
  unfold grid_after. same_cell.
Qed.

Lemma interior_cells_after_trips_witness :
  (valid_run 512 1000000 (Config 2 3 3 4) (example_env 2) (fun _ => 0)
   /\ exact_cells (Config 2 3 3 4)
   /\ 0 <= 2 <= c_iterations (Config 2 3 3 4)
   /\ 1 <= 1 < c_m (Config 2 3 3 4) /\ 1 <= 2 < c_n (Config 2 3 3 4))
  /\ load (grid_at_trip (Config 2 3 3 4) (example_env 2) (fun _ => 0) 2)
       (ARRAY (c_m (Config 2 3 3 4)) 1 2) = 8.
Proof.
  assert (Hv : valid_run 512 1000000 (Config 2 3 3 4) (example_env 2) (fun _ => 0))
    by valid_example.
  assert (Hk : 0 <= 2 <= c_iterations (Config 2 3 3 4)) by (cbn; lia).
  assert (Hi : 1 <= 1 < c_m (Config 2 3 3 4)) by (cbn; lia).
  assert (Hj : 1 <= 2 < c_n (Config 2 3 3 4)) by (cbn; lia).
  assert (Hx : exact_cells (Config 2 3 3 4)) by reflexivity.
  split; [exact (conj Hv (conj Hx (conj Hk (conj Hi Hj))))|].
  exact (interior_cells_after_trips 512 1000000 (Config 2 3 3 4) (example_env 2)
           (fun _ => 0) 2 1 2 Hv Hx Hk Hi Hj).
Defined.

(** X6. How often each cell is stored to.  After [k] trips an interior cell
    has received [1 + k] stores (it is cleared once and computed once per
    trip) and the origin [3 + k] (cleared, seeded as the head of row 0 and
    of column 0, then fed back once per trip); an element of [vector]
    outside the grid has received none. *)
Theorem stores_per_cell
  {D : Type} {ops : DoubleOps D} (MAX_THREADS MEMWORDS : Z)
  (c : config) (e : env D) (malloc0 : block) (k : Z) :
  valid_run MAX_THREADS MEMWORDS c e malloc0 ->
  0 <= k <= c_iterations c ->
  let v := grid_at_trip c e malloc0 k in
  (forall i j, 1 <= i < c_m c -> 1 <= j < c_n c ->
     write_count v (ARRAY (c_m c) i j) = (1 + Z.to_nat k)%nat)
  /\ write_count v (ARRAY (c_m c) 0 0) = (3 + Z.to_nat k)%nat
  /\ (forall x, x < 0 \/ c_m c * c_n c <= x -> write_count v x = O).
Proof.
  intros Hvalid Hk v.
  destruct (valid_facts MAX_THREADS MEMWORDS false c e malloc0 Hvalid)
    as (HW & Hn & HK & Hmn & _).
  assert (Hm1 : 1 <= c_m c) by lia.
  pose proof (grid_at_trip_is MAX_THREADS MEMWORDS false c e malloc0 Hvalid k
                ltac:(lia)) as Hg.
  fold v in Hg. split; [|split].
  - intros i j Hi Hj.
    rewrite (grid_is_write_count _ _ _ _ _ _ Hmn Hg) by lia.
    unfold grid_after. same_cell.
  - rewrite (grid_is_write_count _ _ _ _ _ _ Hmn Hg) by lia.
    unfold grid_after. same_cell.
  - intros x Hx. destruct Hg as [_ Hout]. now destruct (Hout x Hx).
Qed.

Lemma stores_per_cell_witness :
  (valid_run 512 1000000 (Config 2 3 3 4) (example_env 2) (fun _ => 0)
   /\ 0 <= 3 <= c_iterations (Config 2 3 3 4))
  /\ write_count (grid_at_trip (Config 2 3 3 4) (example_env 2) (fun _ => 0) 3)
       (ARRAY (c_m (Config 2 3 3 4)) 0 0) = 6%nat.
Proof.
  assert (Hv : valid_run 512 1000000 (Config 2 3 3 4) (example_env 2) (fun _ => 0))
    by valid_example.
  assert (Hk : 0 <= 3 <= c_iterations (Config 2 3 3 4)) by (cbn; lia).
  split; [exact (conj Hv Hk)|].
  exact (proj1 (proj2 (stores_per_cell 512 1000000 (Config 2 3 3 4) (example_env 2)
                         (fun _ => 0) 3 Hv Hk))).
Defined.

(** X7. The recurrence once a trip is over.  After each trip every interior
    cell other than [(1,1)] equals [cell(i-1,j) + cell(i,j-1) -
    cell(i-1,j-1)] on the grid as it stands; cell [(1,1)] was computed from
    the origin of before line 254, and on the grid as it stands falls
    short of the recurrence by [n+m-2].  Stated for the runs whose cells
    binary64 holds exactly ([iterations*(n+m-2)] below 2^52), where line
    225 does not round. *)
Theorem recurrence_after_trip
  {D : Type} {ops : DoubleOps D} (MAX_THREADS MEMWORDS : Z)
  (c : config) (e : env D) (malloc0 : block) (k : Z) :
  valid_run MAX_THREADS MEMWORDS c e malloc0 ->
  exact_cells c ->
  1 <= k <= c_iterations c ->
  let cell i j := load (grid_at_trip c e malloc0 k) (ARRAY (c_m c) i j) in
  (forall i j, 1 <= i < c_m c -> 1 <= j < c_n c -> (i, j) <> (1, 1) ->
     cell i j = cell (i - 1) j + cell i (j - 1) - cell (i - 1) (j - 1))
  /\ (2 <= c_m c -> 2 <= c_n c ->
      cell 1 1 = cell 0 1 + cell 1 0 - cell 0 0 - (c_n c + c_m c - 2)).
Proof.
  intros Hvalid _ Hk cell.
  destruct (valid_facts MAX_THREADS MEMWORDS false c e malloc0 Hvalid)
    as (HW & Hn & HK & Hmn & _).
  assert (Hm1 : 1 <= c_m c) by lia.
  pose proof (grid_at_trip_is MAX_THREADS MEMWORDS false c e malloc0 Hvalid k
                ltac:(lia)) as Hg.
  assert (Hcell : forall i j, 0 <= i < c_m c -> 0 <= j < c_n c ->
            cell i j = fst (grid_after (c_m c) (c_n c) k i j)).
  { intros i j Hi Hj. unfold cell.
    now rewrite (grid_is_load (c_m c) (c_n c) Hm1 Hn Hmn _ _ _ _ Hg). }
  split.
  - intros i j Hi Hj Hne.
    assert (Hij : i <> 1 \/ j <> 1).
    { destruct (Z.eq_dec i 1) as [->|]; [|now left].
      destruct (Z.eq_dec j 1) as [->|]; [now contradiction Hne | now right]. }
    rewrite !Hcell by lia. unfold grid_after, origin_after.
    destruct (Z.eq_dec i 1) as [->|Hi1]; destruct (Z.eq_dec j 1) as [->|Hj1];
      [lia | | |]; same_cell.
  - intros Hm2 Hn2. rewrite !Hcell by lia. unfold grid_after, origin_after.
    same_cell.
Qed.

Lemma recurrence_after_trip_witness :
  (valid_run 512 1000000 (Config 2 3 3 4) (example_env 2) (fun _ => 0)
   /\ exact_cells (Config 2 3 3 4)
   /\ 1 <= 2 <= c_iterations (Config 2 3 3 4))
  /\ load (grid_at_trip (Config 2 3 3 4) (example_env 2) (fun _ => 0) 2)
       (ARRAY (c_m (Config 2 3 3 4)) 1 1)
     = load (grid_at_trip (Config 2 3 3 4) (example_env 2) (fun _ => 0) 2)
         (ARRAY (c_m (Config 2 3 3 4)) 0 1)
       + load (grid_at_trip (Config 2 3 3 4) (example_env 2) (fun _ => 0) 2)
           (ARRAY (c_m (Config 2 3 3 4)) 1 0)
       - load (grid_at_trip (Config 2 3 3 4) (example_env 2) (fun _ => 0) 2)
           (ARRAY (c_m (Config 2 3 3 4)) 0 0)
       - (c_n (Config 2 3 3 4) + c_m (Config 2 3 3 4) - 2).
Proof.
  assert (Hv : valid_run 512 1000000 (Config 2 3 3 4) (example_env 2) (fun _ => 0))
    by valid_example.
  assert (Hk : 1 <= 2 <= c_iterations (Config 2 3 3 4)) by (cbn; lia).
  assert (Hm2 : 2 <= c_m (Config 2 3 3 4)) by (cbn; lia).
  assert (Hn2 : 2 <= c_n (Config 2 3 3 4)) by (cbn; lia).
  assert (Hx : exact_cells (Config 2 3 3 4)) by reflexivity.
  split; [exact (conj Hv (conj Hx Hk))|].
  exact (proj2 (recurrence_after_trip 512 1000000 (Config 2 3 3 4) (example_env 2)
                  (fun _ => 0) 2 Hv Hx Hk) Hm2 Hn2).
Defined.

(** ** The verification value beyond [int] *)

(** X8. A valid run has no defined outcome exactly when its verification
    value cannot be computed in [int]: line 265 adds [n] and [m], takes 2
    off and multiplies by [iterations], and when the sum or the product
    exceeds [INT_MAX] the operation overflows, which C leaves undefined.
    Every other valid run ends with a status and its lines. *)
Theorem overflowing_verification_undefined
  {D : Type} {ops : DoubleOps D} (MAX_THREADS MEMWORDS : Z) (VERBOSE : bool)
  (progname : string) (c : config) (e : env D) (malloc0 : block) :
  valid_run MAX_THREADS MEMWORDS c e malloc0 ->
  let overflows :=
    c_n c + c_m c > CInt.INT_MAX
    \/ c_iterations c * (c_n c + c_m c - 2) > CInt.INT_MAX in
  (corner_val c = None <-> overflows)
  /\ (main MAX_THREADS MEMWORDS VERBOSE progname
        [c_nthread_input c; c_iterations c; c_m c; c_n c] e = Undefined
      <-> overflows).
Proof.
  intros Hvalid overflows.
  destruct (valid_facts MAX_THREADS MEMWORDS false c e malloc0 Hvalid)
    as (HW & Hn & HK & _).
  assert (Hdec : overflows
                 \/ (c_n c + c_m c <= CInt.INT_MAX
                     /\ c_iterations c * (c_n c + c_m c - 2) <= CInt.INT_MAX))
    by (unfold overflows; lia).
  destruct Hdec as [Hover|[Hsum Hfits]].
  - destruct (run_overflow MAX_THREADS MEMWORDS VERBOSE c e malloc0 Hvalid
                progname Hover) as [Ecv Emain].
    split; split; auto.
  - split; split.
    + rewrite (corner_val_some c ltac:(lia) ltac:(lia) Hn Hsum Hfits). discriminate.
    + unfold overflows. lia.
    + rewrite (run_outcome MAX_THREADS MEMWORDS VERBOSE c e malloc0 Hvalid
                 Hsum Hfits progname).
      cbv zeta. destruct (_ >? _); discriminate.
    + unfold overflows. lia.
Qed.

(** The theorem on [p2p 1 1073741824 2 2]: the product is [2^31]. *)
Lemma overflowing_verification_undefined_witness :
  valid_run 512 1000000 (Config 1 1073741824 2 2) (example_env 1) (fun _ => 0)
  /\ main 512 1000000 false "p2p" [1; 1073741824; 2; 2] (example_env 1) = Undefined.
Proof.
  assert (Hv : valid_run 512 1000000 (Config 1 1073741824 2 2) (example_env 1)
                 (fun _ => 0)) by valid_example.
  assert (Ho : c_n (Config 1 1073741824 2 2) + c_m (Config 1 1073741824 2 2)
               > CInt.INT_MAX
               \/ c_iterations (Config 1 1073741824 2 2)
                  * (c_n (Config 1 1073741824 2 2)
                     + c_m (Config 1 1073741824 2 2) - 2) > CInt.INT_MAX)
    by (right; unfold CInt.INT_MAX; cbn; lia).
  split; [exact Hv|].
  exact (proj2 (proj2 (overflowing_verification_undefined 512 1000000 false "p2p"
                         (Config 1 1073741824 2 2) (example_env 1) (fun _ => 0) Hv))
           Ho).
Defined.

(** ** The text of the lines *)

(** X9. Every line the program prints, diagnostics included, ends with a
    newline, whatever the conversions [%d] and [%lf] produce. *)
Theorem every_line_ends_with_newline
  {D : Type} (show_d : Z -> string) (show_lf : D -> string)
  (show_cell : Z -> string) (l : line D) :
  exists s, render show_d show_lf show_cell l = (s ++ nl)%string.
Proof.
  destruct l; cbv beta iota delta [render];
    rewrite <- ?append_assoc; eexists; reflexivity.
Qed.

(** ** The protocol: frames, races, handoffs, progress *)

(** A loop whose trips each keep a transitive relation to the state they
    start from extends it: what was related to the loop's first state is
    related to its last. *)
Lemma for_range_related {S : Type} (R : S -> S -> Prop) (body : Z -> S -> S)
  (lo : Z) (cnt : nat) (s0 s : S) :
  (forall s1 s2 s3, R s1 s2 -> R s2 s3 -> R s1 s3) ->
  R s0 s ->
  (forall i t, lo <= i < lo + Z.of_nat cnt -> R t (body i t)) ->
  R s0 (for_range body lo cnt s).
Proof.
  intros Htrans H0 Hbody.
  apply (for_range_inv (fun _ t => R s0 t) body cnt lo s H0).
  intros i t Hi Ht. exact (Htrans _ _ _ Ht (Hbody i t Hi)).
Qed.

Lemma for_lt_related {S : Type} (R : S -> S -> Prop) (body : Z -> S -> S)
  (lo hi : Z) (s0 s : S) :
  (forall s1 s2 s3, R s1 s2 -> R s2 s3 -> R s1 s3) ->
  R s0 s ->
  (forall i t, lo <= i < hi -> R t (body i t)) ->
  R s0 (for_lt lo hi body s).
Proof.
  intros Htrans H0 Hbody. unfold for_lt.
  apply for_range_related; [exact Htrans | exact H0|].
  intros i t Hi. apply Hbody. lia.
Qed.

Lemma for_le_related {S : Type} (R : S -> S -> Prop) (body : Z -> S -> S)
  (lo hi : Z) (s0 s : S) :
  (forall s1 s2 s3, R s1 s2 -> R s2 s3 -> R s1 s3) ->
  R s0 s ->
  (forall i t, lo <= i <= hi -> R t (body i t)) ->
  R s0 (for_le lo hi body s).
Proof.
  intros Htrans H0 Hbody. unfold for_le.
  apply for_range_related; [exact Htrans | exact H0|].
  intros i t Hi. apply Hbody. lia.
Qed.

Lemma same_at_refl (k : Z) (v : grid) : same_at k v v.
Proof. split; reflexivity. Qed.

Lemma same_at_trans (k : Z) (v1 v2 v3 : grid) :
  same_at k v1 v2 -> same_at k v2 v3 -> same_at k v1 v3.
Proof. intros [H1 H2] [H3 H4]. split; congruence. Qed.

Lemma same_at_store (k a x : Z) (v : grid) : k <> a -> same_at k v (store v a x).
Proof.
  intros Hne. split.
  - rewrite load_store. now destruct (Z.eqb_spec k a).
  - rewrite write_count_store. now destruct (Z.eqb_spec k a).
Qed.

(** X10. A step stores only where a worker's point announces it: a cell that is
    in no worker's [grid_stores_next] keeps its content and its number of
    stores. *)
Theorem step_stores_where_announced
  (m n K W : Z) (slices : block) (t t' : team) (k : Z) :
  1 <= n ->
  step m n K W slices t t' ->
  (forall w, 0 <= w < W -> ~ grid_stores_next m n W slices w (t_pc t w) k) ->
  load (t_vector t') k = load (t_vector t) k
  /\ write_count (t_vector t') k = write_count (t_vector t) k.
Proof.
  intros Hn Hstep Hfree.
  inversion Hstep; subst; cbn [t_vector t_pc] in *;
    try (split; reflexivity);
    match goal with
    | Hw : 0 <= ?w < W, Hpc : ?pcs ?w = _ |- _ =>
      pose proof (Hfree w Hw) as Hk; rewrite Hpc in Hk;
      cbn [grid_stores_next] in Hk
    end.
  - (* lines 195-198 *)
    change (same_at k v (worker_init m n W slices w v)).
    assert (Hclear : same_at k v (clear_slice m n W slices w v)).
    { unfold clear_slice.
      apply for_lt_related; [apply same_at_trans | apply same_at_refl|].
      intros j t0 Hj.
      apply for_le_related; [apply same_at_trans | apply same_at_refl|].
      intros i t1 Hi. apply same_at_store. intros ->. apply Hk. left.
      exists i, j. repeat split; lia. }
    unfold worker_init, seed_column, seed_row.
    apply for_le_related; [apply same_at_trans | |].
    + destruct (Z.eqb_spec w 0) as [E|E]; [|exact Hclear].
      apply for_lt_related; [apply same_at_trans | exact Hclear|].
      intros j t0 Hj. apply same_at_store. intros ->. apply Hk. right.
      split; [exact E|]. exists j. split; [lia | reflexivity].
    + intros i t0 Hi. apply same_at_store. intros ->. apply Hk. left.
      exists i, 0. repeat split; lia.
  - (* line 225 *)
    apply same_at_store. intros ->. apply Hk. split; [assumption | reflexivity].
  - (* line 254 *)
    apply same_at_store. intros ->. apply Hk. reflexivity.
Qed.

(** Two workers on a 3 by 4 grid, worker 1 past lines 195-198: worker 0
    runs them, storing to its rows 0 and 1, and cell [(2,1)] of worker 1,
    at index 5, keeps its content and its count. *)
Lemma step_stores_where_announced_witness :
  exists t t',
    t_pc t 0 = Init
    /\ step 3 4 3 2 (partition 3 2 (fun _ => 0)) t t'
    /\ t_vector t' <> t_vector t
    /\ write_count (t_vector t') 5 = write_count (t_vector t) 5.
Proof.
  pose (slices := partition 3 2 (fun _ => 0)).
  pose (v1 := worker_init 3 4 2 slices 1 vector0).
  pose (pcs := move (fun _ => Init) 1 (Reset 0)).
  pose (t := Team v1 (fun _ => 0) pcs).
  pose (t' := Team (worker_init 3 4 2 slices 0 v1) (fun _ => 0)
                (move pcs 0 (Reset 0))).
  assert (Hn : 1 <= 4) by lia.
  assert (Hstep : step 3 4 3 2 slices t t')
    by (apply step_init; [lia | reflexivity]).
  assert (Hfree : forall w, 0 <= w < 2 ->
                    ~ grid_stores_next 3 4 2 slices w (t_pc t w) 5).
  { intros w Hw. assert (E : w = 0 \/ w = 1) by lia.
    destruct E as [->| ->]; [|intros H; exact H].
    change (t_pc t 0) with Init. cbn [grid_stores_next].
    change (start_ slices 0) with 0. change (end_ 2 slices 0) with 1.
    assert (Hmn : 3 * 4 <= CInt.INT_MAX) by (unfold CInt.INT_MAX; lia).
    intros [(i & j & Hi & Hj & E)|(_ & j & Hj & E)].
    - rewrite (ARRAY_index 3 4 i j Hmn) in E by lia. lia.
    - rewrite (ARRAY_index 3 4 0 j Hmn) in E by lia. lia. }
  exists t, t'. split; [reflexivity|]. split; [exact Hstep|]. split.
  - intros E. apply (f_equal (fun v => write_count v 0)) in E.
    vm_compute in E. discriminate E.
  - exact (proj2 (step_stores_where_announced 3 4 3 2 slices t t' 5
                    Hn Hstep Hfree)).
Defined.

Section ProtocolFacts.

#[local] Set Default Proof Using "All".

Variables (m n K W : Z).
Variable malloc0 : block.
Hypothesis Hn : 1 <= n.
Hypothesis HW : 1 <= W <= m.
Hypothesis Hmn : m * n <= CInt.INT_MAX.
Hypothesis HK : 0 <= K.

Let slices := partition m W malloc0.

(** Rows of two workers: the left worker's rows come first, and two
    adjacent rows of different workers are the last row of one slice and
    the first of the next. *)
Lemma rows_of_two_workers (w w' i i' : Z) :
  0 <= w < W -> 0 <= w' < W -> w < w' ->
  slice_lo m W w <= i < slice_lo m W (w + 1) ->
  slice_lo m W w' <= i' < slice_lo m W (w' + 1) ->
  i < i' /\ (i + 1 = i' -> w' = w + 1).
Proof.
  intros Hw Hw' Hlt Hi Hi'.
  destruct (Z.eq_dec (w + 1) w') as [E|E].
  - subst w'. split; [lia | reflexivity].
  - pose proof (slice_lo_mono m W HW (w + 1) w' ltac:(lia) ltac:(lia)).
    split; [lia | intros; lia].
Qed.

Lemma slice_rows_in_grid (w i : Z) :
  0 <= w < W -> slice_lo m W w <= i < slice_lo m W (w + 1) -> 0 <= i < m.
Proof.
  intros Hw Hi.
  destruct (slice_rows m n W malloc0 Hn HW Hmn w Hw) as (H1 & H2 & H3 & _). lia.
Qed.

Lemma init_footprint (w k : Z) :
  0 <= w < W ->
  grid_stores_next m n W slices w Init k ->
  exists i j, slice_lo m W w <= i < slice_lo m W (w + 1) /\ 0 <= j < n
              /\ k = i + j * m.
Proof.
  intros Hw Hk. cbn [grid_stores_next] in Hk. unfold slices in Hk.
  rewrite (slice_start m n W malloc0 Hn HW Hmn w Hw) in Hk.
  rewrite (slice_end m n W malloc0 Hn HW Hmn w Hw) in Hk.
  destruct (slice_rows m n W malloc0 Hn HW Hmn w Hw) as (H1 & H2 & H3 & _).
  destruct Hk as [(i & j & Hi & Hj & ->)|(_ & j & Hj & ->)].
  - exists i, j. rewrite (ARRAY_index m n) by lia. repeat split; lia.
  - exists (slice_lo m W w), j. rewrite (ARRAY_index m n) by lia. repeat split; lia.
Qed.

Lemma different_rows (w w' i i' : Z) :
  0 <= w < W -> 0 <= w' < W -> w <> w' ->
  slice_lo m W w <= i < slice_lo m W (w + 1) ->
  slice_lo m W w' <= i' < slice_lo m W (w' + 1) ->
  i <> i'.
Proof.
  intros Hw Hw' Hne Hi Hi'.
  destruct (Z.lt_trichotomy w w') as [Hlt|[E|Hgt]]; [|contradiction|].
  - pose proof (rows_of_two_workers w w' i i' Hw Hw' Hlt Hi Hi'). lia.
  - pose proof (rows_of_two_workers w' w i' i Hw' Hw Hgt Hi' Hi). lia.
Qed.

(** X11. No data race on the grid.  In every state the protocol can reach, a
    cell that one worker is about to store to is neither stored to nor
    loaded by the next action of any other worker. *)
Theorem grid_accesses_race_free (t : team) (w w' k : Z) :
  reachable m n K W slices t ->
  0 <= w < W -> 0 <= w' < W -> w <> w' ->
  grid_stores_next m n W slices w (t_pc t w) k ->
  ~ grid_stores_next m n W slices w' (t_pc t w') k
  /\ ~ grid_loads_next m n W slices w' (t_pc t w') k.
Proof.
  intros Hreach Hw Hw' Hne Hst.
  destruct (reachable_invariant m n K W malloc0 Hn HW Hmn HK t Hreach)
    as [it [HA|HB]].
  - (* between the column loops *)
    destruct HA as (Hit & Hpcs & _).
    pose proof (Hpcs w Hw) as Hp. pose proof (Hpcs w' Hw') as Hp'.
    destruct (t_pc t w) eqn:Ew; cbn in Hp; try contradiction;
      try (cbn in Hst; contradiction).
    + (* lines 195-198 *)
      destruct (init_footprint w k Hw Hst) as (i & j & Hi & Hj & ->).
      destruct (t_pc t w') eqn:Ew'; cbn in Hp'; try contradiction;
        try (split; cbn; tauto); try lia.
      split; [|cbn; tauto].
      intros Hst'.
      destruct (init_footprint w' _ Hw' Hst') as (i' & j' & Hi' & Hj' & E).
      pose proof (slice_rows_in_grid w i Hw Hi).
      pose proof (slice_rows_in_grid w' i' Hw' Hi').
      destruct (index_injective m i j i' j' ltac:(lia) ltac:(lia) E) as [Eij _].
      exact (different_rows w w' i i' Hw Hw' Hne Hi Hi' Eij).
    + (* line 254 *)
      destruct (t_pc t w') eqn:Ew'; cbn in Hp'; try contradiction;
        try (split; cbn; tauto); lia.
  - (* inside the column loop *)
    destruct HB as (Hit & Hcol & Hflags & _).
    pose proof (Hcol w Hw) as Hp. pose proof (Hcol w' Hw') as Hp'.
    destruct (t_pc t w) as [| | | | | |it0 j i| | | | |] eqn:Ew; cbn in Hp;
      try contradiction; try (cbn in Hst; contradiction).
    destruct Hp as (-> & Hj & Hi). cbn [grid_stores_next] in Hst.
    unfold slices in Hst. rewrite (slice_end m n W malloc0 Hn HW Hmn w Hw) in Hst.
    destruct Hst as [Hend ->].
    destruct (slice_rows m n W malloc0 Hn HW Hmn w Hw) as (H1 & H2 & H3 & _).
    assert (Hrow : slice_lo m W w <= i < slice_lo m W (w + 1)) by lia.
    rewrite (ARRAY_index m n) by lia.
    destruct (t_pc t w') as [| | | | | |it1 j' i'| | | | |] eqn:Ew'; cbn in Hp';
      try contradiction; try (split; cbn; tauto).
    destruct Hp' as (-> & Hj' & Hi').
    cbn [grid_stores_next grid_loads_next]. unfold slices.
    rewrite (slice_end m n W malloc0 Hn HW Hmn w' Hw').
    destruct (slice_rows m n W malloc0 Hn HW Hmn w' Hw') as (H1' & H2' & H3' & _).
    unfold CInt.INT_MAX in Hmn.
    assert (Hm : m <= 2147483647) by nia.
    assert (Hn' : n <= 2147483647) by nia.
    split.
    + intros [Hend' E].
      rewrite (ARRAY_index m n) in E by (unfold CInt.INT_MAX; lia).
      destruct (index_injective m i j i' j' ltac:(lia) ltac:(lia) E) as [Eij _].
      apply (different_rows w w' i i' Hw Hw' Hne Hrow ltac:(lia) Eij).
    + intros [Hend' E].
      rewrite !sub_1 in E by (unfold CInt.INT_MAX; lia).
      rewrite !(ARRAY_index m n) in E by (unfold CInt.INT_MAX; lia).
      assert (Hrow' : slice_lo m W w' <= i' < slice_lo m W (w' + 1)) by lia.
      destruct E as [E|[E|E]].
      * destruct (index_injective m i j (i' - 1) j' ltac:(lia) ltac:(lia) E)
          as [Ei Ej].
        destruct (Z.lt_trichotomy w w') as [Hlt|[Heq|Hgt]]; [|contradiction|].
        -- destruct (rows_of_two_workers w w' i i' Hw Hw' Hlt Hrow Hrow')
             as [_ Hadj].
           specialize (Hadj ltac:(lia)). subst w'.
           pose proof (Hflags w ltac:(lia)) as Hh.
           rewrite Ew, Ew' in Hh. destruct Hh as (Hf & Hf01 & _).
           cbn [published consumed] in Hf. lia.
        -- pose proof (rows_of_two_workers w' w i' i Hw' Hw Hgt Hrow' Hrow). lia.
      * destruct (index_injective m i j i' (j' - 1) ltac:(lia) ltac:(lia) E)
          as [Ei _].
        exact (different_rows w w' i i' Hw Hw' Hne Hrow Hrow' Ei).
      * destruct (index_injective m i j (i' - 1) (j' - 1) ltac:(lia) ltac:(lia) E)
          as [Ei Ej].
        destruct (Z.lt_trichotomy w w') as [Hlt|[Heq|Hgt]]; [|contradiction|].
        -- destruct (rows_of_two_workers w w' i i' Hw Hw' Hlt Hrow Hrow')
             as [_ Hadj].
           specialize (Hadj ltac:(lia)). subst w'.
           pose proof (Hflags w ltac:(lia)) as Hh.
           rewrite Ew, Ew' in Hh. destruct Hh as (Hf & Hf01 & _).
           cbn [published consumed] in Hf. lia.
        -- pose proof (rows_of_two_workers w' w i' i Hw' Hw Hgt Hrow' Hrow). lia.
Qed.

(** X12. No two workers store to the same flag at once, and a flag stored to is
    one of [flag[0 .. nthread-1]]. *)
Theorem flag_stores_exclusive (t : team) (w w' k : Z) :
  reachable m n K W slices t ->
  0 <= w < W -> 0 <= w' < W -> w <> w' ->
  flag_stores_next K w (t_pc t w) k ->
  0 <= k < W /\ ~ flag_stores_next K w' (t_pc t w') k.
Proof.
  intros Hreach Hw Hw' Hne Hst.
  destruct (reachable_invariant m n K W malloc0 Hn HW Hmn HK t Hreach)
    as [it [HA|HB]].
  - destruct HA as (Hit & Hpcs & _).
    pose proof (Hpcs w Hw) as Hp. pose proof (Hpcs w' Hw') as Hp'.
    destruct (t_pc t w) eqn:Ew; cbn in Hp, Hst; try contradiction.
    destruct Hst as [_ ->]. split; [lia|].
    destruct (t_pc t w') eqn:Ew'; cbn in Hp' |- *; try contradiction; try tauto;
      lia.
  - destruct HB as (Hit & Hcol & Hflags & _).
    pose proof (Hcol w Hw) as Hp. pose proof (Hcol w' Hw') as Hp'.
    destruct (t_pc t w) eqn:Ew; cbn in Hp, Hst; try contradiction; subst k.
    + (* line 220 *)
      split; [lia|].
      destruct (t_pc t w') eqn:Ew'; cbn in Hp' |- *; try contradiction; try tauto;
        try lia.
      intros E. pose proof (Hflags w' ltac:(lia)) as Hh.
      replace (w' + 1) with w in Hh by lia. rewrite Ew, Ew' in Hh.
      destruct Hh as (_ & _ & Hc & Hs). cbn in Hc, Hs.
      specialize (Hc I). specialize (Hs I). lia.
    + (* line 233 *)
      split; [lia|].
      destruct (t_pc t w') eqn:Ew'; cbn in Hp' |- *; try contradiction; try tauto;
        try lia.
      intros E. pose proof (Hflags w ltac:(lia)) as Hh.
      replace (w + 1) with w' in Hh by lia. rewrite Ew, Ew' in Hh.
      destruct Hh as (_ & _ & Hc & Hs). cbn in Hc, Hs.
      specialize (Hc I). specialize (Hs I). lia.
Qed.

(** X13. The handoff between a worker and its right neighbour.  The right
    neighbour never takes a column that was not handed over, the worker is
    never more than one column ahead of what was taken, and inside the
    trip the flag holds the number of columns handed over and not yet
    taken, 0 or 1.  So while the right neighbour computes column [j], the
    worker has handed over column [j]. *)
Theorem handoff_window (t : team) (w : Z) :
  reachable m n K W slices t ->
  0 <= w < W - 1 ->
  let p := t_pc t w in
  let q := t_pc t (w + 1) in
  (consumed n q <= published n p <= consumed n q + 1)
  /\ (trip_of p <> None -> t_flag t w = published n p - consumed n q)
  /\ (forall it j i, q = Comp it j i -> j <= published n p).
Proof.
  intros Hreach Hw p q.
  destruct (reachable_invariant m n K W malloc0 Hn HW Hmn HK t Hreach)
    as [it [HA|HB]].
  - destruct HA as (Hit & Hpcs & _).
    pose proof (Hpcs w ltac:(lia)) as Hp. pose proof (Hpcs (w + 1) ltac:(lia)) as Hq.
    fold p in Hp. fold q in Hq.
    assert (Ep : published n p = 0 /\ trip_of p = None)
      by (destruct p; cbn in Hp |- *; try contradiction; split; reflexivity).
    assert (Eq : consumed n q = 0)
      by (destruct q; cbn in Hq |- *; try contradiction; reflexivity).
    destruct Ep as [Ep Et]. rewrite Ep, Eq. split; [lia|]. split.
    + intros Hne. now contradiction Hne.
    + intros it' j i E. rewrite E in Hq. cbn in Hq. contradiction.
  - destruct HB as (Hit & Hcol & Hflags & _).
    destruct (Hflags w Hw) as (Hf & Hf01 & _). fold p q in Hf.
    split; [lia|]. split; [intros _; exact Hf|].
    intros it' j i E. rewrite E in Hf. cbn [consumed] in Hf. lia.
Qed.

(** X14. One trip at a time: when a worker is between the barriers of a trip
    of the iteration loop, every worker is, in the same trip. *)
Theorem one_trip_at_a_time (t : team) (w w' it : Z) :
  reachable m n K W slices t ->
  0 <= w < W -> 0 <= w' < W ->
  trip_of (t_pc t w) = Some it ->
  trip_of (t_pc t w') = Some it /\ 0 <= it < K.
Proof.
  intros Hreach Hw Hw' Htrip.
  destruct (reachable_invariant m n K W malloc0 Hn HW Hmn HK t Hreach)
    as [it0 [HA|HB]].
  - destruct HA as (Hit & Hpcs & _). pose proof (Hpcs w Hw) as Hp.
    destruct (t_pc t w); cbn in Hp, Htrip; try contradiction; discriminate.
  - destruct HB as (Hit & Hcol & _).
    pose proof (Hcol w Hw) as Hp. pose proof (Hcol w' Hw') as Hp'.
    assert (E : it0 = it).
    { destruct (t_pc t w); cbn in Hp, Htrip; try contradiction;
        injection Htrip as <-; lia. }
    subst it0. split; [|exact Hit].
    destruct (t_pc t w'); cbn in Hp' |- *; try contradiction; f_equal; lia.
Qed.

(** X15. The protocol has no deadlock: in every state it can reach, either all
    the workers are past the iteration loop or some worker (or a barrier)
    can take its next step. *)
Theorem protocol_deadlock_free (t : team) :
  reachable m n K W slices t ->
  finished W t \/ exists t', step m n K W slices t t'.
Proof.
  intros Hreach.
  apply (no_deadlock m n K W malloc0 Hn HW Hmn HK).
  exact (reachable_invariant m n K W malloc0 Hn HW Hmn HK t Hreach).
Qed.

Lemma runs_in_measure (k : nat) (t t' : team) :
  runs_in m n K W slices k t t' ->
  team_invariant m n K W t ->
  team_invariant m n K W t'
  /\ team_progress m n K W t + Z.of_nat k <= team_progress m n K W t'.
Proof.
  induction 1 as [t|k t t1 t2 Hstep _ IH]; intros Hinv.
  - split; [exact Hinv | lia].
  - pose proof (step_preserves_invariant m n K W malloc0 Hn HW Hmn HK t t1 Hinv Hstep)
      as Hinv1.
    pose proof (step_increases_progress m n K W malloc0 Hn HW Hmn HK t t1 Hinv Hstep).
    destruct (IH Hinv1) as [Hinv2 Hle]. split; [exact Hinv2 | lia].
Qed.

(** X16. No schedule runs for ever: a run of the protocol from the entry of the
    parallel region takes at most [W * (2 + K * trip_cost m n)] steps, a
    turn of a spin loop that finds its flag unchanged not counting as a
    step. *)
Theorem protocol_run_bounded (flag0 : block) (k : nat) (t : team) :
  runs_in m n K W slices k (Team vector0 flag0 (fun _ => Init)) t ->
  Z.of_nat k <= W * (2 + K * ((n + 1) * (m + 8) + 10)).
Proof.
  intros Hrun.
  assert (Hentry : reachable m n K W slices (Team vector0 flag0 (fun _ => Init)))
    by constructor.
  pose proof (reachable_invariant m n K W malloc0 Hn HW Hmn HK _ Hentry) as Hinv.
  destruct (runs_in_measure k _ t Hrun Hinv) as [Hinv' Hle].
  pose proof (progress_bounded m n K W malloc0 Hn HW Hmn HK t Hinv') as Hb.
  unfold trip_cost, column_cost in Hb.
  assert (H0 : 0 <= team_progress m n K W (Team vector0 flag0 (fun _ => Init))).
  { unfold team_progress. cbn [t_pc progress].
    generalize (Z.to_nat W). intros c. induction c as [|c IH]; cbn [sum_over]; lia. }
  lia.
Qed.

(** X17. The stores stay inside the grid: in every state the protocol can
    reach, no element of [vector] outside the [m*n] cells of the grid has
    been stored to, and each still holds its initial zero. *)
Theorem stores_stay_in_grid (t : team) (k : Z) :
  reachable m n K W slices t ->
  k < 0 \/ m * n <= k ->
  write_count (t_vector t) k = O /\ load (t_vector t) k = 0.
Proof.
  intros Hreach Hk.
  destruct (reachable_invariant m n K W malloc0 Hn HW Hmn HK t Hreach)
    as [it [HA|HB]].
  - destruct HA as (_ & _ & _ & [_ Hout]). destruct (Hout k Hk). now split.
  - destruct HB as (_ & _ & _ & [_ Hout]). destruct (Hout k Hk). now split.
Qed.

End ProtocolFacts.

(** Two workers on a 3 by 4 grid at the entry of the region: worker 0 is
    about to store to cell [(0,0)], worker 1 neither stores to it nor
    loads it. *)
Lemma grid_accesses_race_free_witness :
  (1 <= 4 /\ 1 <= 2 <= 3 /\ 3 * 4 <= CInt.INT_MAX /\ 0 <= 3
   /\ reachable 3 4 3 2 (partition 3 2 (fun _ => 0))
        (Team vector0 (fun _ => 0) (fun _ => Init))
   /\ grid_stores_next 3 4 2 (partition 3 2 (fun _ => 0)) 0 Init 0)
  /\ ~ grid_stores_next 3 4 2 (partition 3 2 (fun _ => 0)) 1 Init 0.
Proof.
  assert (Hn : 1 <= 4) by lia.
  assert (HW : 1 <= 2 <= 3) by lia.
  assert (Hmn : 3 * 4 <= CInt.INT_MAX) by (unfold CInt.INT_MAX; lia).
  assert (HK : 0 <= 3) by lia.
  assert (Hr : reachable 3 4 3 2 (partition 3 2 (fun _ => 0))
                 (Team vector0 (fun _ => 0) (fun _ => Init))) by constructor.
  assert (Hs : grid_stores_next 3 4 2 (partition 3 2 (fun _ => 0)) 0 Init 0).
  { left. exists 0, 0. vm_compute. repeat split; discriminate. }
  assert (H0 : 0 <= 0 < 2) by lia.
  assert (H1 : 0 <= 1 < 2) by lia.
  assert (Hne : 0 <> 1) by lia.
  split; [exact (conj Hn (conj HW (conj Hmn (conj HK (conj Hr Hs)))))|].
  exact (proj1 (grid_accesses_race_free 3 4 3 2 (fun _ => 0) Hn HW Hmn HK
                  (Team vector0 (fun _ => 0) (fun _ => Init)) 0 1 0
                  Hr H0 H1 Hne Hs)).
Defined.

(** Worker 0 past lines 195-198 is about to reset its flag; worker 1 is
    not about to store to it. *)
Lemma flag_stores_exclusive_witness :
  exists t,
    reachable 3 4 3 2 (partition 3 2 (fun _ => 0)) t
    /\ flag_stores_next 3 0 (t_pc t 0) 0
    /\ ~ flag_stores_next 3 1 (t_pc t 1) 0.
Proof.
  assert (Hn : 1 <= 4) by lia.
  assert (HW : 1 <= 2 <= 3) by lia.
  assert (Hmn : 3 * 4 <= CInt.INT_MAX) by (unfold CInt.INT_MAX; lia).
  assert (HK : 0 <= 3) by lia.
  assert (H0 : 0 <= 0 < 2) by lia.
  assert (H1 : 0 <= 1 < 2) by lia.
  assert (Hne : 0 <> 1) by lia.
  pose (slices := partition 3 2 (fun _ => 0)).
  pose (t1 := Team (worker_init 3 4 2 slices 0 vector0) (fun _ => 0)
                (move (fun _ => Init) 0 (Reset 0))).
  assert (Hr : reachable 3 4 3 2 slices t1).
  { apply (reach_step 3 4 3 2 slices (Team vector0 (fun _ => 0) (fun _ => Init))).
    - constructor.
    - apply step_init; [lia | reflexivity]. }
  assert (Hs : flag_stores_next 3 0 (t_pc t1 0) 0) by (cbn; lia).
  exists t1. split; [exact Hr|]. split; [exact Hs|].
  exact (proj2 (flag_stores_exclusive 3 4 3 2 (fun _ => 0) Hn HW Hmn HK
                  t1 0 1 0 Hr H0 H1 Hne Hs)).
Defined.

(** Two workers on a 2 by 2 grid, one iteration: worker 0 has handed over
    column 1 and stands at the test of the column loop, worker 1 has taken
    the column and is about to compute its cell.  One column handed over,
    one taken, and the flag is 0. *)
Lemma handoff_window_witness :
  exists t,
    reachable 2 2 1 2 (partition 2 2 (fun _ => 0)) t
    /\ t_pc t 0 = Top 0 2
    /\ t_pc t 1 = Comp 0 1 1
    /\ t_flag t 0 = published 2 (t_pc t 0) - consumed 2 (t_pc t 1)
    /\ 1 <= published 2 (t_pc t 0).
Proof.
  assert (Hn : 1 <= 2) by lia.
  assert (HW : 1 <= 2 <= 2) by lia.
  assert (Hmn : 2 * 2 <= CInt.INT_MAX) by (unfold CInt.INT_MAX; lia).
  assert (HK : 0 <= 1) by lia.
  assert (H0 : 0 <= 0 < 2 - 1) by lia.
  pose (slices := partition 2 2 (fun _ => 0)).
  pose (v1 := worker_init 2 2 2 slices 0 vector0).
  pose (v2 := worker_init 2 2 2 slices 1 v1).
  pose (p0 := fun _ : Z => Init).
  pose (p1 := move p0 0 (Reset 0)).
  pose (p2 := move p1 1 (Reset 0)).
  pose (p3 := move p2 0 (Bar1 0)).
  pose (p4 := move p3 1 (Bar1 0)).
  pose (p5 := fun w => if (0 <=? w) && (w <? 2) then Top 0 1 else p4 w).
  pose (p6 := move p5 0 (Comp 0 1 (MAX (start_ slices 0) 1))).
  pose (p7 := move p6 0 (WaitR 0 1)).
  pose (p8 := move p7 0 (SetR 0 1)).
  pose (p9 := move p8 0 (Top 0 (1 + 1))).
  pose (p10 := move p9 1 (WaitL 0 1)).
  pose (p11 := move p10 1 (ClearL 0 1)).
  pose (p12 := move p11 1 (Comp 0 1 (MAX (start_ slices 1) 1))).
  pose (f0 := fun _ : Z => 7).
  pose (f1 := upd f0 0 0).
  pose (f2 := upd f1 1 0).
  pose (f3 := upd f2 0 1).
  pose (f4 := upd f3 (1 - 1) 0).
  assert (R0 : reachable 2 2 1 2 slices (Team vector0 f0 p0)) by constructor.
  assert (R1 : reachable 2 2 1 2 slices (Team v1 f0 p1)).
  { apply (reach_step _ _ _ _ _ _ _ R0). apply step_init; [lia | reflexivity]. }
  assert (R2 : reachable 2 2 1 2 slices (Team v2 f0 p2)).
  { apply (reach_step _ _ _ _ _ _ _ R1). apply step_init; [lia | reflexivity]. }
  assert (R3 : reachable 2 2 1 2 slices (Team v2 f1 p3)).
  { apply (reach_step _ _ _ _ _ _ _ R2).
    apply step_reset; [lia | reflexivity | lia]. }
  assert (R4 : reachable 2 2 1 2 slices (Team v2 f2 p4)).
  { apply (reach_step _ _ _ _ _ _ _ R3).
    apply step_reset; [lia | reflexivity | lia]. }
  assert (R5 : reachable 2 2 1 2 slices (Team v2 f2 p5)).
  { apply (reach_step _ _ _ _ _ _ _ R4). apply step_barrier1.
    intros w Hw. assert (E : w = 0 \/ w = 1) by lia.
    destruct E as [->| ->]; reflexivity. }
  assert (R6 : reachable 2 2 1 2 slices (Team v2 f2 p6)).
  { apply (reach_step _ _ _ _ _ _ _ R5).
    apply step_column_first; [lia | reflexivity | lia | lia]. }
  assert (R7 : reachable 2 2 1 2 slices (Team v2 f2 p7)).
  { apply (reach_step _ _ _ _ _ _ _ R6).
    apply (step_rows_done_publish 2 2 1 2 slices v2 f2 p6 0 0 1
             (MAX (start_ slices 0) 1));
      [lia | reflexivity | vm_compute; reflexivity | lia]. }
  assert (R8 : reachable 2 2 1 2 slices (Team v2 f2 p8)).
  { apply (reach_step _ _ _ _ _ _ _ R7).
    apply step_seen_right; [lia | reflexivity | vm_compute; discriminate]. }
  assert (R9 : reachable 2 2 1 2 slices (Team v2 f3 p9)).
  { apply (reach_step _ _ _ _ _ _ _ R8).
    apply step_set_right; [lia | reflexivity]. }
  assert (R10 : reachable 2 2 1 2 slices (Team v2 f3 p10)).
  { apply (reach_step _ _ _ _ _ _ _ R9).
    apply step_column_wait; [lia | reflexivity | lia | lia]. }
  assert (R11 : reachable 2 2 1 2 slices (Team v2 f3 p11)).
  { apply (reach_step _ _ _ _ _ _ _ R10).
    apply step_seen_left; [lia | reflexivity | vm_compute; discriminate]. }
  assert (R12 : reachable 2 2 1 2 slices (Team v2 f4 p12)).
  { apply (reach_step _ _ _ _ _ _ _ R11).
    apply step_clear_left; [lia | reflexivity]. }
  pose (t := Team v2 f4 p12).
  assert (Hq : t_pc t (0 + 1) = Comp 0 1 1) by reflexivity.
  assert (Hp : trip_of (t_pc t 0) <> None) by discriminate.
  destruct (handoff_window 2 2 1 2 (fun _ => 0) Hn HW Hmn HK t 0 R12 H0)
    as (_ & Hflag & Hcomp).
  exists t. split; [exact R12|]. split; [reflexivity|]. split; [reflexivity|].
  split; [exact (Hflag Hp) | exact (Hcomp 0 1 1 Hq)].
Defined.

(** Two workers on a 2 by 2 grid, past the first barrier. *)
Lemma one_trip_at_a_time_witness :
  exists t,
    reachable 2 2 1 2 (partition 2 2 (fun _ => 0)) t
    /\ trip_of (t_pc t 0) = Some 0
    /\ trip_of (t_pc t 1) = Some 0.
Proof.
  assert (Hn : 1 <= 2) by lia.
  assert (HW : 1 <= 2 <= 2) by lia.
  assert (Hmn : 2 * 2 <= CInt.INT_MAX) by (unfold CInt.INT_MAX; lia).
  assert (HK : 0 <= 1) by lia.
  assert (H0 : 0 <= 0 < 2) by lia.
  assert (H1 : 0 <= 1 < 2) by lia.
  pose (slices := partition 2 2 (fun _ => 0)).
  pose (v1 := worker_init 2 2 2 slices 0 vector0).
  pose (v2 := worker_init 2 2 2 slices 1 v1).
  pose (p0 := fun _ : Z => Init).
  pose (p1 := move p0 0 (Reset 0)).
  pose (p2 := move p1 1 (Reset 0)).
  pose (p3 := move p2 0 (Bar1 0)).
  pose (p4 := move p3 1 (Bar1 0)).
  pose (f0 := fun _ : Z => 7).
  pose (f1 := upd f0 0 0).
  pose (f2 := upd f1 1 0).
  pose (t5 := Team v2 f2 (fun w => if (0 <=? w) && (w <? 2) then Top 0 1 else p4 w)).
  assert (R0 : reachable 2 2 1 2 slices (Team vector0 f0 p0)) by constructor.
  assert (R1 : reachable 2 2 1 2 slices (Team v1 f0 p1)).
  { apply (reach_step _ _ _ _ _ _ _ R0). apply step_init; [lia | reflexivity]. }
  assert (R2 : reachable 2 2 1 2 slices (Team v2 f0 p2)).
  { apply (reach_step _ _ _ _ _ _ _ R1). apply step_init; [lia | reflexivity]. }
  assert (R3 : reachable 2 2 1 2 slices (Team v2 f1 p3)).
  { apply (reach_step _ _ _ _ _ _ _ R2).
    apply step_reset; [lia | reflexivity | lia]. }
  assert (R4 : reachable 2 2 1 2 slices (Team v2 f2 p4)).
  { apply (reach_step _ _ _ _ _ _ _ R3).
    apply step_reset; [lia | reflexivity | lia]. }
  assert (R5 : reachable 2 2 1 2 slices t5).
  { apply (reach_step _ _ _ _ _ _ _ R4). apply step_barrier1.
    intros w Hw. assert (E : w = 0 \/ w = 1) by lia.
    destruct E as [->| ->]; reflexivity. }
  assert (Ht : trip_of (t_pc t5 0) = Some 0) by reflexivity.
  exists t5. split; [exact R5|]. split; [exact Ht|].
  exact (proj1 (one_trip_at_a_time 2 2 1 2 (fun _ => 0) Hn HW Hmn HK
                  t5 0 1 0 R5 H0 H1 Ht)).
Defined.

Lemma protocol_deadlock_free_witness :
  (1 <= 4 /\ 1 <= 2 <= 3 /\ 3 * 4 <= CInt.INT_MAX /\ 0 <= 3
   /\ reachable 3 4 3 2 (partition 3 2 (fun _ => 0))
        (Team vector0 (fun _ => 0) (fun _ => Init)))
  /\ (finished 2 (Team vector0 (fun _ => 0) (fun _ => Init))
      \/ exists t', step 3 4 3 2 (partition 3 2 (fun _ => 0))
                      (Team vector0 (fun _ => 0) (fun _ => Init)) t').
Proof.
  assert (Hn : 1 <= 4) by lia.
  assert (HW : 1 <= 2 <= 3) by lia.
  assert (Hmn : 3 * 4 <= CInt.INT_MAX) by (unfold CInt.INT_MAX; lia).
  assert (HK : 0 <= 3) by lia.
  assert (Hr : reachable 3 4 3 2 (partition 3 2 (fun _ => 0))
                 (Team vector0 (fun _ => 0) (fun _ => Init))) by constructor.
  split; [exact (conj Hn (conj HW (conj Hmn (conj HK Hr))))|].
  exact (protocol_deadlock_free 3 4 3 2 (fun _ => 0) Hn HW Hmn HK _ Hr).
Defined.

(** A whole run of two workers on a 2 by 2 grid, one iteration: lines
    195-198 and the flag resets, the first barrier, worker 0 through its
    column (it finds its flag clear and sets it), worker 1 through its
    wait on that flag, its cell and the end of its column, the second
    barrier, the feedback, and both workers out of the loop: 20 steps,
    the bound being [2 * (2 + 1 * 40) = 84]. *)
Lemma protocol_run_bounded_witness :
  exists t,
    runs_in 2 2 1 2 (partition 2 2 (fun _ => 0)) 20
      (Team vector0 (fun _ => 7) (fun _ => Init)) t
    /\ finished 2 t
    /\ Z.of_nat 20 <= 2 * (2 + 1 * ((2 + 1) * (2 + 8) + 10)).
Proof.
  assert (Hn : 1 <= 2) by lia.
  assert (HW : 1 <= 2 <= 2) by lia.
  assert (Hmn : 2 * 2 <= CInt.INT_MAX) by (unfold CInt.INT_MAX; lia).
  assert (HK : 0 <= 1) by lia.
  pose (slices := partition 2 2 (fun _ => 0)).
  eassert (Hrun : runs_in 2 2 1 2 slices 20
                    (Team vector0 (fun _ => 7) (fun _ => Init)) _).
  { eapply runs_in_S; [apply step_init with (w := 0); [lia | reflexivity]|].
    eapply runs_in_S; [apply step_init with (w := 1); [lia | reflexivity]|].
    eapply runs_in_S;
      [eapply step_reset with (w := 0); [lia | reflexivity | lia]|].
    eapply runs_in_S;
      [eapply step_reset with (w := 1); [lia | reflexivity | lia]|].
    eapply runs_in_S;
      [apply step_barrier1 with (iter := 0); intros w Hw;
       assert (E : w = 0 \/ w = 1) by lia; destruct E as [->| ->]; reflexivity|].
    eapply runs_in_S;
      [eapply step_column_first with (w := 0); [lia | reflexivity | lia | lia]|].
    eapply runs_in_S;
      [eapply step_rows_done_publish with (w := 0);
       [lia | reflexivity | vm_compute; reflexivity | lia]|].
    eapply runs_in_S;
      [eapply step_seen_right with (w := 0);
       [lia | reflexivity | vm_compute; discriminate]|].
    eapply runs_in_S;
      [eapply step_set_right with (w := 0); [lia | reflexivity]|].
    eapply runs_in_S;
      [eapply step_columns_done with (w := 0); [lia | reflexivity | lia]|].
    eapply runs_in_S;
      [eapply step_column_wait with (w := 1); [lia | reflexivity | lia | lia]|].
    eapply runs_in_S;
      [eapply step_seen_left with (w := 1);
       [lia | reflexivity | vm_compute; discriminate]|].
    eapply runs_in_S;
      [eapply step_clear_left with (w := 1); [lia | reflexivity]|].
    eapply runs_in_S;
      [eapply step_cell with (w := 1);
       [lia | reflexivity | vm_compute; discriminate]|].
    eapply runs_in_S;
      [eapply step_rows_done_last with (w := 1);
       [lia | reflexivity | vm_compute; reflexivity | lia]|].
    eapply runs_in_S;
      [eapply step_columns_done with (w := 1); [lia | reflexivity | lia]|].
    eapply runs_in_S;
      [apply step_barrier2 with (iter := 0); intros w Hw;
       assert (E : w = 0 \/ w = 1) by lia; destruct E as [->| ->]; reflexivity|].
    eapply runs_in_S;
      [eapply step_feedback with (w := 0); [lia | reflexivity]|].
    eapply runs_in_S;
      [eapply step_leave with (w := 0); [lia | reflexivity | lia]|].
    eapply runs_in_S;
      [eapply step_leave with (w := 1); [lia | reflexivity | lia]|].
    apply runs_in_0. }
  eexists. split; [exact Hrun|]. split.
  - intros w Hw. assert (E : w = 0 \/ w = 1) by lia.
    destruct E as [->| ->]; reflexivity.
  - exact (protocol_run_bounded 2 2 1 2 (fun _ => 0) Hn HW Hmn HK _ _ _ Hrun).
Defined.

Lemma stores_stay_in_grid_witness :
  exists t,
    reachable 3 4 3 2 (partition 3 2 (fun _ => 0)) t
    /\ t_pc t 0 = Reset 0
    /\ write_count (t_vector t) 12 = O.
Proof.
  assert (Hn : 1 <= 4) by lia.
  assert (HW : 1 <= 2 <= 3) by lia.
  assert (Hmn : 3 * 4 <= CInt.INT_MAX) by (unfold CInt.INT_MAX; lia).
  assert (HK : 0 <= 3) by lia.
  pose (slices := partition 3 2 (fun _ => 0)).
  pose (t1 := Team (worker_init 3 4 2 slices 0 vector0) (fun _ => 0)
                (move (fun _ => Init) 0 (Reset 0))).
  assert (Hr : reachable 3 4 3 2 slices t1).
  { apply (reach_step 3 4 3 2 slices (Team vector0 (fun _ => 0) (fun _ => Init))).
    - constructor.
    - apply step_init; [lia | reflexivity]. }
  assert (Hk : 12 < 0 \/ 3 * 4 <= 12) by (right; lia).
  exists t1. split; [exact Hr|]. split; [reflexivity|].
  exact (proj1 (stores_stay_in_grid 3 4 3 2 (fun _ => 0) Hn HW Hmn HK t1 12 Hr Hk)).
Defined.

(** * The reduction kernel *)


Lemma add_exact (a b : Z) :
  CInt.INT_MIN <= a + b <= CInt.INT_MAX -> CInt.add a b = a + b.
Proof. intros H. unfold CInt.add. apply wrap_id. exact H. Qed.

Section ReduceProof.

#[local] Set Default Proof Using "All".

Variables (P vector_length : Z).
Hypothesis HP : 1 <= P <= CInt.INT_MAX.
Hypothesis Hlen : 1 <= vector_length.
Hypothesis Hfit : 2 * vector_length <= CInt.INT_MAX.

(** Lines 142-145 set both vectors of process [my_ID] to [my_ID+1]. *)
Lemma initialize_spec (my_ID : Z) (vector : block) (x : Z) :
  0 <= my_ID < P ->
  Reduce.initialize my_ID vector_length vector x
  = if (0 <=? x) && (x <? 2 * vector_length) then my_ID + 1 else vector x.
Proof.
  intros HID. unfold Reduce.initialize.
  unfold CInt.INT_MAX, CInt.INT_MIN in *.
  rewrite add_exact by (unfold CInt.INT_MAX, CInt.INT_MIN; lia).
  pose proof
    (for_lt_inv
       (fun k v => forall x,
          v x = if ((0 <=? x) && (x <? k))
                   || ((vector_length <=? x) && (x <? vector_length + k))
                then my_ID + 1 else vector x)
       0 vector_length
       (fun i v => upd (upd v i (my_ID + 1)) (CInt.add vector_length i) (my_ID + 1))
       vector ltac:(lia)) as Hloop.
  cbv beta in Hloop. rewrite Hloop.
  - destruct (Z.leb_spec 0 x), (Z.ltb_spec x vector_length),
      (Z.leb_spec vector_length x), (Z.ltb_spec x (vector_length + vector_length)),
      (Z.ltb_spec x (2 * vector_length)); cbn; try reflexivity; lia.
  - intros y.
    destruct (Z.leb_spec 0 y), (Z.ltb_spec y 0),
      (Z.leb_spec vector_length y), (Z.ltb_spec y (vector_length + 0));
      cbn; try reflexivity; lia.
  - intros i v Hi Hv y.
    rewrite add_exact by (unfold CInt.INT_MAX, CInt.INT_MIN; lia).
    unfold upd. rewrite Hv.
    destruct (Z.eqb_spec y (vector_length + i)), (Z.eqb_spec y i),
      (Z.leb_spec 0 y), (Z.ltb_spec y i), (Z.ltb_spec y (i + 1)),
      (Z.leb_spec vector_length y), (Z.ltb_spec y (vector_length + i)),
      (Z.ltb_spec y (vector_length + (i + 1)));
      cbn; try reflexivity; lia.
Qed.

(** Lines 151-153 add the first vector to the second. *)
Lemma local_part_spec (vector : block) (x : Z) :
  Reduce.local_part vector_length vector x
  = if (vector_length <=? x) && (x <? 2 * vector_length)
    then vector x + vector (x - vector_length) else vector x.
Proof.
  unfold Reduce.local_part. unfold CInt.INT_MAX, CInt.INT_MIN in *.
  pose proof
    (for_lt_inv
       (fun k v => forall x,
          v x = if (vector_length <=? x) && (x <? vector_length + k)
                then vector x + vector (x - vector_length) else vector x)
       0 vector_length
       (fun i v => upd v (CInt.add vector_length i)
                       (v (CInt.add vector_length i) + v i))
       vector ltac:(lia)) as Hloop.
  cbv beta in Hloop. rewrite Hloop.
  - destruct (Z.leb_spec vector_length x),
      (Z.ltb_spec x (vector_length + vector_length)),
      (Z.ltb_spec x (2 * vector_length)); cbn; try reflexivity; lia.
  - intros y.
    destruct (Z.leb_spec vector_length y), (Z.ltb_spec y (vector_length + 0));
      cbn; try reflexivity; lia.
  - intros i v Hi Hv y.
    rewrite add_exact by (unfold CInt.INT_MAX, CInt.INT_MIN; lia).
    unfold upd. rewrite !Hv.
    destruct (Z.eqb_spec y (vector_length + i)) as [->|Hne].
    + replace ((vector_length <=? vector_length + i)
               && (vector_length + i <? vector_length + i)) with false
        by (symmetry; apply andb_false_iff; right; apply Z.ltb_ge; lia).
      replace ((vector_length <=? i) && (i <? vector_length + i)) with false
        by (symmetry; apply andb_false_iff; left; apply Z.leb_gt; lia).
      replace ((vector_length <=? vector_length + i)
               && (vector_length + i <? vector_length + (i + 1))) with true
        by (symmetry; apply andb_true_iff; split;
            [apply Z.leb_le | apply Z.ltb_lt]; lia).
      f_equal. f_equal. lia.
    + destruct (Z.leb_spec vector_length y), (Z.ltb_spec y (vector_length + i)),
        (Z.ltb_spec y (vector_length + (i + 1))); cbn; try reflexivity; lia.
Qed.

Lemma sum_of_contributions (k : nat) :
  sum_over (fun r => 2 * (r + 1)) k = Z.of_nat k * (Z.of_nat k + 1).
Proof.
  induction k as [|k IH]; [reflexivity|].
  cbn [sum_over]. rewrite IH. lia.
Qed.

Lemma sum_over_ext (f g : Z -> Z) (k : nat) :
  (forall r, 0 <= r < Z.of_nat k -> f r = g r) -> sum_over f k = sum_over g k.
Proof.
  induction k as [|k IH]; intros H; [reflexivity|].
  cbn [sum_over]. rewrite IH by (intros r Hr; apply H; lia).
  rewrite (H (Z.of_nat k)) by lia. reflexivity.
Qed.

Lemma contribution (vectors : Z -> block) (my_ID i : Z) :
  0 <= my_ID < P -> 0 <= i < vector_length ->
  Reduce.local_part vector_length
    (Reduce.initialize my_ID vector_length (vectors my_ID)) (vector_length + i)
  = 2 * (my_ID + 1).
Proof.
  intros HID Hi. rewrite local_part_spec.
  replace ((vector_length <=? vector_length + i)
           && (vector_length + i <? 2 * vector_length)) with true
    by (symmetry; apply andb_true_iff; split;
        [apply Z.leb_le | apply Z.ltb_lt]; lia).
  rewrite !initialize_spec by assumption.
  replace ((0 <=? vector_length + i) && (vector_length + i <? 2 * vector_length))
    with true
    by (symmetry; apply andb_true_iff; split;
        [apply Z.leb_le | apply Z.ltb_lt]; lia).
  replace ((0 <=? vector_length + i - vector_length)
           && (vector_length + i - vector_length <? 2 * vector_length))
    with true
    by (symmetry; apply andb_true_iff; split;
        [apply Z.leb_le | apply Z.ltb_lt]; lia).
  lia.
Qed.

Lemma reduction_root (vectors : Z -> block) (i : Z) :
  0 <= i < vector_length ->
  Reduce.reduction P vector_length vectors 0 i = Reduce.element_value P.
Proof.
  intros Hi. unfold Reduce.reduction, Reduce.MPI_Reduce, Reduce.element_value.
  cbn [Z.eqb].
  replace ((0 <=? i) && (i <? vector_length)) with true
    by (symmetry; apply andb_true_iff; split;
        [apply Z.leb_le | apply Z.ltb_lt]; lia).
  rewrite (sum_over_ext _ (fun r => 2 * (r + 1))).
  - rewrite sum_of_contributions. rewrite Z2Nat.id by lia. reflexivity.
  - intros r Hr. rewrite Z2Nat.id in Hr by lia. now apply contribution.
Qed.

End ReduceProof.

(** X18. One reduction, whatever the allocations held before: every element of
    the root's first vector becomes [Num_procs*(Num_procs+1)], the
    verification value; the second vector of process [r] holds
    [2*(r+1)], the first vector of a process other than the root [r+1];
    nothing outside the two vectors changes. *)
Theorem reduction_result (P vector_length : Z) (vectors : Z -> block) :
  1 <= P <= CInt.INT_MAX -> Reduce.element_value P < 2 ^ 53 ->
  1 <= vector_length -> 2 * vector_length <= CInt.INT_MAX ->
  let result := Reduce.reduction P vector_length vectors in
  (forall i, 0 <= i < vector_length -> result 0 i = Reduce.element_value P)
  /\ (forall r i, 0 <= r < P -> 0 <= i < vector_length ->
        result r (vector_length + i) = 2 * (r + 1))
  /\ (forall r i, 1 <= r < P -> 0 <= i < vector_length -> result r i = r + 1)
  /\ (forall r x, 0 <= r < P -> x < 0 \/ 2 * vector_length <= x ->
        result r x = vectors r x).
Proof.
  intros HP _ Hlen Hfit result. split; [|split; [|split]].
  - intros i Hi. now apply reduction_root.
  - intros r i Hr Hi. unfold result, Reduce.reduction, Reduce.MPI_Reduce.
    destruct (Z.eqb_spec r 0) as [->|Hr0].
    + replace ((0 <=? vector_length + i) && (vector_length + i <? vector_length))
        with false
        by (symmetry; apply andb_false_iff; right; apply Z.ltb_ge; lia).
      now apply (contribution P vector_length HP Hlen Hfit).
    + now apply (contribution P vector_length HP Hlen Hfit).
  - intros r i Hr Hi. unfold result, Reduce.reduction, Reduce.MPI_Reduce.
    destruct (Z.eqb_spec r 0) as [->|Hr0]; [lia|].
    rewrite (local_part_spec P vector_length HP Hlen Hfit).
    replace ((vector_length <=? i) && (i <? 2 * vector_length)) with false
      by (symmetry; apply andb_false_iff; left; apply Z.leb_gt; lia).
    rewrite (initialize_spec P vector_length HP Hlen Hfit) by lia.
    replace ((0 <=? i) && (i <? 2 * vector_length)) with true
      by (symmetry; apply andb_true_iff; split;
          [apply Z.leb_le | apply Z.ltb_lt]; lia).
    reflexivity.
  - intros r x Hr Hx. unfold result, Reduce.reduction, Reduce.MPI_Reduce.
    assert (E : Reduce.local_part vector_length
                  (Reduce.initialize r vector_length (vectors r)) x = vectors r x).
    { rewrite (local_part_spec P vector_length HP Hlen Hfit).
      replace ((vector_length <=? x) && (x <? 2 * vector_length)) with false
        by (symmetry; apply andb_false_iff;
            destruct Hx; [left; apply Z.leb_gt | right; apply Z.ltb_ge]; lia).
      rewrite (initialize_spec P vector_length HP Hlen Hfit) by lia.
      replace ((0 <=? x) && (x <? 2 * vector_length)) with false
        by (symmetry; apply andb_false_iff;
            destruct Hx; [left; apply Z.leb_gt | right; apply Z.ltb_ge]; lia).
      reflexivity. }
    destruct (Z.eqb_spec r 0) as [->|Hr0]; [|exact E].
    replace ((0 <=? x) && (x <? vector_length)) with false
      by (symmetry; apply andb_false_iff;
          destruct Hx; [left; apply Z.leb_gt | right; apply Z.ltb_ge]; lia).
    exact E.
Qed.

Lemma reduction_result_witness :
  (1 <= 3 <= CInt.INT_MAX /\ Reduce.element_value 3 < 2 ^ 53
   /\ 1 <= 2 /\ 2 * 2 <= CInt.INT_MAX)
  /\ Reduce.reduction 3 2 (fun _ _ => 99) 0 1 = 12.
Proof.
  assert (HP : 1 <= 3 <= CInt.INT_MAX) by (unfold CInt.INT_MAX; lia).
  assert (Hl : 1 <= 2) by lia.
  assert (Hf : 2 * 2 <= CInt.INT_MAX) by (unfold CInt.INT_MAX; lia).
  assert (He : Reduce.element_value 3 < 2 ^ 53) by reflexivity.
  assert (Hi : 0 <= 1 < 2) by lia.
  split; [exact (conj HP (conj He (conj Hl Hf)))|].
  exact (proj1 (reduction_result 3 2 (fun _ _ => 99) HP He Hl Hf) 1 Hi).
Defined.

Lemma filter_none {A : Type} (f : A -> bool) (l : list A) :
  (forall x, In x l -> f x = false) -> filter f l = [].
Proof.
  induction l as [|a l IH]; intros H; [reflexivity|].
  cbn [filter]. rewrite (H a (or_introl eq_refl)).
  apply IH. intros x Hx. apply H. now right.
Qed.

Lemma in_ranks (k : Z) (x : Z) :
  In x (map Z.of_nat (seq 0 (Z.to_nat k))) -> 0 <= x < k.
Proof.
  intros Hin. apply in_map_iff in Hin. destruct Hin as [y [<- Hy]].
  apply in_seq in Hy. lia.
Qed.

Lemma ranks_in (k : Z) (x : Z) :
  0 <= x < k -> In x (map Z.of_nat (seq 0 (Z.to_nat k))).
Proof.
  intros Hx. apply in_map_iff. exists (Z.to_nat x). split; [lia|].
  apply in_seq. lia.
Qed.

Lemma for_lt_last {S : Type} (hi : Z) (body : Z -> S -> S) (s : S) :
  1 <= hi -> for_lt 0 hi body s = body (hi - 1) (for_lt 0 (hi - 1) body s).
Proof.
  intros H. rewrite (for_lt_split 0 (hi - 1) hi) by lia.
  unfold for_lt at 1. replace (Z.to_nat (hi - (hi - 1))) with 1%nat by lia.
  reflexivity.
Qed.

Lemma iteration_vectors {D : Type} {ops : DoubleOps D} (e : Reduce.env D)
  (iterations vector_length iter : Z) (st : Reduce.run_state D) :
  Reduce.vectors (Reduce.iteration e iterations vector_length iter st)
  = Reduce.reduction (Reduce.Num_procs e) vector_length (Reduce.vectors st).
Proof.
  unfold Reduce.iteration. destruct ((iter >? 0) || (iterations =? 1)); reflexivity.
Qed.

(** X19. A run of the reduction kernel validates.  With one process or more,
    [iterations >= 1], [vector_length >= 1] and every allocation granted,
    the root finds [Num_procs*(Num_procs+1)] in every element of its
    result, prints no error, the four lines of the banner, that the
    solution validates, and its report, and the status is [EXIT_SUCCESS]. *)
Theorem reduce_validates
  {D : Type} {ops : DoubleOps D} (VERBOSE : bool) (progname : string)
  (iterations vector_length : Z) (e : Reduce.env D) :
  1 <= Reduce.Num_procs e <= CInt.INT_MAX ->
  Reduce.element_value (Reduce.Num_procs e) < 2 ^ 53 ->
  1 <= iterations -> 1 <= vector_length -> 2 * vector_length <= CInt.INT_MAX ->
  (forall r, 0 <= r < Reduce.Num_procs e -> Reduce.malloc_result e r <> None) ->
  let st := Reduce.iteration_loop e iterations vector_length
              (Reduce.allocations e) in
  (forall i, 0 <= i < vector_length ->
     Reduce.vectors st 0 i = Reduce.element_value (Reduce.Num_procs e))
  /\ Reduce.main VERBOSE progname [iterations; vector_length] e
     = Reduce.Exited EXIT_SUCCESS
         (Reduce.header e iterations vector_length
          ++ Reduce.report VERBOSE e iterations vector_length (Reduce.timing st)).
Proof.
  intros HP _ HK Hlen Hfit Hmalloc st.
  assert (Hroot : forall i, 0 <= i < vector_length ->
            Reduce.vectors st 0 i = Reduce.element_value (Reduce.Num_procs e)).
  { intros i Hi. unfold st, Reduce.iteration_loop.
    rewrite for_lt_last by lia. rewrite iteration_vectors.
    now apply (reduction_root (Reduce.Num_procs e) vector_length HP Hlen Hfit). }
  split; [exact Hroot|].
  unfold Reduce.main, Reduce.check_args.
  replace (iterations <? 1) with false by (symmetry; apply Z.ltb_ge; lia).
  replace (vector_length <? 1) with false by (symmetry; apply Z.ltb_ge; lia).
  unfold Reduce.run_and_report.
  assert (Hall : Reduce.failed_allocations e = []).
  { unfold Reduce.failed_allocations. apply filter_none. intros r Hr.
    apply in_ranks in Hr. specialize (Hmalloc r Hr).
    destruct (Reduce.malloc_result e r); [reflexivity | now contradiction Hmalloc]. }
  rewrite Hall. fold st.
  assert (Hver : Reduce.verify VERBOSE e vector_length (Reduce.vectors st 0) = []).
  { unfold Reduce.verify.
    assert (Hbad : Reduce.errors vector_length
                     (Reduce.element_value (Reduce.Num_procs e))
                     (Reduce.vectors st 0) = []).
    { unfold Reduce.errors. apply filter_none. intros i Hi. apply in_ranks in Hi.
      rewrite (Hroot i Hi), Z.sub_diag. reflexivity. }
    rewrite Hbad. destruct VERBOSE; reflexivity. }
  rewrite Hver. reflexivity.
Qed.

(** Three processes, two iterations, vectors of four elements. *)
Lemma reduce_validates_witness :
  Reduce.status
    (Reduce.main false "reduce" [2; 4]
       (Reduce.Env 3 (fun _ => Some (fun _ => 0))
          (fun k => Binary64.of_int (Z.of_nat (k * k)))))
  = EXIT_SUCCESS.
Proof.
  pose (e := Reduce.Env 3 (fun _ => Some (fun _ : Z => 0))
               (fun k => Binary64.of_int (Z.of_nat (k * k)))).
  assert (HP : 1 <= Reduce.Num_procs e <= CInt.INT_MAX)
    by (unfold CInt.INT_MAX; cbn; lia).
  assert (He : Reduce.element_value (Reduce.Num_procs e) < 2 ^ 53) by reflexivity.
  assert (HK : 1 <= 2) by lia.
  assert (Hl : 1 <= 4) by lia.
  assert (Hf : 2 * 4 <= CInt.INT_MAX) by (unfold CInt.INT_MAX; lia).
  assert (Hm : forall r, 0 <= r < Reduce.Num_procs e -> Reduce.malloc_result e r <> None)
    by (intros r _; discriminate).
  exact (f_equal Reduce.status
           (proj2 (reduce_validates false "reduce" 2 4 e HP He HK Hl Hf Hm))).
Defined.

(** X20. What stops the reduction kernel before its loop: a command line with
    another number of arguments than two, an iteration count or a vector
    length below 1 (the tests in this order), or an allocation that fails
    in some process; each ends the run with [EXIT_FAILURE] and without
    the line that the solution validates. *)
Theorem reduce_rejections
  {D : Type} {ops : DoubleOps D} (VERBOSE : bool) (progname : string)
  (e : Reduce.env D) :
  (forall args, List.length args <> 2%nat ->
     Reduce.main VERBOSE progname args e
     = Reduce.Exited EXIT_FAILURE [Reduce.Usage progname])
  /\ (forall iterations vector_length, iterations < 1 ->
        Reduce.main VERBOSE progname [iterations; vector_length] e
        = Reduce.Exited EXIT_FAILURE [Reduce.IterationsNotPositive iterations])
  /\ (forall iterations vector_length, 1 <= iterations -> vector_length < 1 ->
        Reduce.main VERBOSE progname [iterations; vector_length] e
        = Reduce.Exited EXIT_FAILURE [Reduce.LengthNotPositive vector_length])
  /\ (forall iterations vector_length r,
        1 <= iterations -> 1 <= vector_length ->
        0 <= r < Reduce.Num_procs e -> Reduce.malloc_result e r = None ->
        let o := Reduce.main VERBOSE progname [iterations; vector_length] e in
        Reduce.status o = EXIT_FAILURE
        /\ In (Reduce.AllocationFailed r) (Reduce.out o)
        /\ ~ In Reduce.SolutionValidates (Reduce.out o)).
Proof.
  repeat apply conj.
  - intros args Hlen. unfold Reduce.main, Reduce.check_args.
    destruct args as [|K [|vl [|x args]]]; try reflexivity.
    now contradiction Hlen.
  - intros K vl HK. unfold Reduce.main, Reduce.check_args.
    replace (K <? 1) with true by (symmetry; apply Z.ltb_lt; lia). reflexivity.
  - intros K vl HK Hvl. unfold Reduce.main, Reduce.check_args.
    replace (K <? 1) with false by (symmetry; apply Z.ltb_ge; lia).
    replace (vl <? 1) with true by (symmetry; apply Z.ltb_lt; lia). reflexivity.
  - intros K vl r HK Hvl Hr Hnull o. unfold o, Reduce.main, Reduce.check_args.
    replace (K <? 1) with false by (symmetry; apply Z.ltb_ge; lia).
    replace (vl <? 1) with false by (symmetry; apply Z.ltb_ge; lia).
    unfold Reduce.run_and_report.
    assert (Hin : In r (Reduce.failed_allocations e)).
    { unfold Reduce.failed_allocations. apply filter_In.
      split; [now apply ranks_in | now rewrite Hnull]. }
    destruct (Reduce.failed_allocations e) as [|r0 l] eqn:E; [now destruct Hin|].
    cbn [Reduce.status Reduce.out]. split; [reflexivity|]. split.
    + apply in_or_app. right. now apply in_map.
    + intros H. apply in_app_or in H. destruct H as [H|H].
      * cbn in H. repeat (destruct H as [H|H]; [discriminate H|]). exact H.
      * apply in_map_iff in H. destruct H as [x [Hx _]]. discriminate Hx.
Qed.

Lemma reduce_rejections_witness :
  Reduce.main false "reduce" [0; 4]
    (Reduce.Env 3 (fun _ => None) (fun _ => PrimFloat.zero))
  = Reduce.Exited EXIT_FAILURE [Reduce.IterationsNotPositive 0].
Proof.
  assert (HK : 0 < 1) by lia.
  exact (proj1 (proj2 (reduce_rejections false "reduce"
                         (Reduce.Env 3 (fun _ => None) (fun _ => PrimFloat.zero))))
           0 4 HK).
Defined.

(** X21. The timing of the reduction kernel.  With one iteration the clock is
    read twice and the sample is kept.  With more, the first trip reads the
    clock once, at its start, and leaves the timing parameters alone; trip
    [k >= 1] reads it twice, readings [2k-1] and [2k], and its sample goes
    into the running sum, minimum and maximum: [2*iterations - 1] readings
    in all. *)
Theorem reduce_timing
  {D : Type} {ops : DoubleOps D} (e : Reduce.env D)
  (iterations vector_length : Z) (malloc0 : Z -> block) :
  1 <= iterations ->
  let st := Reduce.iteration_loop e iterations vector_length malloc0 in
  let sample (k : nat) :=
    d_sub (Reduce.wtime e (2 * k)) (Reduce.wtime e (2 * k - 1)) in
  (iterations = 1 ->
   Reduce.timing st
   = accumulate Reduce.stats0 (d_sub (Reduce.wtime e 1) (Reduce.wtime e 0))
   /\ Reduce.wtime_calls st = 2%nat)
  /\ (2 <= iterations ->
      Reduce.timing st
      = fold_left accumulate (map sample (seq 1 (Z.to_nat iterations - 1)))
          Reduce.stats0
      /\ Reduce.wtime_calls st = (2 * Z.to_nat iterations - 1)%nat).
Proof.
  intros HK st sample. split.
  - intros ->. unfold st, Reduce.iteration_loop. split; reflexivity.
  - intros HK2. unfold st, Reduce.iteration_loop.
    pose proof
      (for_lt_inv
         (fun k s =>
            Reduce.timing s
            = fold_left accumulate (map sample (seq 1 (Z.to_nat k - 1)))
                Reduce.stats0
            /\ Reduce.wtime_calls s = (2 * Z.to_nat k - 1)%nat)
         0 iterations (Reduce.iteration e iterations vector_length)
         {| Reduce.vectors := malloc0; Reduce.timing := Reduce.stats0;
            Reduce.wtime_calls := O |}
         ltac:(lia)) as Hloop.
    cbv beta in Hloop. apply Hloop.
    + split; reflexivity.
    + intros k s Hk [Ht Hc]. unfold Reduce.iteration.
      replace (iterations =? 1) with false by (symmetry; apply Z.eqb_neq; lia).
      rewrite orb_false_r.
      destruct (Z.gtb_spec k 0) as [Hpos|Hzero].
      * cbn [Reduce.timing Reduce.wtime_calls].
        replace (Z.to_nat (k + 1) - 1)%nat with (S (Z.to_nat k - 1)) by lia.
        rewrite seq_S, map_app, fold_left_app. cbn [map fold_left].
        rewrite <- Ht, Hc. unfold accumulate, sample.
        replace (1 + (Z.to_nat k - 1))%nat with (Z.to_nat k) by lia.
        replace (S (2 * Z.to_nat k - 1)) with (2 * Z.to_nat k)%nat by lia.
        split; [reflexivity | lia].
      * assert (k = 0) by lia. subst k.
        cbn [Reduce.timing Reduce.wtime_calls]. rewrite Ht, Hc.
        split; reflexivity.
Qed.

Lemma reduce_timing_witness :
  1 <= 3
  /\ Reduce.wtime_calls
       (Reduce.iteration_loop
          (Reduce.Env 2 (fun _ => Some (fun _ => 0))
             (fun k => Binary64.of_int (Z.of_nat (k * k))))
          3 4 (fun _ _ => 0))
     = 5%nat.
Proof.
  assert (HK : 1 <= 3) by lia.
  assert (HK2 : 2 <= 3) by lia.
  split; [exact HK|].
  exact (proj2 (proj2 (reduce_timing
                         (Reduce.Env 2 (fun _ => Some (fun _ => 0))
                            (fun k => Binary64.of_int (Z.of_nat (k * k))))
                         3 4 (fun _ _ => 0) HK) HK2)).
Defined.
